(** * Canvas navigator: link extraction, reverse index, card reconciliation

    A shallow embedding of the canvas-handling core of the plugin
    (the class [BreadcrumbPlugin]) and the properties its specification
    states about it.

    Conventions of the embedding:
    - a JavaScript string is a [string], the sequence of its UTF-8 bytes; the
      line terminators and the blanks of the class [\s] beyond ASCII are
      recognised by their UTF-8 sequences;
    - a JavaScript number is an exact rational [Q]; rounding, [NaN] and the
      infinities of IEEE doubles are outside the model;
    - a parsed canvas is a [CanvasData]: the typed fields of the interfaces,
      and a bag for every other property; what [JSON.parse] returns is a
      [JsValue], a canvas object or a value that is no object;
    - the host services (file storage, the JSON codec, link resolution, the
      metadata cache, off-screen rendering, the random identifier source) are
      parameters of the sections that use them;
    - the canvas index is a [gmap] from canvas path to a [gset] of note paths,
      the vault a [gmap] from path to file text. *)

From Stdlib Require Import Ascii QArith Qabs.
From stdpp Require Import gmap strings list fin_maps.
From Equations Require Import Equations.

Set Warnings "-register-all,-notation-for-abbreviation,-clear-no-such-hyp".

(** ** JavaScript string primitives *)

Module JsString.

(** [s.startsWith(p)] *)
Fixpoint startsWith (s p : string) {struct p} : bool :=
  match p, s with
  | "", _ => true
  | String a p', String b s' => if decide (a = b) then startsWith s' p' else false
  | String _ _, "" => false
  end.

(** [s.includes(p)] *)
Fixpoint includes (s p : string) : bool :=
  startsWith s p ||
  match s with
  | "" => false
  | String _ s' => includes s' p
  end.

(** [s.substring(n)] *)
Fixpoint drop (n : nat) (s : string) : string :=
  match n, s with
  | O, _ => s
  | S _, "" => ""
  | S n', String _ s' => drop n' s'
  end.

(** [s.split(sep)[0]]: the text before the first separator *)
Fixpoint splitHead (sep : ascii) (s : string) : string :=
  match s with
  | "" => ""
  | String c s' => if decide (c = sep) then "" else String c (splitHead sep s')
  end.

Fixpoint hasChar (sep : ascii) (s : string) : bool :=
  match s with
  | "" => false
  | String c s' => if decide (c = sep) then true else hasChar sep s'
  end.

(** [s.split(sep).pop()]: the text after the last separator *)
Fixpoint splitLast (sep : ascii) (s : string) : string :=
  match s with
  | "" => ""
  | String c s' =>
      if hasChar sep s' then splitLast sep s'
      else if decide (c = sep) then s' else s
  end.

(** [s.replace(/\.md$/, '')] *)
Fixpoint stripMd (s : string) : string :=
  match s with
  | "" => ""
  | String c s' => if decide (s = ".md") then "" else String c (stripMd s')
  end.

(** The characters of the class [[\d.\-_]]. *)
Definition isNumberingChar (c : ascii) : bool :=
  match c with
  | "0"%char | "1"%char | "2"%char | "3"%char | "4"%char
  | "5"%char | "6"%char | "7"%char | "8"%char | "9"%char
  | "."%char | "-"%char | "_"%char => true
  | _ => false
  end.

(** [s.substring(0, n)] *)
Fixpoint take (n : nat) (s : string) : string :=
  match n, s with
  | O, _ => ""
  | S _, "" => ""
  | S n', String c s' => String c (take n' s')
  end.

(** [s.endsWith(p)] *)
Fixpoint endsWith (s p : string) : bool :=
  bool_decide (s = p) ||
  match s with
  | "" => false
  | String _ s' => endsWith s' p
  end.

(** Every character of [s] passes the test [p]. *)
Fixpoint allChars (p : ascii -> bool) (s : string) : bool :=
  match s with
  | "" => true
  | String c s' => p c && allChars p s'
  end.

(** A character of three bytes. *)
Definition utf8 (a b c : ascii) : string := String a (String b (String c "")).
Arguments utf8 (a b c)%_char.

(** The line feed, written ['\n'] in the source, the carriage return, and
    the separators U+2028 and U+2029. *)
Definition LF : string := String "010"%char "".
Definition CR : string := String "013"%char "".
Definition LS : string := utf8 "226" "128" "168".
Definition PS : string := utf8 "226" "128" "169".

(** The line terminators: the characters the regular expression atom [.]
    refuses, and next to which [^] and [$] match under the flag [m]. *)
Definition lineTerminators : list string := [LF; CR; LS; PS].

(** The white space that ends no line: tab, vertical tab, form feed,
    space, U+00A0, U+1680, U+2000 to U+200A, U+202F, U+205F, U+3000 and
    U+FEFF. *)
Definition whiteSpace : list string :=
  [ String "009"%char ""; String "011"%char ""; String "012"%char ""; " ";
    String "194"%char (String "160"%char "");
    utf8 "225" "154" "128";
    utf8 "226" "128" "128"; utf8 "226" "128" "129"; utf8 "226" "128" "130";
    utf8 "226" "128" "131"; utf8 "226" "128" "132"; utf8 "226" "128" "133";
    utf8 "226" "128" "134"; utf8 "226" "128" "135"; utf8 "226" "128" "136";
    utf8 "226" "128" "137"; utf8 "226" "128" "138";
    utf8 "226" "128" "175"; utf8 "226" "129" "159";
    utf8 "227" "128" "128"; utf8 "239" "187" "191" ].

(** The characters of the class [\s], which are also the ones [trim]
    removes. *)
Definition blanks : list string := whiteSpace ++ lineTerminators.

(** The character of [class] the text [s] begins with. *)
Definition headOf (class : list string) (s : string) : option string :=
  List.find (startsWith s) class.

(** A line terminator stands at the head of [s]. *)
Definition atLineTerminator (s : string) : bool :=
  existsb (startsWith s) lineTerminators.

(** The text holds no line terminator. *)
Definition oneLine (s : string) : bool :=
  negb (existsb (includes s) lineTerminators).

(** The text up to its first line terminator. *)
Fixpoint firstLine (s : string) : string :=
  match s with
  | "" => ""
  | String c s' => if atLineTerminator s then "" else String c (firstLine s')
  end.

(** The position behind the text [before] starts a line: there [^] matches
    under the flag [m]. *)
Definition lineStart (before : string) : bool :=
  bool_decide (before = "") || existsb (endsWith before) lineTerminators.

(** [s.trimStart()]: the blank at the head is dropped, all of its bytes,
    as long as there is one. *)
Equations? trimStart (s : string) : string by wf (String.length s) lt :=
  trimStart "" := "";
  trimStart (String c s') with headOf blanks (String c s') => {
    | Some b := trimStart (drop (String.length b - 1) s');
    | None := String c s' }.
Proof.
  simpl. generalize (String.length b - 1)%nat as n. clear.
  intros n; revert s'; induction n as [|n IH]; intros [|d s']; simpl; try lia.
  specialize (IH s'); lia.
Qed.

(** The text consists of blanks. *)
Definition allBlank (s : string) : bool := bool_decide (trimStart s = "").

(** [s.trimEnd()]: the text is cut where only blanks follow. *)
Fixpoint trimEnd (s : string) : string :=
  match s with
  | "" => ""
  | String c s' => if allBlank s then "" else String c (trimEnd s')
  end.

(** [s.trim()] *)
Definition trim (s : string) : string := trimEnd (trimStart s).

End JsString.

(** ** Link extractor *)

Module LinkExtractor.
Import JsString.

(** The lazy group [(.*?)] followed by [\]\]]: the shortest run of
    characters other than line terminators after which ["]]"] stands. *)
Fixpoint lazyCapture (s : string) : option string :=
  match s with
  | "" => None
  | String c s' =>
      if startsWith s "]]" then Some ""
      else if atLineTerminator s then None
      else String c <$> lazyCapture s'
  end.

(** A match of [/\[\[(.*?)\]\]/] anchored at the head of [s]; the result is
    the text of group 1. *)
Definition matchHere (s : string) : option string :=
  match s with
  | String "["%char (String "["%char s') => lazyCapture s'
  | _ => None
  end.

(** [text.matchAll(/\[\[(.*?)\]\]/g)], as the list of group-1 texts: the
    leftmost match first, the scan resumed behind every match. *)
Equations? matchAll (s : string) : list string by wf (String.length s) lt :=
  matchAll "" := [];
  matchAll (String c s') with matchHere (String c s') => {
    | Some cap := cap :: matchAll (drop (String.length cap + 3) s');
    | None := matchAll s' }.
Proof.
  all: simpl; try lia.
  generalize (String.length cap + 3)%nat as n; clear.
  intros n; revert s'; induction n as [|n IH]; intros [|d s']; simpl; try lia.
  specialize (IH s'); lia.
Qed.

(** [text.match(/\[\[(.*?)\]\]/)]: group 1 of the leftmost match. *)
Fixpoint matchFirst (s : string) : option string :=
  match matchHere s with
  | Some cap => Some cap
  | None => match s with
            | "" => None
            | String _ s' => matchFirst s'
            end
  end.

(** Text the scan leaves behind with no match under way: characters other
    than the opening bracket, a single opening bracket before another
    character, complete links on one line, and whatever stands before a
    line terminator. *)
Inductive Scanned : string -> Prop :=
| scanned_nil : Scanned ""
| scanned_char c s : c <> "["%char -> Scanned s -> Scanned (String c s)
| scanned_bracket c s :
    c <> "["%char -> Scanned s -> Scanned (String "[" (String c s))
| scanned_link cap s :
    oneLine cap = true -> includes cap "]]" = false -> Scanned s ->
    Scanned ("[[" +:+ cap +:+ "]]" +:+ s)
| scanned_line l t s :
    t ∈ lineTerminators -> Scanned s -> Scanned (l +:+ t +:+ s).

(** A text a link target or an alias is made of: it lies on one line and
    holds no closing bracket. *)
Definition isLinkText (s : string) : bool := oneLine s && negb (hasChar "]" s).

(** What one match contributes: [match[1].split('|')[0]] when both the
    group and the target are non-empty. *)
Definition linkTargetOf (cap : string) : option string :=
  if decide (cap = "") then None
  else let linkTarget := splitHead "|" cap in
       if decide (linkTarget = "") then None else Some linkTarget.

Definition extractWikiLinks (text : string) : list string :=
  omap linkTargetOf (matchAll text).

End LinkExtractor.

(** ** Canvas document model *)

Module Canvas.

(** A JSON value the engine does not interpret. *)
Inductive Json : Type :=
| JNull
| JBool (b : bool)
| JNum (q : Q)
| JStr (s : string)
| JArr (items : list Json)
| JObj (fields : list (string * Json)).

(** [interface CanvasNode]: the fields the engine reads, and in
    [node_extra] every other property of the parsed object. An optional
    field that is absent, or not a string, is [None]. *)
Record CanvasNode : Type := mkNode {
  node_id : string;
  node_type : string;
  node_text : option string;
  node_file : option string;
  node_label : option string;
  node_x : Q;
  node_y : Q;
  node_width : Q;
  node_height : Q;
  node_extra : list (string * Json)
}.

(** [interface CanvasData]; [nodes] may be missing from a parsed file. *)
Record CanvasData : Type := mkData {
  nodes : option (list CanvasNode);
  edges : option (list Json);
  data_extra : list (string * Json)
}.

(** What [JSON.parse] returns where it does not throw. The cast
    [as CanvasData] is not checked: besides a canvas object the variable
    may hold [null], a boolean, a number, a string or an array. A canvas
    object is used as a value without further ado. *)
Inductive JsValue : Type :=
| VNull
| VBool (b : bool)
| VNum (q : Q)
| VStr (s : string)
| VArr (items : list Json)
| VObj (data : CanvasData).

Coercion VObj : CanvasData >-> JsValue.

(** [interface TFile] *)
Record TFile : Type := mkFile {
  path : string;
  basename : string;
  extension : string
}.

Definition set_text (t : string) (n : CanvasNode) : CanvasNode :=
  mkNode (node_id n) (node_type n) (Some t) (node_file n) (node_label n)
         (node_x n) (node_y n) (node_width n) (node_height n) (node_extra n).

Definition set_size (w h : Q) (n : CanvasNode) : CanvasNode :=
  mkNode (node_id n) (node_type n) (node_text n) (node_file n) (node_label n)
         (node_x n) (node_y n) w h (node_extra n).

Definition set_geometry (x y w h : Q) (n : CanvasNode) : CanvasNode :=
  mkNode (node_id n) (node_type n) (node_text n) (node_file n) (node_label n)
         x y w h (node_extra n).

Definition set_nodes (l : list CanvasNode) (d : CanvasData) : CanvasData :=
  mkData (Some l) (edges d) (data_extra d).

(** The object literal of a generated text card. *)
Definition textCard (id text : string) (x y w h : Q) : CanvasNode :=
  mkNode id "text" (Some text) None None x y w h [].

(** The object literal of a generated group frame. *)
Definition groupFrame (id label : string) (x y w h : Q) : CanvasNode :=
  mkNode id "group" None None (Some label) x y w h [].

(** The frame of a card: the label and the card's own rectangle. *)
Definition frameOf (id label : string) (card : CanvasNode) : CanvasNode :=
  groupFrame id label (node_x card) (node_y card)
             (node_width card) (node_height card).

(** Everything of a node but its position and size. *)
Definition sameButGeometry (n m : CanvasNode) : Prop :=
  node_id n = node_id m /\ node_type n = node_type m /\
  node_text n = node_text m /\ node_file n = node_file m /\
  node_label n = node_label m /\ node_extra n = node_extra m.

(** Two nodes occupy the same rectangle. *)
Definition sameGeometry (n m : CanvasNode) : Prop :=
  (node_x n == node_x m)%Q /\ (node_y n == node_y m)%Q /\
  (node_width n == node_width m)%Q /\ (node_height n == node_height m)%Q.

End Canvas.

(** ** The host application, as far as the engine calls it *)

Module Host.
Import Canvas.

(** A frontmatter value: missing, a string, a list, or anything else
    (of which only the truthiness matters). *)
Inductive Yaml : Type :=
| YAbsent
| YString (s : string)
| YList (items : list Yaml)
| YOther (truthy : bool).

(** The relationship fields of [cache.frontmatter] the engine reads. *)
Record Frontmatter : Type := mkFrontmatter {
  fm_description : Yaml;
  fm_up : Yaml
}.

(** What an operation leaves behind besides its result. *)
Inductive Event : Type :=
| Modified (file content : string)
| Noticed (message : string)
| ConsoleError (message : string).

(** The vault (file text by path), the plugin's [canvasIndex], and the
    events so far, oldest first. *)
Record World : Type := mkWorld {
  vault : gmap string string;
  canvasIndex : gmap string (gset string);
  trace : list Event
}.

(** How a promise settles. *)
Inductive Completion (A : Type) : Type :=
| Fulfilled (a : A)
| Rejected.
Arguments Fulfilled {A} a.
Arguments Rejected {A}.

(** An [async] method: a state transformer that may reject. *)
Definition Async (A : Type) : Type := World -> Completion A * World.

#[global] Instance async_ret : MRet Async :=
  fun A (a : A) w => (Fulfilled a, w).

(** Sequencing with [await]: a rejection skips the rest. *)
#[global] Instance async_bind : MBind Async :=
  fun A B (k : A -> Async B) (m : Async A) w =>
    match m w with
    | (Fulfilled a, w') => k a w'
    | (Rejected, w') => (Rejected, w')
    end.

(** [await this.app.vault.read(file)]; a missing file rejects. *)
Definition vault_read (file : TFile) : Async string :=
  fun w => match vault w !! path file with
           | Some content => (Fulfilled content, w)
           | None => (Rejected, w)
           end.

(** The world after [content] has been stored in [file]. *)
Definition modified (file : TFile) (content : string) (w : World) : World :=
  mkWorld (<[path file := content]> (vault w)) (canvasIndex w)
          (trace w ++ [Modified (path file) content]).

(** The world after a message has been shown or logged. *)
Definition logged (e : Event) (w : World) : World :=
  mkWorld (vault w) (canvasIndex w) (trace w ++ [e]).

(** [await this.app.vault.modify(file, content)] *)
Definition vault_modify (file : TFile) (content : string) : Async unit :=
  fun w => (Fulfilled (), modified file content w).

(** [new Notice(message)] *)
Definition notice (message : string) : Async unit :=
  fun w => (Fulfilled (), logged (Noticed message) w).

(** [console.error(message, error)] *)
Definition console_error (message : string) : Async unit :=
  fun w => (Fulfilled (), logged (ConsoleError message) w).

(** [this.canvasIndex.set(key, refs)] *)
Definition index_set (key : string) (refs : gset string) : Async unit :=
  fun w => (Fulfilled (),
            mkWorld (vault w) (<[key := refs]> (canvasIndex w)) (trace w)).

(** [this.canvasIndex.delete(key)] *)
Definition index_delete (key : string) : Async unit :=
  fun w => (Fulfilled (),
            mkWorld (vault w) (delete key (canvasIndex w)) (trace w)).

(** [throw] *)
Definition reject {A} : Async A := fun w => (Rejected, w).

(** [try { body } catch { handler }] *)
Definition try_catch {A} (body handler : Async A) : Async A :=
  fun w => match body w with
           | (Fulfilled a, w') => (Fulfilled a, w')
           | (Rejected, w') => handler w'
           end.

(** The files an operation wrote, oldest first. *)
Definition writes (t : list Event) : list string :=
  omap (fun e => match e with Modified f _ => Some f | _ => None end) t.

End Host.


(** ** Card text: the generated markdown of a card *)

Module CardText.
Import JsString Canvas Host.

Fixpoint skipNumbering (s : string) : string :=
  match s with
  | "" => ""
  | String c s' => if isNumberingChar c then skipNumbering s' else s
  end.

(** [text.replace(/^[\d.\-_]+\s+/, '')]: a leading numbering run with the
    blanks after it is dropped; without both, the text is kept. *)
Definition cleanName (text : string) : string :=
  let rest := skipNumbering text in
  let kept := trimStart rest in
  if bool_decide (rest <> text) && bool_decide (kept <> rest) then kept
  else text.

(** Letters compare without case under the flag [i]. *)
Definition foldCase (c : ascii) : ascii :=
  let n := nat_of_ascii c in
  if (65 <=? n)%nat && (n <=? 90)%nat then ascii_of_nat (n + 32) else c.

Fixpoint stripPrefixNoCase (p s : string) : option string :=
  match p, s with
  | "", _ => Some s
  | String _ _, "" => None
  | String a p', String b s' =>
      if decide (foldCase a = foldCase b) then stripPrefixNoCase p' s' else None
  end.

(** [\s*description\s*[:：]] at the head of [s]; the result is the text
    behind the match. *)
Definition labelHere (s : string) : option string :=
  match stripPrefixNoCase "description" (trimStart s) with
  | None => None
  | Some s2 =>
      let s3 := trimStart s2 in
      if startsWith s3 ":" then Some (drop 1 s3)
      else if startsWith s3 "：" then Some (drop (String.length "：") s3)
      else None
  end.

(** [content.match(/^\s*description\s*[:：]/im)], as the text behind the
    leftmost match; [before] is the text before the head of [s]. *)
Fixpoint findLabel (before s : string) : option string :=
  match (if lineStart before then labelHere s else None) with
  | Some after => Some after
  | None => match s with
            | "" => None
            | String c s' => findLabel (before +:+ String c "") s'
            end
  end.

(** [^\s*$] at a line start: the line holds blanks only. *)
Definition blankLineHere (s : string) : bool := allBlank (firstLine s).

(** [textAfter.match(/(\n---|^\s*$|\n#)/m)?.index]; [before] is the text
    before the head of [s]. *)
Fixpoint findEnd (before s : string) : option nat :=
  if startsWith s (LF +:+ "---") || (lineStart before && blankLineHere s)
     || startsWith s (LF +:+ "#")
  then Some O
  else match s with
       | "" => None
       | String c s' => S <$> findEnd (before +:+ String c "") s'
       end.

Definition upToEnd (s : string) : string :=
  match findEnd "" s with
  | Some i => trim (take i s)
  | None => trim s
  end.

(** The regular-expression fallback of [extractNodeText]. *)
Definition scanDescription (content : string) : string :=
  match findLabel "" content with
  | None => ""
  | Some textAfter =>
      let descContent := upToEnd textAfter in
      if bool_decide (descContent = "") && startsWith textAfter LF
      then upToEnd (trimStart textAfter)
      else descContent
  end.

(** The card template with the title shown under its cleaned alias. *)
Definition aliasedCard (file : TFile) (descContent : string) : string :=
  "# [[" +:+ basename file +:+ "|" +:+ cleanName (basename file) +:+ "]]"
    +:+ LF +:+ LF +:+ descContent.

(** The card template with the plain self-link. *)
Definition plainCard (file : TFile) (descContent : string) : string :=
  "# [[" +:+ basename file +:+ "]]" +:+ LF +:+ LF +:+ descContent.

Section WithCache.
Variable getFrontmatter : TFile -> option Frontmatter.

(** The description excerpt: the frontmatter field when it is a string,
    else the scan of the note's text. *)
Definition descriptionOf (file : TFile) : Async string :=
  match fm_description <$> getFrontmatter file with
  | Some (YString d) => mret d
  | _ => content ← vault_read file; mret (scanDescription content)
  end.

(** [extractNodeText] with the aliased title. *)
Definition extractNodeText (file : TFile) : Async string :=
  descContent ← descriptionOf file; mret (aliasedCard file descContent).

(** [extractNodeText] with the plain title (main.ts). *)
Definition extractNodeText_plain (file : TFile) : Async string :=
  descContent ← descriptionOf file; mret (plainCard file descContent).
End WithCache.

End CardText.

(** ** Reverse reference index, reconciliation engine and path resolver *)

Module Engine.
Import JsString LinkExtractor Canvas Host CardText.

(** [a > b] and [a !== b] on numbers *)
Definition Qgtb (a b : Q) : bool := negb (Qle_bool a b).
Definition Qneb (a b : Q) : bool := negb (Qeq_bool a b).

Definition hasType (t : string) (n : CanvasNode) : bool :=
  bool_decide (node_type n = t).

(** [node.type === 'file' && node.file === targetPath] *)
Definition isFileCardFor (targetPath : string) (n : CanvasNode) : bool :=
  hasType "file" n && bool_decide (node_file n = Some targetPath).

(** [node.type === 'text' && typeof node.text === 'string' &&
    node.text.includes(targetLink)] *)
Definition isTextCardFor (targetLink : string) (n : CanvasNode) : bool :=
  hasType "text" n &&
  match node_text n with
  | Some t => includes t targetLink
  | None => false
  end.

(** The lookup loop of [addToCanvas]: the identifier of the first node
    that is a card of the note. *)
Fixpoint lookupCard (targetPath targetLink : string) (ns : list CanvasNode)
  : option string :=
  match ns with
  | [] => None
  | node :: rest =>
      if isFileCardFor targetPath node then Some (node_id node)
      else if isTextCardFor targetLink node then Some (node_id node)
      else lookupCard targetPath targetLink rest
  end.

(** The generated link prefix of a note. *)
Definition linkPrefix (noteFile : TFile) : string := "[[" +:+ basename noteFile.

(** The right edge of a node. *)
Definition rightEdge (n : CanvasNode) : Q := (node_x n + node_width n)%Q.

(** [q] is the greatest of the numbers [candidates]. *)
Definition greatestOf (candidates : list Q) (q : Q) : Prop :=
  (exists c, c ∈ candidates /\ (q == c)%Q)
  /\ (forall c, c ∈ candidates -> (c <= q)%Q).

(** The arithmetic mean of the numbers [qs]. *)
Definition meanOf (qs : list Q) : Q :=
  (foldr Qplus 0 qs / inject_Z (Z.of_nat (length qs)))%Q.

(** One round of the [forEach] of the placement policy. *)
Definition placementStep (acc : Q * Q) (n : CanvasNode) : Q * Q :=
  let '(maxX, avgY) := acc in
  ((if Qgtb (node_x n + node_width n) maxX then node_x n + node_width n else maxX)%Q,
   (avgY + node_y n)%Q).

(** [maxX] and [avgY] of [addToCanvas]. *)
Definition placement (ns : list CanvasNode) : Q * Q :=
  match ns with
  | [] => ((-400)%Q, (-200)%Q)
  | _ :: _ =>
      let '(maxX, sumY) := foldl placementStep (0%Q, 0%Q) ns in
      (maxX, (sumY / inject_Z (Z.of_nat (length ns)))%Q)
  end.

(** A truthy identifier: neither [null] nor the empty string. *)
Definition truthyId (o : option string) : bool :=
  match o with
  | Some s => bool_decide (s <> "")
  | None => false
  end.

(** The variables of [syncNodeInCanvas] its loops assign. *)
Record SyncState : Type := mkSync {
  updated : bool;
  targetNodeId : option string;
  targetNode : option CanvasNode
}.

(** The first loop of [syncNodeInCanvas]: every text card of the note
    gets the regenerated text; the last one is the target. *)
Fixpoint syncTexts (targetLink textContent : string) (ns : list CanvasNode)
         (st : SyncState) : list CanvasNode * SyncState :=
  match ns with
  | [] => ([], st)
  | node :: rest =>
      if isTextCardFor targetLink node then
        let isContentDiff := bool_decide (node_text node <> Some textContent) in
        let node' := if isContentDiff then set_text textContent node else node in
        let '(rest', st') :=
          syncTexts targetLink textContent rest
            (mkSync (updated st || isContentDiff) (Some (node_id node)) (Some node')) in
        (node' :: rest', st')
      else
        let '(rest', st') := syncTexts targetLink textContent rest st in
        (node :: rest', st')
  end.

(** What the first loop does to a node: nothing, or the new text in place
    of a different one. *)
Definition retexted (t : string) (n n' : CanvasNode) : Prop :=
  n' = n \/ (n' = set_text t n /\ node_text n <> Some t).

(** What the first loop of the size-syncing variant does to a node. *)
Definition resized (t : string) (w h : Q) (n n' : CanvasNode) : Prop :=
  n' = n \/ (n' = set_size w h (set_text t n) /\ n' <> n).

(** The second loop: without a target so far, the first file card. *)
Definition fallBackToFile (targetPath : string) (ns : list CanvasNode)
           (st : SyncState) : SyncState :=
  if truthyId (targetNodeId st) then st
  else match List.find (isFileCardFor targetPath) ns with
       | Some node => mkSync (updated st) (Some (node_id node)) (Some node)
       | None => st
       end.

(** [n.type === 'group' && n.label === noteFile.basename] *)
Definition isGroupOf (label : string) (n : CanvasNode) : bool :=
  hasType "group" n && bool_decide (node_label n = Some label).

(** Group repair: a target without a frame of its name gets one, of the
    target's geometry, at the front. *)
Definition repairGroup (groupId label : string) (ns : list CanvasNode)
           (st : SyncState) : list CanvasNode * bool :=
  match targetNode st with
  | Some t =>
      if existsb (isGroupOf label) ns then (ns, updated st)
      else (frameOf groupId label t :: ns, true)
  | None => (ns, updated st)
  end.

(** The in-memory part of [syncNodeInCanvas]. *)
Definition syncNodes (noteFile : TFile) (textContent groupId : string)
           (ns : list CanvasNode) : list CanvasNode * bool * option string :=
  let '(ns1, st1) :=
    syncTexts (linkPrefix noteFile) textContent ns (mkSync false None None) in
  let st2 := fallBackToFile (path noteFile) ns1 st1 in
  let '(ns2, upd) := repairGroup groupId (basename noteFile) ns1 st2 in
  (ns2, upd, targetNodeId st2).

(** [node.width || 0] *)
Definition orZero (q : Q) : Q := if Qeq_bool q 0 then 0%Q else q.

(** [Math.abs((node.width || 0) - width) > 2 || ...] *)
Definition isSizeDiff (n : CanvasNode) (width height : Q) : bool :=
  Qgtb (Qabs (orZero (node_width n) - width)) 2
  || Qgtb (Qabs (orZero (node_height n) - height)) 2.

(** The first loop of the size-syncing [syncNodeInCanvas] (main.ts). *)
Fixpoint syncTextsAndSizes (targetLink textContent : string) (width height : Q)
         (ns : list CanvasNode) (st : bool * option string)
  : list CanvasNode * (bool * option string) :=
  match ns with
  | [] => ([], st)
  | node :: rest =>
      if isTextCardFor targetLink node then
        let isContentDiff := bool_decide (node_text node <> Some textContent) in
        let changed := isContentDiff || isSizeDiff node width height in
        let node' := if changed
                     then set_size width height (set_text textContent node)
                     else node in
        let '(rest', st') :=
          syncTextsAndSizes targetLink textContent width height rest
            (fst st || changed, Some (node_id node)) in
        (node' :: rest', st')
      else
        let '(rest', st') :=
          syncTextsAndSizes targetLink textContent width height rest st in
        (node :: rest', st')
  end.

(** The in-memory part of the size-syncing [syncNodeInCanvas]. *)
Definition syncNodes_sized (noteFile : TFile) (textContent : string)
           (width height : Q) (ns : list CanvasNode)
  : list CanvasNode * bool * option string :=
  let '(ns1, (upd, tid)) :=
    syncTextsAndSizes (linkPrefix noteFile) textContent width height ns
                      (false, None) in
  let tid' := if truthyId tid then tid
              else match List.find (isFileCardFor (path noteFile)) ns1 with
                   | Some node => Some (node_id node)
                   | None => tid
                   end in
  (ns1, upd, tid').

(** The containment test: the centre of [n] lies in the rectangle of
    [group]. *)
Definition centroidInside (group n : CanvasNode) : bool :=
  let cx := (node_x n + node_width n / 2)%Q in
  let cy := (node_y n + node_height n / 2)%Q in
  Qle_bool (node_x group) cx && Qle_bool cx (node_x group + node_width group)
  && Qle_bool (node_y group) cy && Qle_bool cy (node_y group + node_height group).

(** The predicate of the [find] of [adjustGroupsInCanvas]: a file card
    whose base name is the label, or a text card with the self-link. *)
Definition matchesLabel (label : string) (n : CanvasNode) : bool :=
  match (if hasType "file" n then node_file n else None) with
  | Some f => bool_decide (stripMd (splitLast "/" f) = label)
  | None =>
      match (if hasType "text" n then node_text n else None) with
      | Some t =>
          includes t ("[[" +:+ label +:+ "]]")
          || includes t ("[[" +:+ label +:+ "|")
          || includes t ("# [[" +:+ label +:+ "]]")
      | None => false
      end
  end.

(** [group.x !== newX || group.y !== newY || ...] *)
Definition geometryDiffers (group t : CanvasNode) : bool :=
  Qneb (node_x group) (node_x t) || Qneb (node_y group) (node_y t)
  || Qneb (node_width group) (node_width t)
  || Qneb (node_height group) (node_height t).

(** The body of the loop over the groups, for one group: the group as it
    is to be stored back, if the round changes it. [store] is the node
    array as it stands, [nonGroups] the filtered array taken before the
    loop. *)
Definition adjustGroup (store nonGroups : list CanvasNode) (group : CanvasNode)
  : option CanvasNode :=
  let nodesInside := List.filter (centroidInside group) nonGroups in
  if (1 <? length nodesInside)%nat then None
  else match node_label group with
       | None => None
       | Some label =>
           if bool_decide (label = "") then None
           else match List.find (matchesLabel label) store with
                | Some t =>
                    if geometryDiffers group t
                    then Some (set_geometry (node_x t) (node_y t)
                                            (node_width t) (node_height t) group)
                    else None
                | None => None
                end
       end.

(** The positions of the group nodes in the array. *)
Fixpoint groupPositions (i : nat) (ns : list CanvasNode) : list nat :=
  match ns with
  | [] => []
  | n :: rest =>
      if hasType "group" n then i :: groupPositions (S i) rest
      else groupPositions (S i) rest
  end.

(** One round of the loop: the group at position [i] of the array is
    adjusted in place. *)
Definition adjustStep (nonGroups : list CanvasNode)
           (st : list CanvasNode * bool) (i : nat) : list CanvasNode * bool :=
  match fst st !! i with
  | Some group =>
      match adjustGroup (fst st) nonGroups group with
      | Some group' => (<[i := group']> (fst st), true)
      | None => st
      end
  | None => st
  end.

(** The in-memory part of [adjustGroupsInCanvas]: the array after the
    loop and the flag [updated]. *)
Definition adjustNodes (ns : list CanvasNode) : list CanvasNode * bool :=
  let nonGroups := List.filter (fun n => negb (hasType "group" n)) ns in
  foldl (adjustStep nonGroups) (ns, false) (groupPositions 0 ns).

(** The array as the loop sees it: the parsed one, but for groups. *)
Definition sameButGroups (ns store : list CanvasNode) : Prop :=
  Forall2 (fun a b => a = b \/ (hasType "group" a = true /\ hasType "group" b = true))
          ns store.

(** What the loop leaves of a node: a group as its round decides, any
    other node as it was. *)
Definition adjusted (ns : list CanvasNode) (n : CanvasNode) : CanvasNode :=
  if hasType "group" n
  then default n (adjustGroup ns (List.filter (fun m => negb (hasType "group" m)) ns) n)
  else n.

(** The round of a group changes it. *)
Definition adjusts (ns : list CanvasNode) (n : CanvasNode) : bool :=
  hasType "group" n
  && bool_decide (is_Some (adjustGroup ns (List.filter (fun m => negb (hasType "group" m)) ns) n)).

(** What the operations assign to a parsed node: the synchronisation the
    text of a text card of the note (in main.ts its size as well), the
    adjustment the rectangle of a group. Every other node, and every other
    field of these, [node_extra] among them, stays as parsed. *)
Definition retextedCard (targetLink : string) (n n' : CanvasNode) : Prop :=
  n' = n \/ (isTextCardFor targetLink n = true /\ exists t, n' = set_text t n).

Definition resizedCard (targetLink : string) (n n' : CanvasNode) : Prop :=
  n' = n
  \/ (isTextCardFor targetLink n = true
      /\ exists t w h, n' = set_size w h (set_text t n)).

Definition movedGroup (n n' : CanvasNode) : Prop :=
  n' = n
  \/ (hasType "group" n = true /\ exists x y w h, n' = set_geometry x y w h n).

(** The document [d'] keeps what the parsed document [data] holds: the
    edges, the other top-level fields, and every node, in order and up to
    [rel], possibly with new nodes before and behind. *)
Definition preserved (rel : CanvasNode -> CanvasNode -> Prop)
           (data d' : CanvasData) : Prop :=
  edges d' = edges data
  /\ data_extra d' = data_extra data
  /\ exists front kept back,
      nodes d' = Some (front ++ kept ++ back)
      /\ Forall2 rel (default [] (nodes data)) kept.

(** Whatever the operation [op] stores, it stores in [file], and it is the
    serialization of a document that keeps, up to [rel], what the file
    held when read; where the file held a value that is no object, that
    value itself. *)
Definition writesPreserving {A}
           (JSON_parse : string -> option JsValue)
           (JSON_stringify : JsValue -> string)
           (rel : CanvasNode -> CanvasNode -> Prop)
           (file : TFile) (op : Async A) : Prop :=
  forall w,
  exists new,
    trace (op w).2 = trace w ++ new
    /\ forall f c, Modified f c ∈ new ->
        f = path file
        /\ exists content v,
            vault w !! path file = Some content
            /\ JSON_parse content = Some v
            /\ match v with
               | VObj data =>
                   exists d' : CanvasData,
                     c = JSON_stringify d' /\ preserved rel data d'
               | _ => c = JSON_stringify v
               end.

(** [parseLinks]'s test [!field] *)
Definition truthy (field : Yaml) : bool :=
  match field with
  | YAbsent => false
  | YString v => bool_decide (v <> "")
  | YList _ => true
  | YOther b => b
  end.

(** The [map] callback of [parseLinks]; [None] stands for [null]. *)
Definition parseLinkItem (item : Yaml) : option string :=
  match item with
  | YString v =>
      match matchFirst v with
      | Some cap => if bool_decide (cap <> "") then Some (splitHead "|" cap)
                    else Some v
      | None => Some v
      end
  | _ => None
  end.

Definition parseLinks (field : Yaml) : list string :=
  if truthy field then
    let list := match field with YList items => items | _ => [field] end in
    List.filter (fun v => bool_decide (v <> "")) (omap parseLinkItem list)
  else [].

Section WithHost.
(** [this.app.metadataCache.getFileCache(file)?.frontmatter] *)
Variable getFrontmatter : TFile -> option Frontmatter.
(** [this.app.metadataCache.getFirstLinkpathDest(linkpath, sourcePath)] *)
Variable getFirstLinkpathDest : string -> string -> option TFile.
(** [JSON.parse(text) as CanvasData]; [None] when it throws. *)
Variable JSON_parse : string -> option JsValue.
(** [JSON.stringify(data, null, "\t")] *)
Variable JSON_stringify : JsValue -> string.
(** [measureTextPrecisely]: the rendered footprint of a card text. *)
Variable measureTextPrecisely : string -> Q * Q.

(** [JSON.parse(await this.app.vault.read(file))] *)
Definition readCanvas (file : TFile) : Async JsValue :=
  content ← vault_read file;
  match JSON_parse content with
  | Some data => mret data
  | None => reject
  end.

(** *** Reverse reference index *)

(** What one node adds to [referencedPaths]. *)
Definition referencesOf (canvasPath : string) (node : CanvasNode)
  : gset string :=
  match (if hasType "file" node then node_file node else None) with
  | Some f => {[ f ]}
  | None =>
      match (if hasType "text" node then node_text node else None) with
      | Some t =>
          list_to_set
            (omap (fun linkText =>
                     path <$> getFirstLinkpathDest linkText canvasPath)
                  (extractWikiLinks t))
      | None => ∅
      end
  end.

Definition referencedPaths (canvasPath : string) (data : CanvasData)
  : gset string :=
  foldl (fun acc node => acc ∪ referencesOf canvasPath node) ∅
        (default [] (nodes data)).

(** [indexSingleCanvas]: reading [data.nodes] throws when [data] is
    [null]; a boolean, a number, a string and an array have no such
    property, and the set stays empty. *)
Definition indexSingleCanvas (file : TFile) : Async () :=
  try_catch
    (data ← readCanvas file;
     match data with
     | VNull => reject
     | VObj data => index_set (path file) (referencedPaths (path file) data)
     | _ => index_set (path file) ∅
     end)
    (console_error ("[BreadcrumbPlugin] Failed to index canvas: " +:+ path file);;
     index_delete (path file)).

(** *** Card reconciliation *)

(** The card [addToCanvas] creates: the measured size, right of the
    rightmost node, at the mean height. *)
Definition newCard (newNodeId textContent : string) (ns : list CanvasNode)
  : CanvasNode :=
  let '(width, height) := measureTextPrecisely textContent in
  let '(maxX, avgY) := placement ns in
  textCard newNodeId textContent (maxX + 100)%Q avgY width height.

(** In the world [w] the lookup loop of [addToCanvas] finds the node
    [found] as the card of the note: the call ends there. *)
Definition foundAtLookup (canvasFile noteFile : TFile) (found : string)
           (w : World) : Prop :=
  exists content (canvasData : CanvasData),
    vault w !! path canvasFile = Some content
    /\ JSON_parse content = Some (VObj canvasData)
    /\ lookupCard (path noteFile) (linkPrefix noteFile)
                  (default [] (nodes canvasData)) = Some found.

(** The document [addToCanvas] stores when it creates a card. *)
Definition withNewCard (noteFile : TFile) (newNodeId groupId textContent : string)
           (canvasData : CanvasData) : CanvasData :=
  let ns := default [] (nodes canvasData) in
  let newNode := newCard newNodeId textContent ns in
  set_nodes (ns ++ [frameOf groupId (basename noteFile) newNode; newNode])
            canvasData.

(** The document the [addToCanvas] of main.ts stores. *)
Definition withNewCard_plain (newNodeId textContent : string)
           (canvasData : CanvasData) : CanvasData :=
  let ns := default [] (nodes canvasData) in
  set_nodes (ns ++ [newCard newNodeId textContent ns]) canvasData.

(** [addToCanvas]; [newNodeId] and [groupId] are the identifiers the
    random source hands out. The statements behind the [try] are not
    guarded: on [null] the read of [canvasData.nodes] throws, on a boolean,
    a number or a string the empty array cannot be stored in it (or, where
    the assignment is ignored, the loop finds nothing to iterate), and the
    promise is rejected. An array takes the new property [nodes], which
    [JSON.stringify] does not print: the array is stored as it was read. *)
Definition addToCanvas (canvasFile noteFile : TFile)
           (newNodeId groupId : string) : Async (option string) :=
  parsed ← try_catch (data ← readCanvas canvasFile; mret (Some data))
                     (notice "无法读取白板数据";; mret None);
  match parsed with
  | None => mret None
  | Some (VObj canvasData) =>
      let ns := default [] (nodes canvasData) in
      match lookupCard (path noteFile) (linkPrefix noteFile) ns with
      | Some found => mret (Some found)
      | None =>
          textContent ← extractNodeText getFrontmatter noteFile;
          let newNode := newCard newNodeId textContent ns in
          let newGroup := frameOf groupId (basename noteFile) newNode in
          vault_modify canvasFile
            (JSON_stringify (set_nodes (ns ++ [newGroup; newNode]) canvasData));;
          mret (Some newNodeId)
      end
  | Some (VArr items) =>
      textContent ← extractNodeText getFrontmatter noteFile;
      vault_modify canvasFile (JSON_stringify (VArr items));;
      mret (Some newNodeId)
  | Some _ => reject
  end.

(** [addToCanvas] of main.ts: the plain title, no group frame. *)
Definition addToCanvas_plain (canvasFile noteFile : TFile)
           (newNodeId : string) : Async (option string) :=
  parsed ← try_catch (data ← readCanvas canvasFile; mret (Some data))
                     (notice "无法读取白板数据";; mret None);
  match parsed with
  | None => mret None
  | Some (VObj canvasData) =>
      let ns := default [] (nodes canvasData) in
      match lookupCard (path noteFile) (linkPrefix noteFile) ns with
      | Some found => mret (Some found)
      | None =>
          textContent ← extractNodeText_plain getFrontmatter noteFile;
          let newNode := newCard newNodeId textContent ns in
          vault_modify canvasFile
            (JSON_stringify (set_nodes (ns ++ [newNode]) canvasData));;
          mret (Some newNodeId)
      end
  | Some (VArr items) =>
      textContent ← extractNodeText_plain getFrontmatter noteFile;
      vault_modify canvasFile (JSON_stringify (VArr items));;
      mret (Some newNodeId)
  | Some _ => reject
  end.

(** [syncNodeInCanvas]: the read of [canvasData.nodes] behind the [try]
    throws on [null], and finds nothing in a boolean, a number, a string or
    an array. *)
Definition syncNodeInCanvas (canvasFile noteFile : TFile) (groupId : string)
  : Async (option string) :=
  parsed ← try_catch (data ← readCanvas canvasFile; mret (Some data))
                     (mret None);
  match parsed with
  | None => mret None
  | Some VNull => reject
  | Some (VBool _) | Some (VNum _) | Some (VStr _) | Some (VArr _) => mret None
  | Some (VObj canvasData) =>
      match nodes canvasData with
      | None => mret None
      | Some ns =>
          textContent ← extractNodeText getFrontmatter noteFile;
          let '(ns', upd, tid) := syncNodes noteFile textContent groupId ns in
          (if upd
           then vault_modify canvasFile
                  (JSON_stringify (set_nodes ns' canvasData))
           else mret ());;
          mret tid
      end
  end.

(** [syncNodeInCanvas] of main.ts: text and size, no group repair. *)
Definition syncNodeInCanvas_sized (canvasFile noteFile : TFile)
  : Async (option string) :=
  parsed ← try_catch (data ← readCanvas canvasFile; mret (Some data))
                     (mret None);
  match parsed with
  | None => mret None
  | Some VNull => reject
  | Some (VBool _) | Some (VNum _) | Some (VStr _) | Some (VArr _) => mret None
  | Some (VObj canvasData) =>
      match nodes canvasData with
      | None => mret None
      | Some ns =>
          textContent ← extractNodeText_plain getFrontmatter noteFile;
          let '(width, height) := measureTextPrecisely textContent in
          let '(ns', upd, tid) :=
            syncNodes_sized noteFile textContent width height ns in
          (if upd
           then vault_modify canvasFile
                  (JSON_stringify (set_nodes ns' canvasData))
           else mret ());;
          mret tid
      end
  end.

Definition adjustGroupsInCanvas (canvasFile : TFile) : Async () :=
  try_catch
    (canvasData ← readCanvas canvasFile;
     match canvasData with
     | VNull => reject
     | VBool _ | VNum _ | VStr _ | VArr _ => mret ()
     | VObj canvasData =>
         match nodes canvasData with
         | None => mret ()
         | Some ns =>
             let '(ns', upd) := adjustNodes ns in
             if upd
             then vault_modify canvasFile
                    (JSON_stringify (set_nodes ns' canvasData));;
                  notice "已调整白板中的 Group 尺寸与对应卡片完全对齐"
             else notice "没有需要调整的 Group"
         end
     end)
    (console_error "";; notice "调整 Group 失败").

(** *** Navigation path resolver *)

Definition resolveFile (linkText : string) : option TFile :=
  if bool_decide (linkText = "") then None
  else getFirstLinkpathDest linkText "".

Definition getParentFile (file : TFile) : option TFile :=
  let upLinks :=
    parseLinks (default YAbsent (fm_up <$> getFrontmatter file)) in
  match upLinks with
  | firstLink :: _ =>
      if bool_decide (firstLink <> "") then resolveFile firstLink else None
  | [] => None
  end.

(** The [while] loop of [getBreadcrumbPath], run for at most [fuel]
    tests of its condition; [None] when they do not suffice. *)
Fixpoint climb (fuel : nat) (curr : option TFile) (seen : gset string)
         (trail : list TFile) : option (list TFile) :=
  match fuel with
  | O => None
  | S fuel' =>
      match curr with
      | None => Some trail
      | Some c =>
          if decide (path c ∈ seen) then Some trail
          else climb fuel' (getParentFile c) ({[ path c ]} ∪ seen) (c :: trail)
      end
  end.

Definition getBreadcrumbPath (fuel : nat) (currentFile : TFile)
  : option (list TFile) :=
  climb fuel (Some currentFile) ∅ [].

End WithHost.

End Engine.

(** ** A small vault to run the engine on *)

Module Demo.
Import Canvas Host.

Definition note : TFile := mkFile "note.md" "note" "md".
Definition target : TFile := mkFile "Q.md" "Q" "md".
Definition board : TFile := mkFile "board.canvas" "board" "canvas".

(** A cache that knows the description of note.md. *)
Definition frontmatter (f : TFile) : option Frontmatter :=
  if bool_decide (path f = "note.md")
  then Some (mkFrontmatter (YString "Summary text") YAbsent)
  else None.

(** A resolver that knows the link [Alias], which leads to Q.md. *)
Definition resolveAlias (linkpath sourcePath : string) : option TFile :=
  if bool_decide (linkpath = "Alias") then Some target else None.

(** A parser that knows the files of the table [known] and refuses every
    other text. *)
Definition parseKnown (known : list (string * CanvasData)) (text : string)
  : option JsValue :=
  (fun entry => VObj (snd entry))
    <$> List.find (fun entry => bool_decide (fst entry = text)) known.

Definition textNode (id text : string) : CanvasNode :=
  mkNode id "text" (Some text) None None 0 0 100 100 [].

Definition fileNode (id file : string) : CanvasNode :=
  mkNode id "file" None (Some file) None 0 0 100 100 [].

Definition canvasOf (ns : list CanvasNode) : CanvasData :=
  mkData (Some ns) None [].

Definition worldOf (files : list (string * string)) : World :=
  mkWorld (list_to_map files) ∅ [].

(** Two notes that name each other as parent. *)
Definition noteA : TFile := mkFile "A.md" "A" "md".
Definition noteB : TFile := mkFile "B.md" "B" "md".

Definition frontmatterAB (f : TFile) : option Frontmatter :=
  if bool_decide (path f = "A.md")
  then Some (mkFrontmatter YAbsent (YString "[[B]]"))
  else if bool_decide (path f = "B.md")
       then Some (mkFrontmatter YAbsent (YList [YString "[[A|the first]]"]))
       else None.

Definition resolveAB (linkpath sourcePath : string) : option TFile :=
  if bool_decide (linkpath = "A") then Some noteA
  else if bool_decide (linkpath = "B") then Some noteB
  else None.

(** A printer that shows identifier, type, text and label of every node
    of a canvas object, and of any other value its kind. *)
Definition printNodes (v : JsValue) : string :=
  match v with
  | VObj d =>
      foldr (fun n acc =>
               node_id n +:+ ":" +:+ node_type n +:+ ":" +:+ default "" (node_text n)
                       +:+ ":" +:+ default "" (node_label n) +:+ ";" +:+ acc)
            "" (default [] (nodes d))
  | VArr _ => "array"
  | VNull => "null"
  | _ => "scalar"
  end.

(** Every card measures 300 by 300. *)
Definition measure (text : string) : Q * Q := (300%Q, 300%Q).

(** An empty canvas, and one with a single card left of the origin. *)
Definition emptyCanvas : CanvasData := mkData None None [].
Definition leftCanvas : CanvasData :=
  canvasOf [mkNode "n1" "text" (Some "elsewhere") None None (-500) 40 100 60 []].

(** A canvas whose card of note.md shows an outdated text. *)
Definition staleCanvas : CanvasData :=
  canvasOf [textNode "n1" "# [[note|note]] old"].

(** A canvas whose frame of note.md is smaller than the card. *)
Definition looseFrame : CanvasNode :=
  mkNode "g1" "group" None None (Some "note") 0 0 10 10 [("color", JStr "1")].
Definition framedCanvas : CanvasData :=
  canvasOf [looseFrame; textNode "n1" "# [[note|note]]"].

(** The documents the two variants of [addToCanvas] make of the empty
    canvas for note.md, and a parser that knows them. *)
Definition cardText : string :=
  "# [[note|note]]" +:+ JsString.LF +:+ JsString.LF +:+ "Summary text".
Definition cardText_plain : string :=
  "# [[note]]" +:+ JsString.LF +:+ JsString.LF +:+ "Summary text".
Definition carded : CanvasData :=
  Engine.withNewCard measure note "id" "gid" cardText emptyCanvas.
Definition carded_plain : CanvasData :=
  Engine.withNewCard_plain measure "id" cardText_plain emptyCanvas.
Definition parseCarded : string -> option JsValue :=
  parseKnown [("c", emptyCanvas); (printNodes carded, carded);
              (printNodes carded_plain, carded_plain)].

(** A link hidden behind an unclosed opening bracket. *)
Definition shadowed : CanvasData :=
  canvasOf [textNode "n1" "[[x [[Alias|Display]]"].

(** A link next to a file card whose path spells the link. *)
Definition literal : CanvasData :=
  canvasOf [textNode "n1" "[[Alias|Display]]"; fileNode "n2" "Alias|Display"].

End Demo.

(** ** Navigation: neighbours, canvas discovery, the header *)

Module Navigation.
Import JsString Canvas Host CardText Engine.

(** The frontmatter object of a note with the further keys the navigation
    reads: [prev], [next], [canvas] and [banner]. *)
Record NoteFields : Type := mkFields {
  fm_core : Frontmatter;
  fm_prev : Yaml;
  fm_next : Yaml;
  fm_canvas : Yaml;
  fm_banner : Yaml
}.

Definition containsLink (field : Yaml) (targetBasename : string) : bool :=
  existsb (fun link =>
             if bool_decide (link = "") then false
             else let fileName := splitLast "/" link in
                  if bool_decide (fileName <> "")
                  then bool_decide (stripMd fileName = targetBasename)
                  else false)
          (parseLinks field).

(** [map.set(key, value)] on a [Map], kept as the list of its entries in
    insertion order: a key that is present keeps its place. *)
Fixpoint mapSet {V} (key : string) (value : V) (m : list (string * V))
  : list (string * V) :=
  match m with
  | [] => [(key, value)]
  | (k, v) :: rest =>
      if decide (k = key) then (key, value) :: rest
      else (k, v) :: mapSet key value rest
  end.

(** What [renderBreadcrumbsRow] puts into the row: an item with its text,
    its being the current one and the file a click opens, or a separator. *)
Inductive Crumb : Type :=
| Item (text : string) (current : bool) (target : option TFile)
| Separator.

Definition renderBreadcrumbsRow (path : list TFile) : list Crumb :=
  let displayPath :=
    if (3 <? length path)%nat then skipn (length path - 3) path else path in
  mjoin (imap (fun index file =>
                 let isLast := bool_decide (index = (length displayPath - 1)%nat) in
                 if isLast
                 then [Item (cleanName (basename file)) true None]
                 else [Item (cleanName (basename file)) false (Some file);
                       Separator])
              displayPath).

(** The header [renderView] leaves in a view: the rows it renders. *)
Record Header : Type := mkHeader {
  breadcrumbs : option (list Crumb);
  buttons : option (list TFile * list TFile)
}.

Section WithHost.
(** [this.app.metadataCache.getFileCache(file)?.frontmatter] *)
Variable getFields : TFile -> option NoteFields.
(** [this.app.metadataCache.getFirstLinkpathDest(linkpath, sourcePath)] *)
Variable getFirstLinkpathDest : string -> string -> option TFile.
(** [this.app.vault.getMarkdownFiles()] *)
Variable getMarkdownFiles : list TFile.

(** The same object, as the card reconciliation sees it. *)
Definition getFrontmatter (file : TFile) : option Frontmatter :=
  fm_core <$> getFields file.

(** [const f = this.resolveFile(link); if (f) m.set(f.path, f)] *)
Definition setResolved (m : list (string * TFile)) (link : string)
  : list (string * TFile) :=
  match resolveFile getFirstLinkpathDest link with
  | Some f => mapSet (path f) f m
  | None => m
  end.

(** The body of the loop of [getNeighbors] over all notes. *)
Definition backlinkStep (file : TFile)
           (acc : list (string * TFile) * list (string * TFile)) (f : TFile)
  : list (string * TFile) * list (string * TFile) :=
  if bool_decide (path f = path file) then acc
  else match getFields f with
       | None => acc
       | Some links =>
           (if truthy (fm_next links) && containsLink (fm_next links) (basename file)
            then mapSet (path f) f acc.1 else acc.1,
            if truthy (fm_prev links) && containsLink (fm_prev links) (basename file)
            then mapSet (path f) f acc.2 else acc.2)
       end.

Definition getNeighbors (file : TFile) : list TFile * list TFile :=
  let fm := getFields file in
  let prevs0 := match fm with
                | Some fm => foldl setResolved [] (parseLinks (fm_prev fm))
                | None => []
                end in
  let nexts0 := match fm with
                | Some fm => foldl setResolved [] (parseLinks (fm_next fm))
                | None => []
                end in
  let '(prevs, nexts) := foldl (backlinkStep file) (prevs0, nexts0) getMarkdownFiles in
  (snd <$> prevs, snd <$> nexts).

(** The canvases a note names under [canvas]: the links that resolve to a
    file with the extension [canvas]. *)
Definition canvasesOf (fm : option NoteFields) : list TFile :=
  omap (fun link =>
          match resolveFile getFirstLinkpathDest link with
          | Some f => if bool_decide (extension f = "canvas") then Some f else None
          | None => None
          end)
       (parseLinks (default YAbsent (fm_canvas <$> fm))).

(** The [forEach] over [upLinks]: a parent not yet visited is marked and
    queued. *)
Definition enqueueParent (st : gset string * list TFile) (link : string)
  : gset string * list TFile :=
  match resolveFile getFirstLinkpathDest link with
  | Some parent =>
      if decide (path parent ∈ st.1) then st
      else ({[ path parent ]} ∪ st.1, st.2 ++ [parent])
  | None => st
  end.

(** The [while] loop of [findPotentialCanvases], run for at most [fuel]
    tests of its condition. *)
Fixpoint search (fuel : nat) (queue : list TFile) (visited : gset string)
         (potentials : list TFile) : option (list TFile) :=
  match fuel with
  | O => None
  | S fuel' =>
      match queue with
      | [] => Some potentials
      | curr :: rest =>
          let fm := getFields curr in
          let upLinks := parseLinks (default YAbsent (fm_up <$> (fm_core <$> fm))) in
          let '(visited', queue') := foldl enqueueParent (visited, rest) upLinks in
          search fuel' queue' visited' (potentials ++ canvasesOf fm)
      end
  end.

Definition findPotentialCanvases (fuel : nat) (startFile : TFile)
  : option (list TFile) :=
  search fuel [startFile] {[ path startFile ]} [].

(** [renderView] for the file of a view: [None] where the header is
    removed, the rendered rows otherwise; the outer [option] is the fuel of
    [getBreadcrumbPath]. *)
Definition renderView (enableNav : bool) (fuel : nat) (file : TFile)
  : option (option Header) :=
  if negb enableNav
     || match getFields file with
        | Some fm => truthy (fm_banner fm)
        | None => false
        end
  then Some None
  else
    breadcrumbPath ← getBreadcrumbPath getFrontmatter getFirstLinkpathDest fuel file;
    let '(prevs, nexts) := getNeighbors file in
    let showBreadcrumbs := (1 <? length breadcrumbPath)%nat in
    let showButtons := (0 <? length prevs)%nat || (0 <? length nexts)%nat in
    if negb showBreadcrumbs && negb showButtons then Some None
    else Some (Some (mkHeader
                       (if showBreadcrumbs
                        then Some (renderBreadcrumbsRow breadcrumbPath) else None)
                       (if showButtons then Some (prevs, nexts) else None))).

End WithHost.

End Navigation.

(** ** Keeping the index and the canvases up to date *)

Module Maintenance.
Import Canvas Host CardText Engine Navigation.

(** The two kinds of entry of the reference dialog. *)
Inductive RefType : Type := existing | potential.

Section WithHost.
(** [this.app.metadataCache.getFileCache(file)?.frontmatter] *)
Variable getFields : TFile -> option NoteFields.
(** [this.app.metadataCache.getFirstLinkpathDest(linkpath, sourcePath)] *)
Variable getFirstLinkpathDest : string -> string -> option TFile.
(** [JSON.parse(text) as CanvasData]; [None] when it throws. *)
Variable JSON_parse : string -> option JsValue.
(** [JSON.stringify(data, null, "\t")] *)
Variable JSON_stringify : JsValue -> string.
(** [this.app.vault.getAbstractFileByPath(path)], where it is a [TFile] *)
Variable getAbstractFileByPath : string -> option TFile.
(** [this.canvasIndex.entries()]: the entries in the order of their
    insertion, which the index as a finite map does not record. *)
Variable entries : gmap string (gset string) -> list (string * gset string).
(** The identifier the random source hands out while the canvas at a path
    is synchronised. *)
Variable groupIdFor : string -> string.

(** [await Promise.all(batch.map(file => this.indexSingleCanvas(file)))]:
    every call reads its file and then, without a further [await], sets
    or deletes its own entry; the calls are run one after the other. *)
Definition indexBatch (batch : list TFile) : Async () :=
  foldr (fun file rest => indexSingleCanvas getFirstLinkpathDest JSON_parse file;; rest)
        (mret ()) batch.

(** The [for] loop of [buildCanvasIndex], from index [i] on: batches of
    [BATCH_SIZE = 5]. *)
Equations? indexFrom (canvasFiles : list TFile) (i : nat) : Async ()
  by wf (length canvasFiles - i) lt :=
  indexFrom canvasFiles i with decide (i < length canvasFiles) => {
    | left _ := indexBatch (firstn 5 (skipn i canvasFiles));;
                indexFrom canvasFiles (i + 5);
    | right _ := mret () }.
Proof. lia. Qed.

(** [buildCanvasIndex]; [getFiles] is [this.app.vault.getFiles()]. *)
Definition buildCanvasIndex (getFiles : list TFile) : Async () :=
  indexFrom (List.filter (fun f => bool_decide (extension f = "canvas")) getFiles) 0.

(** The body of the loop of [autoSyncToCanvases]. *)
Definition syncRelated (file : TFile) (canvasPath : string) : Async () :=
  try_catch
    (match getAbstractFileByPath canvasPath with
     | Some canvasFile =>
         syncNodeInCanvas (getFrontmatter getFields) JSON_parse JSON_stringify
                          canvasFile file (groupIdFor canvasPath);;
         mret ()
     | None => mret ()
     end)
    (console_error ("[BreadcrumbPlugin] Failed to auto-sync to canvas: "
                    +:+ canvasPath)).

Definition autoSyncToCanvases (file : TFile) : Async () :=
  fun w =>
    let relatedCanvases :=
      (List.filter (fun e : string * gset string => bool_decide (path file ∈ e.2))
                   (entries (canvasIndex w))).*1 in
    foldr (fun canvasPath rest => syncRelated file canvasPath;; rest)
          (mret ()) relatedCanvases w.

(** The listeners of [setupIndexListeners], for an argument that is a
    [TFile]. *)
Definition onModify (file : TFile) : Async () :=
  if bool_decide (extension file = "canvas")
  then indexSingleCanvas getFirstLinkpathDest JSON_parse file
  else if bool_decide (extension file = "md") then autoSyncToCanvases file
       else mret ().

Definition onDelete (file : TFile) : Async () :=
  if bool_decide (extension file = "canvas") then index_delete (path file)
  else mret ().

Definition onRename (file : TFile) (oldPath : string) : Async () :=
  if bool_decide (extension file = "canvas")
  then index_delete oldPath;;
       indexSingleCanvas getFirstLinkpathDest JSON_parse file
  else mret ().

(** The first loop of [scanCanvasFiles]: the canvases the index knows to
    refer to the note. *)
Definition existingResults (targetFile : TFile) (w : World)
  : list (string * (TFile * RefType)) :=
  foldl (fun resultMap (e : string * gset string) =>
           if bool_decide (path targetFile ∈ e.2)
           then match getAbstractFileByPath e.1 with
                | Some canvasFile => mapSet e.1 (canvasFile, existing) resultMap
                | None => resultMap
                end
           else resultMap)
        [] (entries (canvasIndex w)).

(** The second loop: the potential canvases not yet in the map. *)
Definition addPotentials (potentialCanvases : list TFile)
           (resultMap : list (string * (TFile * RefType)))
  : list (string * (TFile * RefType)) :=
  foldl (fun resultMap canvas =>
           if bool_decide (path canvas ∈ resultMap.*1) then resultMap
           else mapSet (path canvas) (canvas, potential) resultMap)
        resultMap potentialCanvases.

(** [scanCanvasFiles]: the entries handed to the dialog; without any, a
    notice is shown instead. The outer [option] is the fuel of
    [findPotentialCanvases]. *)
Definition scanCanvasFiles (fuel : nat) (targetFile : TFile) (w : World)
  : option (list (TFile * RefType) * World) :=
  potentialCanvases ← findPotentialCanvases getFields getFirstLinkpathDest
                                            fuel targetFile;
  let results :=
    (addPotentials potentialCanvases (existingResults targetFile w)).*2 in
  Some (results,
        if bool_decide (results = [])
        then logged (Noticed "未找到现有引用或潜在的白板关联。") w
        else w).

End WithHost.

End Maintenance.

(** ** Measuring a card *)

Module Measure.

(** [CARD_MIN_WIDTH] and [CARD_MAX_WIDTH], in pixels. *)
Definition CARD_MIN_WIDTH : Z := 260.
Definition CARD_MAX_WIDTH : Z := 1200.

(** The variables of the bisection; [bestDiff] is [None] while it is
    [Infinity]. *)
Record Search : Type := mkSearch {
  low : Z;
  high : Z;
  bestWidth : Z;
  bestDiff : option Z
}.

Section WithLayout.
(** [Math.ceil(h1.getBoundingClientRect().width)] of the title kept on one
    line, where the rendered text has an [h1]. *)
Variable titleRect : string -> option Z.
(** [Math.ceil] of the width and height of
    [nodeContent.getBoundingClientRect()] once the content of the text is
    laid out with [width: <w>px]. *)
Variable rectAt : string -> Z -> Z * Z.

(** One round of the [for] loop. *)
Definition probe (text : string) (s : Search) : Search :=
  let mid := ((low s + high s) / 2)%Z in
  let h := (rectAt text mid).2 in
  let diff := Z.abs (mid - h) in
  let better := match bestDiff s with
                | None => true
                | Some d => (diff <? d)%Z
                end in
  mkSearch (if (mid <? h)%Z then (mid + 1)%Z else low s)
           (if (mid <? h)%Z then high s else (mid - 1)%Z)
           (if better then mid else bestWidth s)
           (if better then Some diff else bestDiff s).

Definition minWidthOf (text : string) : Z :=
  let titleWidth := match titleRect text with
                    | Some w => (w + 80)%Z
                    | None => 0%Z
                    end in
  Z.max CARD_MIN_WIDTH titleWidth.

Definition maxWidthOf (text : string) : Z :=
  Z.max CARD_MAX_WIDTH (minWidthOf text * 2).

(** The state after the ten rounds. *)
Definition bisect (text : string) : Search :=
  Nat.iter 10 (probe text)
           (mkSearch (minWidthOf text) (maxWidthOf text) (minWidthOf text) None).

Definition measureTextPrecisely (text : string) : Z * Z :=
  let finalRect := rectAt text (bestWidth (bisect text)) in
  let finalWidth := (finalRect.1 + 40)%Z in
  let finalHeight := (finalRect.2 + 50)%Z in
  let squareSide := Z.max finalWidth finalHeight in
  (squareSide, squareSide).

End WithLayout.

End Measure.

(** ** Finding the card in an opened canvas *)

Module Zoom.
Import JsString Canvas.

(** A node of an opened canvas view, as far as the search reads it. *)
Record ViewNode : Type := mkViewNode {
  vn_filePath : option string;
  vn_text : option string
}.

(** The two ways [tryZoomToNode] is called: with an identifier and
    [isId = true], or with the note and [isId = false]. *)
Inductive Target : Type :=
| ById (id : string)
| ByFile (file : TFile).

(** What a round of the polling does besides counting. *)
Inductive Tick : Type :=
| Wait
| Zoom (node : ViewNode)
| GiveUp.

(** [node.filePath && node.filePath === target.path], or else
    [node.text && node.text.includes(target.basename)] *)
Definition matchesFile (file : TFile) (node : ViewNode) : bool :=
  match vn_filePath node with
  | Some p => bool_decide (p <> "") && bool_decide (p = path file)
  | None => false
  end
  || match vn_text node with
     | Some t => bool_decide (t <> "") && includes t (basename file)
     | None => false
     end.

(** The search of one round in [canvas.nodes], a [Map] kept as the list
    of its entries. *)
Definition findNode (target : Target) (nodes : list (string * ViewNode))
  : option ViewNode :=
  match target with
  | ById id => snd <$> List.find (fun e => bool_decide (e.1 = id)) nodes
  | ByFile file => List.find (matchesFile file) (snd <$> nodes)
  end.

(** The callback of [setInterval]: the counter after the round and what
    the round does; [canvas] is [view.canvas] at that time. *)
Definition pollTick (target : Target) (attempts : nat)
           (canvas : option (list (string * ViewNode))) : nat * Tick :=
  let attempts := S attempts in
  match canvas with
  | None => (attempts, Wait)
  | Some nodes =>
      match findNode target nodes with
      | Some node => (attempts, Zoom node)
      | None => if (30 <=? attempts)%nat then (attempts, GiveUp)
                else (attempts, Wait)
      end
  end.

(** The rounds from round [now] on, [fuel] of them at most, over the
    states [view] of the canvas at each round: the round at which the
    interval is cleared, and how. *)
Fixpoint poll (target : Target) (view : nat -> option (list (string * ViewNode)))
         (fuel now attempts : nat) : option (nat * Tick) :=
  match fuel with
  | O => None
  | S fuel' =>
      match pollTick target attempts (view now) with
      | (attempts', Wait) => poll target view fuel' (S now) attempts'
      | (_, outcome) => Some (now, outcome)
      end
  end.

(** [tryZoomToNode], watched for [fuel] rounds. *)
Definition tryZoomToNode (target : Target)
           (view : nat -> option (list (string * ViewNode))) (fuel : nat)
  : option (nat * Tick) :=
  poll target view fuel 0 0.

End Zoom.

(** Notes for the navigation: A and B name each other as parent, A names
    B as the next note and a canvas of its own. *)

Module DemoNav.
Import Canvas Host Navigation.

Definition fields (f : TFile) : option NoteFields :=
  if bool_decide (path f = "A.md")
  then Some (mkFields (mkFrontmatter YAbsent (YString "[[B]]"))
                      YAbsent (YString "[[B]]") (YString "[[board.canvas]]")
                      YAbsent)
  else if bool_decide (path f = "B.md")
       then Some (mkFields (mkFrontmatter YAbsent (YList [YString "[[A|the first]]"]))
                           YAbsent YAbsent YAbsent YAbsent)
       else None.

Definition resolve (linkpath sourcePath : string) : option TFile :=
  if bool_decide (linkpath = "A") then Some Demo.noteA
  else if bool_decide (linkpath = "B") then Some Demo.noteB
  else if bool_decide (linkpath = "board.canvas") then Some Demo.board
  else None.

(** A vault whose only canvas is board.canvas, which the index knows to
    refer to A.md. *)
Definition fileAt (p : string) : option TFile :=
  if bool_decide (p = "board.canvas") then Some Demo.board else None.

Definition indexed : World :=
  mkWorld (list_to_map [("board.canvas", "c")])
          {[ "board.canvas" := {[ "A.md" ]} ]} [].

End DemoNav.

(** * Properties *)

(** ** Strings *)

Module StringFacts.
Import JsString.

Lemma app_String c a b : String c a +:+ b = String c (a +:+ b).
Proof. reflexivity. Qed.

Lemma string_app_assoc a b c : (a +:+ b) +:+ c = a +:+ (b +:+ c).
Proof. induction a as [|x a IH]; [done|]. rewrite !app_String. by f_equal. Qed.

Lemma app_empty_l s : "" +:+ s = s.
Proof. reflexivity. Qed.

Lemma app_empty_r s : s +:+ "" = s.
Proof. induction s as [|c s IH]; [done|]. rewrite app_String. by f_equal. Qed.

Lemma length_app a b :
  String.length (a +:+ b) = (String.length a + String.length b)%nat.
Proof. induction a as [|c a IH]; [done|]. rewrite app_String. cbn. by rewrite IH. Qed.

Lemma drop_app_length a b : drop (String.length a) (a +:+ b) = b.
Proof. induction a as [|x a IH]; [by destruct b|]. done. Qed.

Lemma drop_app n a b :
  n <= String.length a -> drop n (a +:+ b) = drop n a +:+ b.
Proof.
  revert a. induction n as [|n IH]; intros [|c a] H; cbn in *; try done; try lia.
  rewrite app_String. cbn. apply IH. lia.
Qed.

Lemma drop_length n s : String.length (drop n s) <= String.length s.
Proof.
  revert s. induction n as [|n IH]; intros [|c s]; cbn; try lia.
  specialize (IH s). lia.
Qed.

Lemma drop_drop n m s : drop n (drop m s) = drop (m + n) s.
Proof.
  revert s. induction m as [|m IH]; intros s; [done|].
  destruct s as [|c s]; cbn; [by destruct n|]. apply IH.
Qed.

Lemma startsWith_app p s : startsWith (p +:+ s) p = true.
Proof.
  induction p as [|c p IH]; [done|]. rewrite app_String. cbn.
  by rewrite decide_True.
Qed.

Lemma startsWith_cons s c p :
  startsWith s (String c p) = true -> exists s', s = String c s' /\ startsWith s' p = true.
Proof.
  destruct s as [|d s]; cbn; [done|].
  destruct (decide (c = d)) as [<-|]; [|done]. intros H. by exists s.
Qed.

Lemma startsWith_split s p : startsWith s p = true -> exists r, s = p +:+ r.
Proof.
  revert s. induction p as [|c p IH]; intros s; [by exists s|].
  intros (s' & -> & H)%startsWith_cons. destruct (IH _ H) as [r ->]. by exists r.
Qed.

Lemma startsWith_app_l s a b : startsWith s (a +:+ b) = true -> startsWith s a = true.
Proof.
  revert s. induction a as [|c a IH]; intros s; [done|].
  rewrite app_String. destruct s as [|d s]; cbn; [done|].
  destruct (decide (c = d)); [apply IH|done].
Qed.

Lemma startsWith_mono a b p : startsWith a p = true -> startsWith (a +:+ b) p = true.
Proof.
  intros [r ->]%startsWith_split. rewrite string_app_assoc. apply startsWith_app.
Qed.

Lemma startsWith_drop s p : startsWith s p = true -> s = p +:+ drop (String.length p) s.
Proof. intros [r ->]%startsWith_split. by rewrite drop_app_length. Qed.

Lemma includes_here s p : startsWith s p = true -> includes s p = true.
Proof. intros H. destruct s; cbn; by rewrite H. Qed.

Lemma includes_cons c s p : includes s p = true -> includes (String c s) p = true.
Proof. intros H. cbn [includes]. rewrite H. apply orb_true_r. Qed.

Lemma includes_app_r a s p : includes s p = true -> includes (a +:+ s) p = true.
Proof.
  intros H. induction a as [|c a IH]; [done|].
  rewrite app_String. by apply includes_cons.
Qed.

Lemma includes_mono a b p : includes a p = true -> includes (a +:+ b) p = true.
Proof.
  induction a as [|c a IH]; cbn [includes].
  - rewrite orb_false_r. intros H. by apply includes_here, (startsWith_mono "").
  - intros [H|H]%orb_true_iff; rewrite app_String.
    + by apply includes_here, (startsWith_mono (String c a)).
    + by apply includes_cons, IH.
Qed.

Lemma includes_infix a p b : includes (a +:+ p +:+ b) p = true.
Proof. apply includes_app_r, includes_here, startsWith_app. Qed.

Lemma includes_prefix s a b : includes s (a +:+ b) = true -> includes s a = true.
Proof.
  induction s as [|c s IH]; cbn [includes].
  - rewrite !orb_false_r. apply startsWith_app_l.
  - intros [H|H]%orb_true_iff.
    + apply startsWith_app_l in H. by rewrite H.
    + rewrite IH by done. apply orb_true_r.
Qed.

Lemma includes_suffix s a b : includes s (a +:+ b) = true -> includes s b = true.
Proof.
  revert s. induction a as [|c a IH]; intros s; [done|]. rewrite app_String.
  induction s as [|d s IHs]; cbn [includes].
  - by cbn.
  - intros [H|H]%orb_true_iff.
    + apply startsWith_cons in H as (s' & [= <- <-] & H).
      apply includes_cons, IH, includes_here, H.
    + by apply includes_cons, IHs.
Qed.

Lemma includes_drop n s p : includes (drop n s) p = true -> includes s p = true.
Proof.
  revert s. induction n as [|n IH]; intros [|c s]; cbn [drop]; try done.
  intros H. by apply includes_cons, IH.
Qed.

Lemma hasChar_app sep a b : hasChar sep (a +:+ b) = hasChar sep a || hasChar sep b.
Proof.
  induction a as [|c a IH]; [done|]. rewrite app_String. cbn.
  by destruct (decide (c = sep)).
Qed.

Lemma hasChar_includes c s : hasChar c s = false -> forall p, includes s (String c p) = false.
Proof.
  induction s as [|d s IH]; intros H p; [done|]. cbn in H.
  destruct (decide (d = c)) as [|Hd]; [done|].
  cbn [includes startsWith]. rewrite decide_False by done. by apply IH.
Qed.

Lemma allChars_app p a b :
  allChars p (a +:+ b) = allChars p a && allChars p b.
Proof.
  induction a as [|c a IH]; [done|]. rewrite app_String. cbn.
  by rewrite IH, andb_assoc.
Qed.

Lemma existsb_false {A} (f : A -> bool) l :
  existsb f l = false <-> forall x, x ∈ l -> f x = false.
Proof.
  induction l as [|a l IH]; cbn.
  - split; [|done]. intros _ x Hx. by apply elem_of_nil in Hx.
  - rewrite orb_false_iff, IH. split.
    + intros [Ha Hl] x [->|Hx]%elem_of_cons; [done|by apply Hl].
    + intros H. split; [apply H, list_elem_of_here|].
      intros x Hx. by apply H, list_elem_of_further.
Qed.

(** *** Line terminators *)

Lemma lineTerminator_cases t :
  t ∈ lineTerminators -> t = LF \/ t = CR \/ t = LS \/ t = PS.
Proof.
  unfold lineTerminators. rewrite !elem_of_cons, elem_of_nil. tauto.
Qed.

Lemma atLineTerminator_false s :
  atLineTerminator s = false <-> forall t, t ∈ lineTerminators -> startsWith s t = false.
Proof. apply existsb_false. Qed.

Lemma oneLine_true s :
  oneLine s = true <-> forall t, t ∈ lineTerminators -> includes s t = false.
Proof. unfold oneLine. rewrite negb_true_iff. apply existsb_false. Qed.

Lemma atLineTerminator_app t s : t ∈ lineTerminators -> atLineTerminator (t +:+ s) = true.
Proof.
  intros Ht. unfold atLineTerminator. apply existsb_exists. exists t.
  split; [by apply list_elem_of_In|apply startsWith_app].
Qed.

Lemma oneLine_head s : oneLine s = true -> atLineTerminator s = false.
Proof.
  rewrite oneLine_true, atLineTerminator_false. intros H t Ht.
  specialize (H t Ht). destruct (startsWith s t) eqn:Hs; [|done].
  apply includes_here in Hs. congruence.
Qed.

Lemma oneLine_tail c s : oneLine (String c s) = true -> oneLine s = true.
Proof.
  rewrite !oneLine_true. intros H t Ht. specialize (H t Ht).
  destruct (includes s t) eqn:Hs; [|done]. apply (includes_cons c) in Hs. congruence.
Qed.

Lemma oneLine_app_inv a b : oneLine (a +:+ b) = true -> oneLine a = true /\ oneLine b = true.
Proof.
  rewrite !oneLine_true. intros H. split; intros t Ht; specialize (H t Ht).
  - destruct (includes a t) eqn:Hs; [|done]. apply (includes_mono a b) in Hs. congruence.
  - destruct (includes b t) eqn:Hs; [|done]. apply (includes_app_r a) in Hs. congruence.
Qed.

(** No line terminator holds a bar or a bracket: whether one stands at the
    head of a text does not depend on a bar or bracket behind the text. *)
Lemma startsWith_terminator_app a x r t :
  t ∈ lineTerminators -> a <> "" -> (x = "|"%char \/ x = "]"%char) ->
  startsWith (a +:+ String x r) t = startsWith a t.
Proof.
  intros Ht Ha Hx.
  destruct a as [|c [|d [|e a]]]; [done|..];
    apply lineTerminator_cases in Ht as [->|[->|[->| ->]]];
    rewrite ?app_String, ?app_empty_l; cbn; repeat case_decide; subst; try done;
    by destruct Hx.
Qed.

Lemma atLineTerminator_app_ascii a x r :
  a <> "" -> (x = "|"%char \/ x = "]"%char) ->
  atLineTerminator (a +:+ String x r) = atLineTerminator a.
Proof.
  intros Ha Hx. unfold atLineTerminator, lineTerminators. cbn [existsb].
  by rewrite !startsWith_terminator_app by (done || set_solver).
Qed.

Lemma includes_terminator_app a x r t :
  t ∈ lineTerminators -> (x = "|"%char \/ x = "]"%char) ->
  includes (a +:+ String x r) t = includes a t || includes (String x r) t.
Proof.
  intros Ht Hx. induction a as [|c a IH].
  - cbn [includes]. 
    assert (startsWith "" t = false) as ->; [|done].
    by apply lineTerminator_cases in Ht as [->|[->|[->| ->]]].
  - rewrite app_String. cbn [includes]. rewrite <- app_String.
    rewrite startsWith_terminator_app by done.
    by rewrite IH, orb_assoc.
Qed.

Lemma oneLine_app_ascii a x r :
  (x = "|"%char \/ x = "]"%char) ->
  oneLine a = true -> oneLine (String x r) = true -> oneLine (a +:+ String x r) = true.
Proof.
  rewrite !oneLine_true. intros Hx Ha Hr t Ht.
  by rewrite includes_terminator_app, Ha, Hr.
Qed.

Lemma oneLine_cons_ascii x r :
  (x = "|"%char \/ x = "]"%char) ->
  oneLine r = true -> oneLine (String x r) = true.
Proof.
  rewrite !oneLine_true. intros Hx Hr t Ht. cbn [includes].
  rewrite (Hr t Ht), orb_false_r.
  apply lineTerminator_cases in Ht as [->|[->|[->| ->]]]; cbn;
    case_decide; subst; try done; by destruct Hx.
Qed.

(** *** Blanks and trimming *)

Lemma headOf_Some class s b :
  headOf class s = Some b -> b ∈ class /\ startsWith s b = true.
Proof.
  unfold headOf. intros [H1 H2]%find_some. split; [by apply list_elem_of_In|done].
Qed.

Lemma headOf_None class s b :
  headOf class s = None -> b ∈ class -> startsWith s b = false.
Proof.
  unfold headOf. intros H Hb%list_elem_of_In.
  exact (find_none _ _ H _ Hb).
Qed.

(** No blank is the head of another one. *)
Lemma blanks_prefix_free a b :
  a ∈ blanks -> b ∈ blanks -> startsWith a b = true -> a = b.
Proof.
  intros Ha Hb.
  assert (forallb (fun x => forallb (fun y =>
            implb (startsWith x y) (bool_decide (x = y))) blanks) blanks = true)
    as Hall by reflexivity.
  rewrite forallb_forall in Hall. apply list_elem_of_In, Hall in Ha.
  rewrite forallb_forall in Ha. apply list_elem_of_In, Ha in Hb.
  destruct (startsWith a b); [|done]. intros _. by apply bool_decide_eq_true in Hb.
Qed.

Lemma blanks_nonempty b : b ∈ blanks -> b <> "".
Proof.
  intros Hb ->.
  assert (forallb (fun x => negb (bool_decide (x = ""))) blanks = true)
    as Hall by reflexivity.
  rewrite forallb_forall in Hall. by apply list_elem_of_In, Hall in Hb.
Qed.

(** Two heads of one string: one is the head of the other. *)
Lemma startsWith_both s a b :
  startsWith s a = true -> startsWith s b = true ->
  startsWith a b = true \/ startsWith b a = true.
Proof.
  revert a b. induction s as [|c s IH]; intros [|x a] [|y b]; cbn; auto; try done.
  destruct (decide (x = c)) as [->|]; [|done].
  destruct (decide (y = c)) as [->|]; [|done].
  rewrite !decide_True by done. apply IH.
Qed.

(** The blank at the head of a string is the only one. *)
Lemma headOf_blanks_unique s b :
  b ∈ blanks -> startsWith s b = true -> headOf blanks s = Some b.
Proof.
  intros Hb Hs. destruct (headOf blanks s) as [b'|] eqn:Hh.
  - apply headOf_Some in Hh as [Hb' Hs'].
    destruct (startsWith_both _ _ _ Hs Hs') as [H|H].
    + by rewrite (blanks_prefix_free _ _ Hb Hb' H).
    + by rewrite (blanks_prefix_free _ _ Hb' Hb H).
  - by rewrite (headOf_None _ _ _ Hh Hb) in Hs.
Qed.

Lemma headOf_app s v b : headOf blanks s = Some b -> headOf blanks (s +:+ v) = Some b.
Proof.
  intros [Hb Hs]%headOf_Some. apply headOf_blanks_unique; [done|].
  by apply startsWith_mono.
Qed.

Lemma trimStart_stop s : headOf blanks s = None -> trimStart s = s.
Proof. destruct s as [|c s]; [done|]. intros H. simp trimStart. by rewrite H. Qed.

Lemma trimStart_step s b :
  headOf blanks s = Some b -> trimStart s = trimStart (drop (String.length b) s).
Proof.
  destruct s as [|c s]; [done|]. intros H. simp trimStart. rewrite H. cbn.
  apply headOf_Some in H as [Hb%blanks_nonempty _].
  destruct b as [|x b]; [done|]. cbn. by rewrite Nat.sub_0_r.
Qed.

Lemma trimStart_blank b s : b ∈ blanks -> trimStart (b +:+ s) = trimStart s.
Proof.
  intros Hb.
  rewrite (trimStart_step _ b) by (apply headOf_blanks_unique; [done|apply startsWith_app]).
  by rewrite drop_app_length.
Qed.

(** What [trimStart] keeps begins with no blank. *)
Lemma trimStart_head s : headOf blanks (trimStart s) = None.
Proof.
  remember (String.length s) as n eqn:Hn. revert s Hn.
  induction (lt_wf n) as [n _ IH]. intros s ->.
  destruct (headOf blanks s) as [b|] eqn:Hh.
  - rewrite (trimStart_step _ _ Hh).
    apply headOf_Some in Hh as [Hb Hs].
    apply (IH (String.length (drop (String.length b) s))); [|done].
    rewrite (startsWith_drop _ _ Hs) at 2. rewrite length_app.
    apply blanks_nonempty in Hb. destruct b; [done|]. cbn. lia.
  - by rewrite trimStart_stop.
Qed.

Lemma trimStart_idem s : trimStart (trimStart s) = trimStart s.
Proof. apply trimStart_stop, trimStart_head. Qed.

(** [trimStart] drops a run of blanks. *)
Lemma trimStart_split s :
  exists bs, s = foldr String.append "" bs +:+ trimStart s /\ Forall (fun b => b ∈ blanks) bs.
Proof.
  remember (String.length s) as n eqn:Hn. revert s Hn.
  induction (lt_wf n) as [n _ IH]. intros s ->.
  destruct (headOf blanks s) as [b|] eqn:Hh.
  - rewrite (trimStart_step _ _ Hh).
    apply headOf_Some in Hh as [Hb Hs].
    assert (String.length (drop (String.length b) s) < String.length s) as Hlt.
    { rewrite (startsWith_drop _ _ Hs) at 2. rewrite length_app.
      apply blanks_nonempty in Hb. destruct b; [done|]. cbn. lia. }
    destruct (IH _ Hlt _ eq_refl) as (bs & Heq & Hbs).
    exists (b :: bs). split; [|by constructor].
    cbn [foldr]. rewrite string_app_assoc, <- Heq. by apply startsWith_drop.
  - exists []. by rewrite trimStart_stop.
Qed.

Lemma trimStart_run bs s :
  Forall (fun b => b ∈ blanks) bs -> trimStart (foldr String.append "" bs +:+ s) = trimStart s.
Proof.
  induction 1 as [|b bs Hb _ IH]; [done|].
  cbn [foldr]. by rewrite string_app_assoc, trimStart_blank.
Qed.

Lemma allBlank_app a b : allBlank a = true -> allBlank b = true -> allBlank (a +:+ b) = true.
Proof.
  unfold allBlank. intros Ha%bool_decide_eq_true Hb%bool_decide_eq_true.
  apply bool_decide_eq_true.
  destruct (trimStart_split a) as (bs & Heq & Hbs). rewrite Ha, app_empty_r in Heq.
  by rewrite Heq, trimStart_run.
Qed.

(** [trimEnd] drops a tail of blanks. *)
Lemma trimEnd_split s : exists tail, s = trimEnd s +:+ tail /\ allBlank tail = true.
Proof.
  induction s as [|c s (tail & Heq & Htail)]; [by exists ""|].
  cbn [trimEnd]. destruct (allBlank (String c s)) eqn:Hc; [by exists (String c s)|].
  exists tail. by rewrite app_String, <- Heq.
Qed.

Lemma trimEnd_idem s : trimEnd (trimEnd s) = trimEnd s.
Proof.
  induction s as [|c s IH]; [done|]. cbn [trimEnd].
  destruct (allBlank (String c s)) eqn:Hc; [done|].
  cbn [trimEnd]. rewrite IH.
  destruct (allBlank (String c (trimEnd s))) eqn:Hc'; [|done].
  destruct (trimEnd_split s) as (tail & Heq & Htail).
  pose proof (allBlank_app _ _ Hc' Htail) as H.
  rewrite app_String, <- Heq in H. congruence.
Qed.

Lemma trimStart_trimEnd s :
  headOf blanks s = None -> trimStart (trimEnd s) = trimEnd s.
Proof.
  intros Hs. apply trimStart_stop.
  destruct (headOf blanks (trimEnd s)) as [b|] eqn:Hh; [|done].
  destruct (trimEnd_split s) as (tail & Heq & _).
  apply (headOf_app _ tail) in Hh. rewrite <- Heq in Hh. congruence.
Qed.

Lemma trim_idem s : trim (trim s) = trim s.
Proof.
  unfold trim. rewrite trimStart_trimEnd by apply trimStart_head.
  apply trimEnd_idem.
Qed.

End StringFacts.

(** ** Link extractor *)

Module LinkExtractorFacts.
Import JsString LinkExtractor.
Export StringFacts.

Lemma matchAll_miss c s :
  matchHere (String c s) = None -> matchAll (String c s) = matchAll s.
Proof. intros H. simp matchAll. by rewrite H. Qed.

Lemma matchAll_hit c s cap :
  matchHere (String c s) = Some cap ->
  matchAll (String c s) = cap :: matchAll (drop (String.length cap + 3) s).
Proof. intros H. simp matchAll. by rewrite H. Qed.

Lemma matchHere_char c s : c <> "["%char -> matchHere (String c s) = None.
Proof. intros Hc. destruct c as [[] [] [] [] [] [] [] []]; done. Qed.

Lemma matchHere_bracket c s :
  c <> "["%char -> matchHere (String "[" (String c s)) = None.
Proof. intros Hc. destruct c as [[] [] [] [] [] [] [] []]; done. Qed.

Lemma matchAll_char c s : c <> "["%char -> matchAll (String c s) = matchAll s.
Proof. intros Hc. by apply matchAll_miss, matchHere_char. Qed.

Lemma matchAll_bracket c s :
  c <> "["%char -> matchAll (String "[" (String c s)) = matchAll s.
Proof.
  intros Hc. rewrite matchAll_miss by by apply matchHere_bracket.
  by apply matchAll_char.
Qed.

(** What the lazy group captures stands in the text, closed by ["]]"],
    and holds no line terminator. *)
Lemma lazyCapture_Some s cap :
  lazyCapture s = Some cap ->
  startsWith s (cap +:+ "]]") = true /\ oneLine cap = true.
Proof.
  revert cap. induction s as [|c s IH]; intros cap; [done|].
  cbn [lazyCapture].
  destruct (startsWith (String c s) "]]") eqn:Hclose.
  { by intros [= <-]. }
  destruct (atLineTerminator (String c s)) eqn:Hlt; [done|].
  destruct (lazyCapture s) as [cap'|]; [|done].
  intros [= <-]. destruct (IH cap' eq_refl) as [Hpre Hall].
  rewrite app_String. cbn [startsWith]. rewrite decide_True by done.
  split; [done|].
  apply oneLine_true. intros t Ht. cbn [includes].
  rewrite (proj1 (oneLine_true cap') Hall t Ht), orb_false_r.
  destruct (startsWith (String c cap') t) eqn:Hs; [|done].
  destruct (startsWith_split _ _ Hpre) as [r Hr].
  apply (startsWith_mono _ ("]]" +:+ r)) in Hs.
  replace (String c cap' +:+ "]]" +:+ r) with (String c s) in Hs.
  2: { rewrite Hr, app_String. f_equal. by rewrite string_app_assoc. }
  by rewrite (proj1 (atLineTerminator_false _) Hlt t Ht) in Hs.
Qed.

Lemma startsWith_close_app c a x r :
  x <> "]"%char -> startsWith (String c a) "]]" = false ->
  startsWith (String c (a +:+ String x r)) "]]" = false.
Proof.
  destruct a as [|d a]; rewrite ?app_String, ?app_empty_l; cbn;
    intros; repeat case_decide; subst; done.
Qed.

Lemma includes_head s p : includes s p = false -> startsWith s p = false.
Proof.
  intros H. destruct (startsWith s p) eqn:Hs; [|done].
  apply includes_here in Hs. congruence.
Qed.

Lemma includes_tail c s p : includes (String c s) p = false -> includes s p = false.
Proof.
  intros H. destruct (includes s p) eqn:Hs; [|done].
  apply (includes_cons c) in Hs. congruence.
Qed.

(** The lazy group runs through a text on one line without ["]]"] that a
    bar follows. *)
Lemma lazyCapture_bar a rest :
  oneLine a = true -> includes a "]]" = false ->
  lazyCapture (a +:+ "|" +:+ rest)
  = (fun r => a +:+ "|" +:+ r) <$> lazyCapture rest.
Proof.
  induction a as [|c a IH]; intros Hline Hclose.
  - rewrite !app_empty_l. change ("|" +:+ rest) with (String "|" rest).
    cbn [lazyCapture]. by destruct (lazyCapture rest).
  - rewrite app_String. cbn [lazyCapture].
    change ("|" +:+ rest) with (String "|" rest).
    rewrite startsWith_close_app by (done || by apply includes_head).
    rewrite <- app_String.
    rewrite atLineTerminator_app_ascii, (oneLine_head _ Hline) by (done || by left).
    change (String "|" rest) with ("|" +:+ rest).
    rewrite IH.
    + by destruct (lazyCapture rest).
    + by eapply oneLine_tail.
    + by eapply includes_tail.
Qed.

(** In front of ["]]"] it stops: at the end of a text on one line without
    ["]]"], or one character earlier when the text ends in a bracket. *)
Lemma lazyCapture_close a :
  oneLine a = true -> includes a "]]" = false ->
  exists cap,
    (a = cap \/ a = cap +:+ "]")
    /\ forall post, lazyCapture (a +:+ "]]" +:+ post) = Some cap.
Proof.
  induction a as [|c a IH]; intros Hline Hclose.
  - exists "". split; [by left|done].
  - destruct (decide (c = "]"%char /\ a = "")) as [[-> ->]|Hlast].
    { exists "". split; [by right|done]. }
    destruct IH as (cap & Hcap & IH).
    { by eapply oneLine_tail. }
    { by eapply includes_tail. }
    exists (String c cap). split.
    { destruct Hcap as [->| ->]; [by left|by right]. }
    intros post. rewrite app_String. cbn [lazyCapture].
    assert (startsWith (String c (a +:+ "]]" +:+ post)) "]]" = false) as ->.
    { apply includes_head in Hclose.
      destruct a as [|d a]; rewrite ?app_String, ?app_empty_l;
        cbn in *; repeat case_decide; subst; try done.
      by destruct Hlast. }
    rewrite <- app_String.
    change ("]]" +:+ post) with (String "]" ("]" +:+ post)).
    rewrite atLineTerminator_app_ascii, (oneLine_head _ Hline) by (done || by right).
    change (String "]" ("]" +:+ post)) with ("]]" +:+ post).
    by rewrite IH.
Qed.

(** A text on one line that ["]]"] follows is captured, at least in part. *)
Lemma lazyCapture_oneLine d post :
  oneLine d = true -> is_Some (lazyCapture (d +:+ "]]" +:+ post)).
Proof.
  induction d as [|c d IH]; intros Hline; [done|].
  rewrite app_String. cbn [lazyCapture].
  destruct (startsWith _ "]]"); [done|].
  rewrite <- app_String.
  change ("]]" +:+ post) with (String "]" ("]" +:+ post)).
  rewrite atLineTerminator_app_ascii, (oneLine_head _ Hline) by (done || by right).
  change (String "]" ("]" +:+ post)) with ("]]" +:+ post).
  destruct IH as [cap ->]; [by eapply oneLine_tail|done].
Qed.

(** A link on one line without ["]]"] inside is one match, and the scan
    resumes behind it. *)
Lemma matchAll_closed cap :
  oneLine cap = true -> includes cap "]]" = false ->
  exists cap',
    (cap = cap' \/ cap = cap' +:+ "]")
    /\ forall post,
        matchAll ("[[" +:+ cap +:+ "]]" +:+ post) = cap' :: matchAll post.
Proof.
  intros Hline Hclose.
  destruct (lazyCapture_close cap Hline Hclose) as (cap' & Hor & Hcap).
  exists cap'. split; [done|]. intros post.
  change ("[[" +:+ cap +:+ "]]" +:+ post)
    with (String "[" (String "[" (cap +:+ "]]" +:+ post))).
  rewrite (matchAll_hit _ _ cap') by apply Hcap. f_equal.
  replace (String.length cap' + 3)%nat with (S (String.length cap' + 2)) by lia.
  cbn [drop]. destruct Hor as [->| ->].
  - replace (cap' +:+ "]]" +:+ post) with ((cap' +:+ "]]") +:+ post)
      by apply string_app_assoc.
    replace (String.length cap' + 2)%nat with (String.length (cap' +:+ "]]"))
      by (rewrite length_app; done).
    by rewrite drop_app_length.
  - replace ((cap' +:+ "]") +:+ "]]" +:+ post)
      with ((cap' +:+ "]]") +:+ String "]" post).
    + replace (String.length cap' + 2)%nat with (String.length (cap' +:+ "]]"))
        by (rewrite length_app; done).
      rewrite drop_app_length. by apply matchAll_char.
    + rewrite !string_app_assoc. done.
Qed.

(** A link made of link text is the match as it stands. *)
Lemma isLinkText_inv cap :
  isLinkText cap = true -> oneLine cap = true /\ hasChar "]" cap = false.
Proof.
  unfold isLinkText. intros [? ?%negb_true_iff]%andb_true_iff. done.
Qed.

Lemma lazyCapture_link cap post :
  isLinkText cap = true ->
  lazyCapture (cap +:+ "]]" +:+ post) = Some cap.
Proof.
  intros [Hline Hbr]%isLinkText_inv.
  destruct (lazyCapture_close cap Hline (hasChar_includes _ _ Hbr "]"))
    as (cap' & [->| ->] & Hcap); [done|].
  rewrite hasChar_app in Hbr. cbn in Hbr. by rewrite orb_true_r in Hbr.
Qed.

Lemma matchAll_link cap post :
  isLinkText cap = true ->
  matchAll ("[[" +:+ cap +:+ "]]" +:+ post) = cap :: matchAll post.
Proof.
  intros H. pose proof H as [Hline Hbr]%isLinkText_inv.
  destruct (matchAll_closed cap Hline (hasChar_includes _ _ Hbr "]"))
    as (cap' & [->| ->] & Hcap); [done|].
  rewrite hasChar_app in Hbr. cbn in Hbr. by rewrite orb_true_r in Hbr.
Qed.

(** *** Matches do not cross a line terminator *)

Lemma terminator_head t s :
  t ∈ lineTerminators ->
  exists c r, t +:+ s = String c (r +:+ s) /\ t = String c r
              /\ c <> "["%char /\ c <> "]"%char.
Proof.
  intros [->|[->|[->| ->]]]%lineTerminator_cases; by eexists _, _.
Qed.

Lemma lazyCapture_line a t x :
  t ∈ lineTerminators ->
  lazyCapture (a +:+ t +:+ x) = lazyCapture (a +:+ t)
  /\ forall cap, lazyCapture (a +:+ t) = Some cap ->
                 String.length cap + 2 <= String.length a.
Proof.
  intros Ht. induction a as [|c a [IH1 IH2]].
  - rewrite !app_empty_l.
    destruct (terminator_head t x Ht) as (c & r & Hx & Hr & Hc1 & Hc2).
    assert (forall y, lazyCapture (t +:+ y) = None) as Hnone.
    { intros y. pose proof (atLineTerminator_app t y Ht) as Hat.
      destruct (terminator_head t y Ht) as (c' & r' & Hy & Hr' & ? & ?).
      rewrite Hy in *. cbn [lazyCapture startsWith].
      rewrite decide_False by done. by rewrite Hat. }
    pose proof (Hnone "") as Hn0. rewrite app_empty_r in Hn0.
    by rewrite Hnone, Hn0.
  - rewrite !app_String. cbn [lazyCapture].
    assert (startsWith (String c (a +:+ t +:+ x)) "]]"
            = startsWith (String c (a +:+ t)) "]]") as Hclose.
    { destruct a as [|d a]; [|done]. rewrite !app_empty_l.
      destruct (terminator_head t x Ht) as (c' & r' & -> & -> & ? & ?).
      cbn. case_decide; [|done]. by rewrite decide_False. }
    assert (atLineTerminator (String c (a +:+ t +:+ x))
            = atLineTerminator (String c (a +:+ t))) as Hterm.
    { clear IH1 IH2 Hclose.
      destruct a as [|d [|e a]]; [..|done];
        apply lineTerminator_cases in Ht as [->|[->|[->| ->]]];
        unfold atLineTerminator; cbn; repeat case_decide; subst; done. }
    rewrite Hclose, Hterm, IH1. split; [done|].
    intros cap.
    destruct (startsWith (String c (a +:+ t)) "]]") eqn:Hhere.
    + intros [= <-]. destruct a as [|d a]; cbn; [|lia].
      rewrite app_empty_l in Hhere.
      destruct (terminator_head t "" Ht) as (c' & r' & Hy & -> & ? & ?).
      cbn in Hhere. case_decide; [|done]. by rewrite decide_False in Hhere.
    + destruct (atLineTerminator (String c (a +:+ t))); [done|].
      destruct (lazyCapture (a +:+ t)) as [cap'|] eqn:Hcap; [|done].
      intros [= <-]. specialize (IH2 cap' eq_refl). cbn. lia.
Qed.

Lemma matchAll_line l t x :
  t ∈ lineTerminators ->
  matchAll (l +:+ t +:+ x) = matchAll (l +:+ t) ++ matchAll x.
Proof.
  intros Ht. remember (String.length l) as n eqn:Hn. revert l Hn.
  induction n as [n IH] using lt_wf_ind. intros l ->.
  assert (matchAll (t +:+ x) = matchAll t ++ matchAll x) as Hnil.
  { apply lineTerminator_cases in Ht as [->|[->|[->| ->]]];
      unfold LF, CR, LS, PS, utf8; rewrite ?app_String, ?app_empty_l;
      rewrite !matchAll_char by done; by simp matchAll. }
  destruct l as [|c l].
  { by rewrite !app_empty_l. }
  rewrite !app_String.
  destruct (decide (c = "["%char)) as [->|Hc].
  2: { rewrite !matchAll_char by done. by apply (IH (String.length l)); [cbn; lia|]. }
  destruct l as [|d l].
  { rewrite !app_empty_l.
    assert (forall y, matchAll (String "[" (t +:+ y)) = matchAll (t +:+ y)) as Hb.
    { intros y. destruct (terminator_head t y Ht) as (c' & r' & -> & _ & ? & _).
      by apply matchAll_miss, matchHere_bracket. }
    pose proof (Hb "") as Hb0. rewrite app_empty_r in Hb0.
    by rewrite Hb, Hb0. }
  rewrite !app_String.
  destruct (decide (d = "["%char)) as [->|Hd].
  2: { rewrite !matchAll_bracket by done.
       apply (IH (String.length l)); [cbn; lia|done]. }
  destruct (lazyCapture_line l t x Ht) as [Hsame Hlen].
  destruct (lazyCapture (l +:+ t)) as [cap|] eqn:Hcap.
  - rewrite (matchAll_hit _ _ cap) by (cbn [matchHere]; by rewrite Hsame).
    rewrite (matchAll_hit "[" (String "[" (l +:+ t)) cap) by done.
    cbn [app]. f_equal.
    specialize (Hlen cap eq_refl).
    replace (String.length cap + 3)%nat with (S (String.length cap + 2)) by lia.
    cbn [drop]. rewrite !drop_app by done.
    apply (IH (String.length (drop (String.length cap + 2) l))); [|done].
    pose proof (drop_length (String.length cap + 2) l). cbn. lia.
  - rewrite matchAll_miss by (cbn [matchHere]; by rewrite Hsame).
    rewrite (matchAll_miss "[" (String "[" (l +:+ t))) by done.
    rewrite <- !app_String.
    apply (IH (String.length (String "[" l))); [cbn; lia|done].
Qed.

(** The matches of a cleanly scanned text come first; the scan of what
    follows starts afresh. *)
Lemma matchAll_scanned pre s :
  Scanned pre -> matchAll (pre +:+ s) = matchAll pre ++ matchAll s.
Proof.
  induction 1 as [|c pre Hc _ IH|c pre Hc _ IH|cap pre Hline Hclose _ IH|l t pre Ht _ IH].
  - done.
  - by rewrite app_String, !matchAll_char.
  - by rewrite !app_String, !matchAll_bracket.
  - replace (("[[" +:+ cap +:+ "]]" +:+ pre) +:+ s)
      with ("[[" +:+ cap +:+ "]]" +:+ (pre +:+ s))
      by (by rewrite !string_app_assoc).
    destruct (matchAll_closed cap Hline Hclose) as (cap' & _ & Hm).
    by rewrite !Hm, IH.
  - rewrite !string_app_assoc, (matchAll_line l t (pre +:+ s)) by done.
    rewrite IH, (matchAll_line l t pre) by done. by rewrite app_assoc.
Qed.

Lemma extractWikiLinks_scanned pre s :
  Scanned pre ->
  extractWikiLinks (pre +:+ s) = extractWikiLinks pre ++ extractWikiLinks s.
Proof.
  intros H. unfold extractWikiLinks. by rewrite matchAll_scanned, omap_app.
Qed.

Lemma extractWikiLinks_link cap post :
  isLinkText cap = true ->
  extractWikiLinks ("[[" +:+ cap +:+ "]]" +:+ post)
  = option_list (linkTargetOf cap) ++ extractWikiLinks post.
Proof.
  intros H. unfold extractWikiLinks. rewrite matchAll_link by done.
  cbn. by destruct (linkTargetOf cap).
Qed.

Lemma linkTargetOf_nonempty cap l : linkTargetOf cap = Some l -> l <> "".
Proof.
  unfold linkTargetOf. repeat case_decide; naive_solver.
Qed.

Lemma splitHead_link target alias :
  hasChar "|" target = false ->
  splitHead "|" (target +:+ "|" +:+ alias) = target.
Proof.
  induction target as [|c t IH]; [done|]. cbn. intros H.
  rewrite app_String. cbn [splitHead].
  destruct (decide (c = "|"%char)); [done|]. by rewrite IH.
Qed.

Lemma linkTargetOf_link target alias :
  target <> "" -> hasChar "|" target = false ->
  linkTargetOf (target +:+ "|" +:+ alias) = Some target.
Proof.
  intros Hne Hbar. unfold linkTargetOf.
  rewrite splitHead_link by done.
  destruct target; [done|]. rewrite app_String.
  by repeat case_decide.
Qed.

Lemma linkTargetOf_bar cap : linkTargetOf (String "|" cap) = None.
Proof. done. Qed.

Lemma extractWikiLinks_no_bar text l :
  l ∈ extractWikiLinks text -> hasChar "|" l = false.
Proof.
  unfold extractWikiLinks. intros (cap & _ & Hcap)%list_elem_of_omap.
  unfold linkTargetOf in Hcap. repeat case_decide; try done.
  injection Hcap as <-.
  clear. induction cap as [|c cap IH]; [done|].
  cbn. destruct (decide (c = "|"%char)) as [->|Hc]; [done|].
  cbn. by destruct (decide (c = "|"%char)).
Qed.

(** An aliased link with a target on one line without ["]]"], and an alias
    on one line: the first match has the target before its bar. *)
Lemma matchAll_aliased target alias post :
  oneLine target = true -> includes target "]]" = false ->
  oneLine alias = true ->
  exists shown later,
    matchAll ("[[" +:+ (target +:+ "|" +:+ alias) +:+ "]]" +:+ post)
    = (target +:+ "|" +:+ shown) :: later.
Proof.
  intros Ht Hclose Ha.
  destruct (lazyCapture_oneLine alias post Ha) as [shown Hshown].
  exists shown. eexists.
  change ("[[" +:+ (target +:+ "|" +:+ alias) +:+ "]]" +:+ post)
    with (String "[" (String "[" ((target +:+ "|" +:+ alias) +:+ "]]" +:+ post))).
  apply matchAll_hit. cbn [matchHere].
  rewrite !string_app_assoc.
  by rewrite lazyCapture_bar, Hshown.
Qed.

(** C10, as the code has it: [extractWikiLinks] returns no empty string;
    an occurrence of [[[]]], and one of [[[|alias]]] with an alias on one
    line without ["]]"], adds nothing where the scan reaches it: behind
    cleanly scanned text the result is that of the text before followed by
    that of the text behind. *)
Theorem extractWikiLinks_no_empty_target (text pre alias post : string)
  (Hpre : Scanned pre)
  (Halias : oneLine alias = true /\ includes alias "]]" = false) :
  ("" ∉ extractWikiLinks text)
  /\ extractWikiLinks (pre +:+ "[[]]" +:+ post)
     = extractWikiLinks pre ++ extractWikiLinks post
  /\ extractWikiLinks (pre +:+ "[[|" +:+ alias +:+ "]]" +:+ post)
     = extractWikiLinks pre ++ extractWikiLinks post.
Proof.
  destruct Halias as [Hline Hclose]. split; [|split].
  - unfold extractWikiLinks.
    intros (cap & _ & Hcap)%list_elem_of_omap.
    by apply linkTargetOf_nonempty in Hcap.
  - rewrite extractWikiLinks_scanned by done. f_equal.
    change ("[[]]" +:+ post) with ("[[" +:+ "" +:+ "]]" +:+ post).
    by rewrite extractWikiLinks_link.
  - rewrite extractWikiLinks_scanned by done. f_equal.
    change ("[[|" +:+ alias +:+ "]]" +:+ post)
      with ("[[" +:+ (String "|" alias) +:+ "]]" +:+ post).
    destruct (matchAll_closed (String "|" alias)) as (cap & Hcap & Hm).
    + apply oneLine_cons_ascii; [by left|done].
    + cbn [includes startsWith]. by rewrite decide_False.
    + unfold extractWikiLinks. rewrite Hm. cbn [omap list_omap].
      assert (linkTargetOf cap = None) as ->; [|done].
      destruct cap as [|c cap]; [done|].
      destruct Hcap as [[= <- _]|[= <- _]]; done.
Qed.

Lemma extractWikiLinks_no_empty_target_witness :
  ("" ∉ extractWikiLinks "[[a]] [[]]")
  /\ extractWikiLinks ("- [ ] [[a]] " +:+ "[[]]" +:+ " and [[b]]")
     = extractWikiLinks "- [ ] [[a]] " ++ extractWikiLinks " and [[b]]"
  /\ extractWikiLinks ("- [ ] [[a]] " +:+ "[[|" +:+ "sh]own" +:+ "]]" +:+ " and [[b]]")
     = extractWikiLinks "- [ ] [[a]] " ++ extractWikiLinks " and [[b]]".
Proof.
  apply (extractWikiLinks_no_empty_target "[[a]] [[]]" "- [ ] [[a]] " "sh]own" " and [[b]]").
  - do 2 (apply scanned_char; [done|]). apply scanned_bracket; [done|].
    do 2 (apply scanned_char; [done|]).
    apply (scanned_link "a" " "); [reflexivity..|].
    apply scanned_char; [done|apply scanned_nil].
  - split; reflexivity.
Defined.

(** C10 as stated fails where the brackets stand behind an opening ["[["]
    left unclosed on the line: the match begins there and ends at their
    closing ["]]"], and its target is an element of the result, which is
    empty once the occurrence is taken away. *)
Lemma extractWikiLinks_no_empty_target_counterexample :
  extractWikiLinks ("[[x " +:+ "[[]]" +:+ " y") = ["x [["]
  /\ extractWikiLinks ("[[x " +:+ "[[|alias]]" +:+ " y") = ["x [["]
  /\ extractWikiLinks ("[[x " +:+ " y") = [].
Proof. split_and!; reflexivity. Qed.

End LinkExtractorFacts.

(** ** Reverse reference index *)

Module IndexFacts.
Import JsString LinkExtractor Canvas Host CardText Engine LinkExtractorFacts.

Section WithHost.
Variable getFirstLinkpathDest : string -> string -> option TFile.
Variable JSON_parse : string -> option JsValue.

Local Notation indexSingleCanvas :=
  (Engine.indexSingleCanvas getFirstLinkpathDest JSON_parse).
Local Notation referencedPaths :=
  (Engine.referencedPaths getFirstLinkpathDest).
Local Notation referencesOf :=
  (Engine.referencesOf getFirstLinkpathDest).

Lemma indexSingleCanvas_ok file w content (data : CanvasData) :
  vault w !! path file = Some content ->
  JSON_parse content = Some (VObj data) ->
  indexSingleCanvas file w
  = (Fulfilled (),
     mkWorld (vault w)
             (<[path file := referencedPaths (path file) data]> (canvasIndex w))
             (trace w)).
Proof.
  intros Hread Hparse.
  unfold Engine.indexSingleCanvas, try_catch, readCanvas, vault_read.
  unfold mbind, async_bind. by rewrite Hread, Hparse.
Qed.

Lemma elem_of_referencedPaths cp data p :
  p ∈ referencedPaths cp data <->
  exists n, n ∈ default [] (nodes data) /\ p ∈ referencesOf cp n.
Proof.
  unfold Engine.referencedPaths.
  assert (forall l (init : gset string),
             p ∈ foldl (fun acc node => acc ∪ referencesOf cp node) init l <->
             p ∈ init \/ exists n, n ∈ l /\ p ∈ referencesOf cp n) as Hfold.
  { induction l as [|n l IH]; intros init; cbn.
    - split; [by left|]. intros [?|(n & Hn & _)]; [done|]. by apply elem_of_nil in Hn.
    - rewrite IH, elem_of_union. split.
      + intros [[?|?]|(m & Hm & ?)]; [by left|right..].
        * exists n. split; [apply list_elem_of_here|done].
        * exists m. split; [by apply list_elem_of_further|done].
      + intros [?|(m & Hm & ?)]; [by left; left|].
        apply elem_of_cons in Hm as [->|Hm]; [by left; right|].
        right. by exists m. }
  rewrite Hfold. split; [|by right].
  intros [H|H]; [|done]. by apply elem_of_empty in H.
Qed.

(** Where an element of [referencedPaths] comes from. *)
Lemma elem_of_referencesOf cp n p :
  p ∈ referencesOf cp n ->
  (node_type n = "file" /\ node_file n = Some p)
  \/ (exists t target f,
        node_type n = "text" /\ node_text n = Some t
        /\ target ∈ extractWikiLinks t
        /\ getFirstLinkpathDest target cp = Some f /\ path f = p).
Proof.
  unfold Engine.referencesOf, hasType.
  destruct (bool_decide (node_type n = "file")) eqn:Hfile.
  - apply bool_decide_eq_true in Hfile.
    destruct (node_file n) as [f|] eqn:Hf.
    + intros ->%elem_of_singleton. by left.
    + rewrite Hfile. cbn. intros H. by apply elem_of_empty in H.
  - destruct (bool_decide (node_type n = "text")) eqn:Htext;
      [|intros H; by apply elem_of_empty in H].
    apply bool_decide_eq_true in Htext.
    destruct (node_text n) as [t|]; [|intros H; by apply elem_of_empty in H].
    intros (target & Hin & Hres)%elem_of_list_to_set%list_elem_of_omap.
    destruct (getFirstLinkpathDest target cp) as [f|] eqn:Hf; [|done].
    injection Hres as <-. right. by exists t, target, f.
Qed.

Lemma referencesOf_text cp n t target f :
  node_type n = "text" -> node_text n = Some t ->
  target ∈ extractWikiLinks t ->
  getFirstLinkpathDest target cp = Some f ->
  path f ∈ referencesOf cp n.
Proof.
  intros Htype Htext Hin Hres. unfold Engine.referencesOf, hasType.
  rewrite Htype, Htext. cbn.
  apply elem_of_list_to_set, list_elem_of_omap.
  exists target. by rewrite Hres.
Qed.

(** C4, as the code has it: a text card whose text holds
    [[[Alias|Display]]] behind cleanly scanned text (no ["[["] left open
    before it on its line, no single ["["] right before it), with a
    non-empty [Alias] free of bars, of ["]]"] and of line ends, and a
    [Display] free of line ends, puts the path that [Alias] resolves to
    (from the canvas's own path) into the index set of the canvas. Every
    element of the set is the path of a file card or of a file that a
    bar-free link target resolves to, so the set holds the literal
    [Alias|Display] only when a file card or a resolved file bears it as
    its path. Targets that do not resolve add nothing. The vault is not
    written. *)
Theorem indexSingleCanvas_text_links
  file w content (data : CanvasData) (ns : list CanvasNode) n
  pre alias display post q
  (Hread : vault w !! path file = Some content)
  (Hparse : JSON_parse content = Some (VObj data))
  (Hnodes : nodes data = Some ns)
  (Hn : n ∈ ns)
  (Htype : node_type n = "text")
  (Htext : node_text n
           = Some (pre +:+ "[[" +:+ (alias +:+ "|" +:+ display) +:+ "]]" +:+ post))
  (Hpre : Scanned pre)
  (Hne : alias <> "")
  (Hbar : hasChar "|" alias = false)
  (Halias : oneLine alias = true /\ includes alias "]]" = false)
  (Hdisplay : oneLine display = true)
  (Hres : getFirstLinkpathDest alias (path file) = Some q) :
  exists w' refs,
    indexSingleCanvas file w = (Fulfilled (), w')
    /\ canvasIndex w' !! path file = Some refs
    /\ path q ∈ refs
    /\ (forall p, p ∈ refs ->
          (exists m, m ∈ ns /\ node_type m = "file" /\ node_file m = Some p)
          \/ (exists m t target f,
                m ∈ ns /\ node_type m = "text" /\ node_text m = Some t
                /\ target ∈ extractWikiLinks t /\ hasChar "|" target = false
                /\ getFirstLinkpathDest target (path file) = Some f
                /\ path f = p))
    /\ ((forall m, m ∈ ns -> node_file m <> Some (alias +:+ "|" +:+ display)) ->
        (forall target f, getFirstLinkpathDest target (path file) = Some f ->
                          path f <> alias +:+ "|" +:+ display) ->
        (alias +:+ "|" +:+ display) ∉ refs)
    /\ vault w' = vault w /\ trace w' = trace w.
Proof.
  assert (forall p, p ∈ referencedPaths (path file) data ->
            (exists m, m ∈ ns /\ node_type m = "file" /\ node_file m = Some p)
            \/ (exists m t target f,
                  m ∈ ns /\ node_type m = "text" /\ node_text m = Some t
                  /\ target ∈ extractWikiLinks t /\ hasChar "|" target = false
                  /\ getFirstLinkpathDest target (path file) = Some f
                  /\ path f = p)) as Hsound.
  { intros p (m & Hm & Hp)%elem_of_referencedPaths.
    rewrite Hnodes in Hm. cbn in Hm.
    apply elem_of_referencesOf in Hp
      as [[? ?]|(t & target & f & ? & ? & Hin & ? & ?)].
    - left. by exists m.
    - right. exists m, t, target, f.
      split_and!; try done. by eapply extractWikiLinks_no_bar. }
  eexists _, _. split; [by apply (indexSingleCanvas_ok _ _ content)|].
  cbn. split_and!; try done.
  - apply lookup_insert_eq.
  - apply elem_of_referencedPaths. exists n. rewrite Hnodes. split; [done|].
    eapply referencesOf_text; [done..| |done].
    rewrite extractWikiLinks_scanned by done.
    apply elem_of_app. right. unfold extractWikiLinks.
    destruct (matchAll_aliased alias display post (proj1 Halias) (proj2 Halias)
                Hdisplay) as (shown & later & ->).
    cbn [omap list_omap]. rewrite linkTargetOf_link by done.
    apply list_elem_of_here.
  - intros Hfile Hresolved Hin.
    apply Hsound in Hin as [(m & Hm & _ & Hf)|(m & t & target & f & _ & _ & _ & _ & _ & Hf & Hp)].
    + by eapply Hfile.
    + by eapply Hresolved.
Qed.

(** C8: a canvas whose text does not parse loses its index entry; the
    failure goes to the console and the promise is fulfilled; no file
    is written and no other entry changes. *)
Theorem indexSingleCanvas_parse_failure file w content
  (Hread : vault w !! path file = Some content)
  (Hbad : JSON_parse content = None) :
  exists w',
    indexSingleCanvas file w = (Fulfilled (), w')
    /\ canvasIndex w' = delete (path file) (canvasIndex w)
    /\ canvasIndex w' !! path file = None
    /\ vault w' = vault w
    /\ trace w'
       = trace w ++ [ConsoleError ("[BreadcrumbPlugin] Failed to index canvas: "
                                   +:+ path file)]
    /\ writes (trace w') = writes (trace w).
Proof.
  eexists. split.
  - unfold Engine.indexSingleCanvas, try_catch, readCanvas, vault_read.
    unfold mbind, async_bind. rewrite Hread, Hbad. reflexivity.
  - cbn. split_and!; try done.
    + apply lookup_delete_eq.
    + unfold writes. rewrite omap_app. cbn. by rewrite app_nil_r.
Qed.

End WithHost.

Lemma indexSingleCanvas_text_links_witness :
  exists w' refs,
    indexSingleCanvas Demo.resolveAlias
      (Demo.parseKnown [("c", Demo.canvasOf [Demo.textNode "n1" "# [[note|note]] see [[Alias|Display]]."])])
      Demo.board (Demo.worldOf [("board.canvas", "c")])
    = (Fulfilled (), w')
    /\ canvasIndex w' !! "board.canvas" = Some refs
    /\ "Q.md" ∈ refs
    /\ (forall p, p ∈ refs ->
          (exists m, m ∈ [Demo.textNode "n1" "# [[note|note]] see [[Alias|Display]]."]
                     /\ node_type m = "file" /\ node_file m = Some p)
          \/ (exists m t target f,
                m ∈ [Demo.textNode "n1" "# [[note|note]] see [[Alias|Display]]."]
                /\ node_type m = "text" /\ node_text m = Some t
                /\ target ∈ extractWikiLinks t /\ hasChar "|" target = false
                /\ Demo.resolveAlias target "board.canvas" = Some f
                /\ path f = p))
    /\ ((forall m, m ∈ [Demo.textNode "n1" "# [[note|note]] see [[Alias|Display]]."] ->
                   node_file m <> Some ("Alias" +:+ "|" +:+ "Display")) ->
        (forall target f, Demo.resolveAlias target "board.canvas" = Some f ->
                          path f <> "Alias" +:+ "|" +:+ "Display") ->
        ("Alias" +:+ "|" +:+ "Display") ∉ refs)
    /\ vault w' = list_to_map [("board.canvas", "c")] /\ trace w' = [].
Proof.
  apply (indexSingleCanvas_text_links Demo.resolveAlias
           (Demo.parseKnown [("c", Demo.canvasOf [Demo.textNode "n1" "# [[note|note]] see [[Alias|Display]]."])])
           Demo.board (Demo.worldOf [("board.canvas", "c")]) "c"
           (Demo.canvasOf [Demo.textNode "n1" "# [[note|note]] see [[Alias|Display]]."])
           [Demo.textNode "n1" "# [[note|note]] see [[Alias|Display]]."]
           (Demo.textNode "n1" "# [[note|note]] see [[Alias|Display]].")
           "# [[note|note]] see " "Alias" "Display" "." Demo.target);
    try reflexivity.
  - apply list_elem_of_here.
  - do 2 (apply scanned_char; [done|]).
    apply (scanned_link "note|note" " see "); [reflexivity..|].
    repeat (apply scanned_char; [done|]). apply scanned_nil.
  - done.
  - done.
Defined.

(** A check box before the link, and a single bracket in what is shown,
    do not keep the link from the index. *)
Example indexSingleCanvas_check_box :
  (indexSingleCanvas Demo.resolveAlias
     (Demo.parseKnown [("c", Demo.canvasOf [Demo.textNode "n1" "- [ ] read [[Alias|Dis]play]]"])])
     Demo.board (Demo.worldOf [("board.canvas", "c")])).2
  = mkWorld (list_to_map [("board.canvas", "c")])
            {[ "board.canvas" := {[ "Q.md" ]} ]} [].
Proof.
  reflexivity.
Qed.

(** C4 as stated fails twice. A link behind an opening ["[["] left
    unclosed on its line
    is not found, so the path it resolves to is missing from the set; and a
    file card whose path spells [Alias|Display] puts that literal string
    into the set. *)
Lemma indexSingleCanvas_text_links_counterexample :
  (includes "[[x [[Alias|Display]]" "[[Alias|Display]]" = true
   /\ Demo.resolveAlias "Alias" "board.canvas" = Some Demo.target
   /\ exists w',
       indexSingleCanvas Demo.resolveAlias (Demo.parseKnown [("c", Demo.shadowed)])
         Demo.board (Demo.worldOf [("board.canvas", "c")]) = (Fulfilled (), w')
       /\ canvasIndex w' !! "board.canvas" = Some ∅
       /\ "Q.md" ∉ (∅ : gset string))
  /\ (exists w',
       indexSingleCanvas Demo.resolveAlias (Demo.parseKnown [("c", Demo.literal)])
         Demo.board (Demo.worldOf [("board.canvas", "c")]) = (Fulfilled (), w')
       /\ canvasIndex w' !! "board.canvas" = Some {[ "Q.md"; "Alias|Display" ]}
       /\ "Alias|Display" ∈ ({[ "Q.md"; "Alias|Display" ]} : gset string)).
Proof.
  split; [split; [reflexivity|split; [reflexivity|]]|].
  - eexists. split; [reflexivity|]. split; [|apply not_elem_of_empty].
    cbn. rewrite lookup_insert_eq. f_equal.
  - eexists. split; [reflexivity|]. split; [|set_solver].
    cbn. rewrite lookup_insert_eq. f_equal.
Qed.

Lemma indexSingleCanvas_parse_failure_witness :
  exists w',
    indexSingleCanvas Demo.resolveAlias (Demo.parseKnown []) Demo.board
      (Demo.worldOf [("board.canvas", "{ nodes: ")])
    = (Fulfilled (), w')
    /\ canvasIndex w' = delete "board.canvas" ∅
    /\ canvasIndex w' !! "board.canvas" = None
    /\ vault w' = list_to_map [("board.canvas", "{ nodes: ")]
    /\ trace w'
       = [ConsoleError "[BreadcrumbPlugin] Failed to index canvas: board.canvas"]
    /\ writes (trace w') = [].
Proof.
  apply (indexSingleCanvas_parse_failure Demo.resolveAlias (Demo.parseKnown [])
           Demo.board (Demo.worldOf [("board.canvas", "{ nodes: ")]) "{ nodes: ");
    reflexivity.
Defined.

End IndexFacts.

(** ** Navigation path resolver *)

Module PathFacts.
Import Canvas Host Engine.

Section WithHost.
Variable getFrontmatter : TFile -> option Frontmatter.
Variable getFirstLinkpathDest : string -> string -> option TFile.

Local Notation getParentFile :=
  (Engine.getParentFile getFrontmatter getFirstLinkpathDest).
Local Notation climb := (Engine.climb getFrontmatter getFirstLinkpathDest).
Local Notation getBreadcrumbPath :=
  (Engine.getBreadcrumbPath getFrontmatter getFirstLinkpathDest).

(** Every round of the climb puts a new path of [known] into [seen], so
    the rounds left are bounded by the paths of [known] not yet seen. *)
Lemma climb_terminates (known : gset string) :
  (forall f p, getParentFile f = Some p -> path p ∈ known) ->
  forall n curr seen trail,
    (forall c, curr = Some c -> path c ∈ known) ->
    size (known ∖ seen) < n ->
    exists result, forall fuel, n <= fuel -> climb fuel curr seen trail = Some result.
Proof.
  intros Hclosed. induction n as [|n IH]; intros curr seen trail Hcurr Hsize; [lia|].
  destruct curr as [c|].
  - destruct (decide (path c ∈ seen)) as [Hin|Hnew].
    + exists trail. intros [|fuel] ?; [lia|]. cbn. by rewrite decide_True.
    + destruct (IH (getParentFile c) ({[ path c ]} ∪ seen) (c :: trail))
        as [result Hresult].
      * intros p Hp. by eapply Hclosed.
      * assert (known ∖ ({[ path c ]} ∪ seen) ⊂ known ∖ seen) as Hlt.
        { specialize (Hcurr c eq_refl). set_solver. }
        apply subset_size in Hlt. lia.
      * exists result. intros [|fuel] ?; [lia|]. cbn.
        rewrite decide_False by done. apply Hresult. lia.
  - exists trail. intros [|fuel] ?; [lia|]. done.
Qed.

(** C9: for every parent relation over the files of a vault the climb
    ends, within as many rounds as the vault has files (plus the start and
    the final test), and more fuel never changes the result; a path seen
    before ends the climb at once; and two notes that are each other's
    parent give the two-element path with the start last. *)
Theorem getBreadcrumbPath_cycle_safe :
  (forall (files : gset string) (start : TFile),
      (forall f p, getParentFile f = Some p -> path p ∈ files) ->
      exists trail, forall fuel,
        size files + 2 <= fuel -> getBreadcrumbPath fuel start = Some trail)
  /\ (forall fuel c seen trail,
        path c ∈ seen -> climb (S fuel) (Some c) seen trail = Some trail)
  /\ (forall A B : TFile,
        getParentFile A = Some B -> getParentFile B = Some A ->
        path A <> path B ->
        forall fuel, 3 <= fuel -> getBreadcrumbPath fuel A = Some [B; A]).
Proof.
  split_and!.
  - intros files start Hvault.
    destruct (climb_terminates ({[ path start ]} ∪ files)) with
      (n := S (size ({[ path start ]} ∪ files)))
      (curr := Some start) (seen := (∅ : gset string)) (trail := @nil TFile)
      as [result Hresult].
    + intros f p Hp. apply elem_of_union_r. by eapply Hvault.
    + intros c [= <-]. set_solver.
    + assert (({[ path start ]} ∪ files) ∖ ∅ ⊆ {[ path start ]} ∪ files) as Hle
          by set_solver.
      apply subseteq_size in Hle. lia.
    + exists result. intros fuel Hfuel. apply Hresult.
      pose proof (size_union_alt {[ path start ]} files) as Hsz.
      assert (size (files ∖ {[ path start ]}) <= size files)
        by (apply subseteq_size; set_solver).
      rewrite size_singleton in Hsz. lia.
  - intros fuel c seen trail Hseen. cbn. by rewrite decide_True.
  - intros A B HA HB Hne [|[|[|fuel]]] ?; try lia.
    unfold Engine.getBreadcrumbPath. cbn.
    rewrite decide_False by set_solver. rewrite HA.
    rewrite decide_False by set_solver. rewrite HB.
    by rewrite decide_True by set_solver.
Qed.

End WithHost.

Lemma getBreadcrumbPath_cycle_safe_witness :
  (exists trail, forall fuel,
      size ({[ "A.md"; "B.md" ]} : gset string) + 2 <= fuel ->
      getBreadcrumbPath Demo.frontmatterAB Demo.resolveAB fuel Demo.noteA
      = Some trail)
  /\ (forall fuel, 3 <= fuel ->
        getBreadcrumbPath Demo.frontmatterAB Demo.resolveAB fuel Demo.noteA
        = Some [Demo.noteB; Demo.noteA]).
Proof.
  destruct (getBreadcrumbPath_cycle_safe Demo.frontmatterAB Demo.resolveAB)
    as (Hends & _ & Hcycle).
  split.
  - apply (Hends {[ "A.md"; "B.md" ]} Demo.noteA).
    intros f p. unfold getParentFile, resolveFile, Demo.resolveAB.
    repeat case_match; try done; intros [= <-]; set_solver.
  - by apply (Hcycle Demo.noteA Demo.noteB).
Defined.

End PathFacts.

(** ** Card reconciliation: creation *)

Module CreateFacts.
Import JsString LinkExtractor Canvas Host CardText Engine LinkExtractorFacts.


(** Both templates hold the generated link prefix of the note. *)
Lemma aliasedCard_has_prefix f d : includes (aliasedCard f d) (linkPrefix f) = true.
Proof.
  unfold aliasedCard, linkPrefix.
  change (includes ("# " +:+ "[[" +:+ basename f +:+ "|" +:+ cleanName (basename f)
                         +:+ "]]" +:+ LF +:+ LF +:+ d)
                   ("[[" +:+ basename f) = true).
  apply includes_app_r.
  replace ("[[" +:+ basename f +:+ "|" +:+ cleanName (basename f)
                +:+ "]]" +:+ LF +:+ LF +:+ d)
    with (("[[" +:+ basename f) +:+ "|" +:+ cleanName (basename f)
                +:+ "]]" +:+ LF +:+ LF +:+ d) by apply string_app_assoc.
  apply includes_here, startsWith_app.
Qed.

Lemma plainCard_has_prefix f d : includes (plainCard f d) (linkPrefix f) = true.
Proof.
  unfold plainCard, linkPrefix.
  change (includes ("# " +:+ "[[" +:+ basename f +:+ "]]" +:+ LF +:+ LF +:+ d)
                   ("[[" +:+ basename f) = true).
  apply includes_app_r.
  replace ("[[" +:+ basename f +:+ "]]" +:+ LF +:+ LF +:+ d)
    with (("[[" +:+ basename f) +:+ "]]" +:+ LF +:+ LF +:+ d) by apply string_app_assoc.
  apply includes_here, startsWith_app.
Qed.

(** Reading a description leaves the world as it is. *)
Lemma descriptionOf_pure gf f w r w' : descriptionOf gf f w = (r, w') -> w' = w.
Proof.
  assert ((content ← vault_read f; mret (scanDescription content)) w = (r, w')
          -> w' = w) as Hscan.
  { unfold vault_read, mbind, mret, async_bind, async_ret.
    destruct (vault w !! path f); by intros [= _ <-]. }
  unfold descriptionOf.
  destruct (fm_description <$> gf f) as [[| | |]|]; try exact Hscan.
  by intros [= _ <-].
Qed.

Lemma extractNodeText_inv gf f w r w' :
  extractNodeText gf f w = (r, w') ->
  w' = w /\ match r with
            | Fulfilled t => exists d, descriptionOf gf f w = (Fulfilled d, w)
                                       /\ t = aliasedCard f d
            | Rejected => True
            end.
Proof.
  unfold extractNodeText, mbind, mret, async_bind, async_ret.
  destruct (descriptionOf gf f w) as [[d|] w0] eqn:Hd; intros [= <- <-];
    apply descriptionOf_pure in Hd as Hw; subst w0; [|done].
  split; [done|]. by exists d.
Qed.

Lemma extractNodeText_plain_inv gf f w r w' :
  extractNodeText_plain gf f w = (r, w') ->
  w' = w /\ match r with
            | Fulfilled t => exists d, descriptionOf gf f w = (Fulfilled d, w)
                                       /\ t = plainCard f d
            | Rejected => True
            end.
Proof.
  unfold extractNodeText_plain, mbind, mret, async_bind, async_ret.
  destruct (descriptionOf gf f w) as [[d|] w0] eqn:Hd; intros [= <- <-];
    apply descriptionOf_pure in Hd as Hw; subst w0; [|done].
  split; [done|]. by exists d.
Qed.

Lemma extractNodeText_of_description gf f w d :
  descriptionOf gf f w = (Fulfilled d, w) ->
  extractNodeText gf f w = (Fulfilled (aliasedCard f d), w).
Proof.
  intros H. unfold extractNodeText, mbind, mret, async_bind, async_ret.
  by rewrite H.
Qed.

(** The fallback scan on a note that declares its description in the
    frontmatter block, and on one that lists it under the label. *)
Example scanDescription_frontmatter :
  scanDescription ("---" +:+ LF +:+ "up: [[Home]]" +:+ LF
                   +:+ "Description : Summary text  " +:+ LF +:+ "---" +:+ LF
                   +:+ "Body") = "Summary text".
Proof. reflexivity. Qed.

Example scanDescription_list :
  scanDescription ("description:" +:+ LF +:+ "  - one" +:+ LF +:+ "  - two"
                   +:+ LF +:+ LF +:+ "# Heading")
  = "- one" +:+ LF +:+ "  - two".
Proof. reflexivity. Qed.

Example cleanName_numbered : cleanName "00.04.02 Variables" = "Variables".
Proof. reflexivity. Qed.

(** *** The placement policy *)

Lemma Qgtb_true a b : Qgtb a b = true <-> (b < a)%Q.
Proof.
  unfold Qgtb. rewrite negb_true_iff. split.
  - intros H. apply Qnot_le_lt. intros Hle.
    apply Qle_bool_iff in Hle. congruence.
  - intros H. destruct (Qle_bool a b) eqn:Hle; [|done].
    apply Qle_bool_iff in Hle. by apply Qlt_not_le in H.
Qed.

Lemma Qgtb_false a b : Qgtb a b = false <-> (a <= b)%Q.
Proof.
  unfold Qgtb. rewrite negb_false_iff. apply Qle_bool_iff.
Qed.

(** [maxX] after the [forEach]: at least its start value and every right
    edge, and equal to one of them. *)
Lemma placement_maxX ns m a :
  let M := fst (foldl placementStep (m, a) ns) in
  (m <= M)%Q
  /\ (forall n, n ∈ ns -> (rightEdge n <= M)%Q)
  /\ (M = m \/ exists n, n ∈ ns /\ M = rightEdge n).
Proof.
  revert m a. induction ns as [|n ns IH]; intros m a; cbn.
  - split; [apply Qle_refl|]. split; [|by left].
    intros n Hn. by apply elem_of_nil in Hn.
  - fold (rightEdge n).
    destruct (IH (if Qgtb (rightEdge n) m then rightEdge n else m)
                 (a + node_y n)%Q) as (Hlow & Hall & Hwhich).
    destruct (Qgtb (rightEdge n) m) eqn:Hgt.
    + apply Qgtb_true in Hgt. split_and!.
      * eapply Qle_trans; [by apply Qlt_le_weak|done].
      * intros k [->|Hk]%elem_of_cons; [done|by apply Hall].
      * right. destruct Hwhich as [->|(k & Hk & ->)].
        -- exists n. split; [apply list_elem_of_here|done].
        -- exists k. split; [by apply list_elem_of_further|done].
    + apply Qgtb_false in Hgt. split_and!.
      * done.
      * intros k [->|Hk]%elem_of_cons; [by eapply Qle_trans|by apply Hall].
      * destruct Hwhich as [->|(k & Hk & ->)]; [by left|].
        right. exists k. split; [by apply list_elem_of_further|done].
Qed.

(** [avgY] after the [forEach]: the start value plus every [y]. *)
Lemma placement_sumY ns m a :
  (snd (foldl placementStep (m, a) ns) == a + foldr Qplus 0 (node_y <$> ns))%Q.
Proof.
  revert m a. induction ns as [|n ns IH]; intros m a; cbn.
  - ring.
  - rewrite IH. ring.
Qed.

Lemma placement_nonempty n ns :
  greatestOf (0%Q :: (rightEdge <$> n :: ns)) (fst (placement (n :: ns)))
  /\ (snd (placement (n :: ns)) == meanOf (node_y <$> n :: ns))%Q.
Proof.
  unfold placement.
  pose proof (placement_maxX (n :: ns) 0 0) as (Hlow & Hall & Hwhich).
  pose proof (placement_sumY (n :: ns) 0 0) as Hsum.
  destruct (foldl placementStep (0%Q, 0%Q) (n :: ns)) as [maxX sumY] eqn:Hfold.
  cbn [fst snd] in *. split; [split|].
  - destruct Hwhich as [->|(k & Hk & ->)].
    + exists 0%Q. split; [apply list_elem_of_here|reflexivity].
    + exists (rightEdge k). split; [|reflexivity].
      apply list_elem_of_further, list_elem_of_fmap. by exists k.
  - intros c [->|(k & -> & Hk)%list_elem_of_fmap]%elem_of_cons; [done|].
    by apply Hall.
  - unfold meanOf. rewrite Hsum, length_fmap, Qplus_0_l. reflexivity.
Qed.

Section WithHost.
Variable getFrontmatter : TFile -> option Frontmatter.
Variable JSON_parse : string -> option JsValue.
Variable JSON_stringify : JsValue -> string.
Variable measureTextPrecisely : string -> Q * Q.

Local Notation addToCanvas :=
  (Engine.addToCanvas getFrontmatter JSON_parse JSON_stringify measureTextPrecisely).
Local Notation addToCanvas_plain :=
  (Engine.addToCanvas_plain getFrontmatter JSON_parse JSON_stringify
                            measureTextPrecisely).
Local Notation newCard := (Engine.newCard measureTextPrecisely).
Local Notation extractNodeText := (CardText.extractNodeText getFrontmatter).
Local Notation extractNodeText_plain :=
  (CardText.extractNodeText_plain getFrontmatter).
Local Notation descriptionOf := (CardText.descriptionOf getFrontmatter).

Ltac run_async :=
  unfold try_catch, readCanvas, vault_read, vault_modify, notice, reject,
    mbind, mret, async_bind, async_ret.

(** The lookup finds a card: its identifier is returned, nothing else
    happens. *)
Lemma addToCanvas_found cf nf id gid w content data found :
  vault w !! path cf = Some content ->
  JSON_parse content = Some (VObj data) ->
  lookupCard (path nf) (linkPrefix nf) (default [] (nodes data)) = Some found ->
  addToCanvas cf nf id gid w = (Fulfilled (Some found), w).
Proof.
  intros Hread Hparse Hfound. unfold Engine.addToCanvas. run_async.
  by rewrite Hread, Hparse, Hfound.
Qed.

Lemma addToCanvas_plain_found cf nf id w content data found :
  vault w !! path cf = Some content ->
  JSON_parse content = Some (VObj data) ->
  lookupCard (path nf) (linkPrefix nf) (default [] (nodes data)) = Some found ->
  addToCanvas_plain cf nf id w = (Fulfilled (Some found), w).
Proof.
  intros Hread Hparse Hfound. unfold Engine.addToCanvas_plain. run_async.
  by rewrite Hread, Hparse, Hfound.
Qed.

(** The lookup finds nothing: the frame and the card are appended, in this
    order, and the document is written. *)
Lemma addToCanvas_created cf nf id gid w content data text :
  vault w !! path cf = Some content ->
  JSON_parse content = Some (VObj data) ->
  lookupCard (path nf) (linkPrefix nf) (default [] (nodes data)) = None ->
  extractNodeText nf w = (Fulfilled text, w) ->
  addToCanvas cf nf id gid w
  = (Fulfilled (Some id),
     modified cf
       (JSON_stringify
          (set_nodes (default [] (nodes data)
                        ++ [frameOf gid (basename nf)
                                    (newCard id text (default [] (nodes data)));
                            newCard id text (default [] (nodes data))])
                     data)) w).
Proof.
  intros Hread Hparse Hnone Htext. unfold Engine.addToCanvas. run_async.
  rewrite Hread, Hparse, Hnone.
  unfold mbind, async_bind in Htext. by rewrite Htext.
Qed.

Lemma addToCanvas_plain_created cf nf id w content data text :
  vault w !! path cf = Some content ->
  JSON_parse content = Some (VObj data) ->
  lookupCard (path nf) (linkPrefix nf) (default [] (nodes data)) = None ->
  extractNodeText_plain nf w = (Fulfilled text, w) ->
  addToCanvas_plain cf nf id w
  = (Fulfilled (Some id),
     modified cf
       (JSON_stringify
          (set_nodes (default [] (nodes data)
                        ++ [newCard id text (default [] (nodes data))])
                     data)) w).
Proof.
  intros Hread Hparse Hnone Htext. unfold Engine.addToCanvas_plain. run_async.
  rewrite Hread, Hparse, Hnone.
  unfold mbind, async_bind in Htext. by rewrite Htext.
Qed.

Lemma newCard_fields id text ns :
  node_id (newCard id text ns) = id
  /\ node_type (newCard id text ns) = "text"
  /\ node_text (newCard id text ns) = Some text
  /\ node_file (newCard id text ns) = None
  /\ node_x (newCard id text ns) = (fst (placement ns) + 100)%Q
  /\ node_y (newCard id text ns) = snd (placement ns)
  /\ node_width (newCard id text ns) = fst (measureTextPrecisely text)
  /\ node_height (newCard id text ns) = snd (measureTextPrecisely text).
Proof.
  unfold Engine.newCard.
  destruct (measureTextPrecisely text), (placement ns). done.
Qed.

(** Where the code puts a created card: 100 to the right of the greatest
    of 0 and the right edges of the existing nodes, at the mean of their
    [y]; on an empty canvas at (-300, -200). Both variants of [addToCanvas]
    write the card so placed. *)
Lemma addToCanvas_placement cf nf id gid w content data text text'
  (Hread : vault w !! path cf = Some content)
  (Hparse : JSON_parse content = Some (VObj data))
  (Hnone : lookupCard (path nf) (linkPrefix nf) (default [] (nodes data)) = None)
  (Htext : extractNodeText nf w = (Fulfilled text, w))
  (Htext' : extractNodeText_plain nf w = (Fulfilled text', w)) :
  let ns := default [] (nodes data) in
  addToCanvas cf nf id gid w
  = (Fulfilled (Some id),
     modified cf
       (JSON_stringify
          (set_nodes (ns ++ [frameOf gid (basename nf) (newCard id text ns);
                             newCard id text ns]) data)) w)
  /\ addToCanvas_plain cf nf id w
     = (Fulfilled (Some id),
        modified cf
          (JSON_stringify (set_nodes (ns ++ [newCard id text' ns]) data)) w)
  /\ (forall i t,
        (ns = [] ->
         (node_x (newCard i t ns) == -300)%Q /\ (node_y (newCard i t ns) == -200)%Q)
        /\ (ns <> [] ->
            greatestOf (0%Q :: (rightEdge <$> ns)) (node_x (newCard i t ns) - 100)%Q
            /\ (node_y (newCard i t ns) == meanOf (node_y <$> ns))%Q)).
Proof.
  intros ns. split; [by eapply addToCanvas_created|].
  split; [by eapply addToCanvas_plain_created|].
  intros i t.
  destruct (newCard_fields i t ns) as (_ & _ & _ & _ & Hx & Hy & _).
  rewrite Hx, Hy. split.
  - intros ->. cbn. split; reflexivity.
  - intros Hne. destruct ns as [|n rest]; [done|].
    destruct (placement_nonempty n rest) as ([(c & Hc & Heq) Hub] & Hmean).
    split; [split|done].
    + exists c. split; [done|]. rewrite <- Heq. ring.
    + intros k Hk. apply Hub in Hk.
      assert (fst (placement (n :: rest)) + 100 - 100
              == fst (placement (n :: rest)))%Q as -> by ring.
      done.
Qed.

(** C2, as the code has it: on an empty canvas the note [note] with the
    description [Summary text] gets exactly a group frame labelled [note]
    and, right behind it, a text card of the same rectangle at (-300, -200);
    the card text holds the aliased self-link [[[note|note]]] and the
    description, and does not hold [[[note]]]. *)
Theorem addToCanvas_empty_canvas cf nf id gid w content data
  (Hread : vault w !! path cf = Some content)
  (Hparse : JSON_parse content = Some (VObj data))
  (Hempty : default [] (nodes data) = [])
  (Hname : basename nf = "note")
  (Hdesc : descriptionOf nf w = (Fulfilled "Summary text", w)) :
  let text := "# [[note|note]]" +:+ LF +:+ LF +:+ "Summary text" in
  let size := measureTextPrecisely text in
  let card := textCard id text (-300) (-200) (fst size) (snd size) in
  let frame := groupFrame gid "note" (-300) (-200) (fst size) (snd size) in
  addToCanvas cf nf id gid w
  = (Fulfilled (Some id),
     modified cf (JSON_stringify (set_nodes [frame; card] data)) w)
  /\ includes text "[[note|note]]" = true
  /\ includes text "Summary text" = true
  /\ includes text "[[note]]" = false
  /\ sameGeometry frame card.
Proof.
  intros text size card frame. split_and!; try done.
  assert (extractNodeText nf w = (Fulfilled text, w)) as Htext.
  { rewrite (extractNodeText_of_description _ _ _ _ Hdesc).
    unfold aliasedCard. by rewrite Hname. }
  assert (lookupCard (path nf) (linkPrefix nf) (default [] (nodes data)) = None)
    as Hnone by (by rewrite Hempty).
  rewrite (addToCanvas_created cf nf id gid w content data text
             Hread Hparse Hnone Htext).
  rewrite Hempty, Hname. unfold Engine.newCard, frameOf, card, frame.
  fold size. by destruct size.
Qed.

End WithHost.

(** C3: the claim holds for the mean of [y] and for the empty canvas, and
    for [x] whenever some node ends right of the origin; the code misses
    it when every node ends left of the origin, because its maximum starts
    at 0. Here the one node of the canvas ends at -400 (and sits at y = 40):
    the rightmost edge plus the gap is -300, the card is stored at
    x = 100, y = 40. *)
Theorem addToCanvas_left_of_origin :
  let ns := default [] (nodes Demo.leftCanvas) in
  let card := textCard "id" Demo.cardText 100 40 300 300 in
  let w := Demo.worldOf [("board.canvas", "c")] in
  addToCanvas Demo.frontmatter (Demo.parseKnown [("c", Demo.leftCanvas)])
              Demo.printNodes Demo.measure Demo.board Demo.note "id" "gid" w
  = (Fulfilled (Some "id"),
     modified Demo.board
       (Demo.printNodes
          (set_nodes (ns ++ [frameOf "gid" "note" card; card]) Demo.leftCanvas)) w)
  /\ Engine.newCard Demo.measure "id" Demo.cardText ns = card
  /\ (rightEdge <$> ns) = [(-500 + 100)%Q]
  /\ ~ greatestOf (rightEdge <$> ns) (node_x card - 100)%Q
  /\ (node_y card == meanOf (node_y <$> ns))%Q.
Proof.
  split_and!; try reflexivity.
  intros [(c & Hc & Heq) _]. cbn in Hc.
  apply list_elem_of_singleton in Hc as ->. by cbv in Heq.
Qed.

Lemma addToCanvas_empty_canvas_witness :
  let text := "# [[note|note]]" +:+ LF +:+ LF +:+ "Summary text" in
  let size := Demo.measure text in
  let card := textCard "id" text (-300) (-200) (fst size) (snd size) in
  let frame := groupFrame "gid" "note" (-300) (-200) (fst size) (snd size) in
  let w := Demo.worldOf [("board.canvas", "c")] in
  addToCanvas Demo.frontmatter (Demo.parseKnown [("c", Demo.emptyCanvas)])
              Demo.printNodes Demo.measure Demo.board Demo.note "id" "gid" w
  = (Fulfilled (Some "id"),
     modified Demo.board (Demo.printNodes (set_nodes [frame; card] Demo.emptyCanvas)) w)
  /\ includes text "[[note|note]]" = true
  /\ includes text "Summary text" = true
  /\ includes text "[[note]]" = false
  /\ sameGeometry frame card.
Proof.
  apply (addToCanvas_empty_canvas Demo.frontmatter
           (Demo.parseKnown [("c", Demo.emptyCanvas)]) Demo.printNodes Demo.measure
           Demo.board Demo.note "id" "gid" (Demo.worldOf [("board.canvas", "c")])
           "c" Demo.emptyCanvas); reflexivity.
Defined.

(** C2 as stated fails on the very scenario it names: the card written
    for note.md on the empty canvas reads [# [[note|note]]], then a blank
    line, then the description, and the substring [[[note]]] is not in it. *)
Lemma addToCanvas_empty_canvas_counterexample :
  let text := "# [[note|note]]" +:+ LF +:+ LF +:+ "Summary text" in
  let card := textCard "id" text (-300) (-200) 300 300 in
  let frame := groupFrame "gid" "note" (-300) (-200) 300 300 in
  let w := Demo.worldOf [("board.canvas", "c")] in
  addToCanvas Demo.frontmatter (Demo.parseKnown [("c", Demo.emptyCanvas)])
              Demo.printNodes Demo.measure Demo.board Demo.note "id" "gid" w
  = (Fulfilled (Some "id"),
     modified Demo.board (Demo.printNodes (set_nodes [frame; card] Demo.emptyCanvas)) w)
  /\ Demo.printNodes (set_nodes [frame; card] Demo.emptyCanvas)
     = "gid:group::note;id:text:# [[note|note]]" +:+ LF +:+ LF
       +:+ "Summary text:;"
  /\ node_text card = Some text
  /\ includes text "[[note]]" = false.
Proof. split_and!; reflexivity. Qed.

End CreateFacts.

(** ** Card reconciliation: synchronisation *)

Module SyncFacts.
Import JsString LinkExtractor Canvas Host CardText Engine CreateFacts.

Lemma set_text_changes t n : node_text n <> Some t -> set_text t n <> n.
Proof. intros Hne Heq. apply Hne. by rewrite <- Heq. Qed.

Lemma syncTexts_spec link t ns st :
  Forall2 (retexted t) ns (fst (syncTexts link t ns st))
  /\ (updated (snd (syncTexts link t ns st)) = true
      <-> updated st = true \/ fst (syncTexts link t ns st) <> ns).
Proof.
  revert st. induction ns as [|n ns IH]; intros st; cbn.
  - split; [constructor|]. naive_solver.
  - destruct (isTextCardFor link n).
    + set (d := bool_decide (node_text n <> Some t)).
      specialize (IH (mkSync (updated st || d) (Some (node_id n))
                             (Some (if d then set_text t n else n)))).
      destruct (syncTexts link t ns _) as [ns' st'] eqn:Hrest.
      cbn in *. destruct IH as [Hall Hupd]. subst d.
      destruct (bool_decide (node_text n <> Some t)) eqn:Hd.
      * apply bool_decide_eq_true in Hd. split.
        -- constructor; [by right|done].
        -- rewrite Hupd, orb_true_r. split; [|by left].
           intros _. right. intros [= Hn _]. by apply set_text_changes in Hn.
      * split.
        -- constructor; [by left|done].
        -- rewrite Hupd, orb_false_r. split.
           ++ intros [?|Hne]; [by left|]. right. by intros [= ->].
           ++ intros [?|Hne]; [by left|]. right. intros ->. done.
    + specialize (IH st).
      destruct (syncTexts link t ns st) as [ns' st'] eqn:Hrest.
      cbn in *. destruct IH as [Hall Hupd]. split.
      * constructor; [by left|done].
      * rewrite Hupd. split.
        -- intros [?|Hne]; [by left|]. right. by intros [= ->].
        -- intros [?|Hne]; [by left|]. right. intros ->. done.
Qed.

Lemma fallBackToFile_updated p ns st :
  updated (fallBackToFile p ns st) = updated st.
Proof. unfold fallBackToFile. by repeat case_match. Qed.

(** [updated] is set exactly when the node array is no longer the parsed
    one. *)
Lemma syncNodes_updated nf t gid ns :
  (syncNodes nf t gid ns).1.2 = true <-> (syncNodes nf t gid ns).1.1 <> ns.
Proof.
  unfold syncNodes.
  pose proof (syncTexts_spec (linkPrefix nf) t ns (mkSync false None None))
    as [Hall Hupd].
  destruct (syncTexts _ _ ns _) as [ns1 st1]. cbn in Hall, Hupd.
  pose proof (fallBackToFile_updated (path nf) ns1 st1) as Hfb.
  unfold repairGroup.
  destruct (targetNode (fallBackToFile (path nf) ns1 st1)) as [target|].
  - destruct (existsb _ ns1); cbn.
    + rewrite Hfb, Hupd. naive_solver.
    + split; [|done]. intros _ Heq.
      apply Forall2_length in Hall. rewrite <- Heq in Hall. cbn in Hall. lia.
  - cbn. rewrite Hfb, Hupd. naive_solver.
Qed.

Lemma orZero_same q : (Qabs (orZero q - q) == 0)%Q.
Proof.
  unfold orZero. destruct (Qeq_bool q 0) eqn:Hq.
  - apply Qeq_bool_iff in Hq. rewrite Hq. reflexivity.
  - assert (q - q == 0)%Q as -> by ring. reflexivity.
Qed.

Lemma isSizeDiff_changes n w h :
  isSizeDiff n w h = true -> node_width n <> w \/ node_height n <> h.
Proof.
  unfold isSizeDiff. intros [H|H]%orb_true_iff; apply Qgtb_true in H.
  - left. intros <-. rewrite orZero_same in H. by cbv in H.
  - right. intros <-. rewrite orZero_same in H. by cbv in H.
Qed.

Lemma syncTextsAndSizes_spec link t w h ns st :
  Forall2 (resized t w h) ns (fst (syncTextsAndSizes link t w h ns st))
  /\ (fst (snd (syncTextsAndSizes link t w h ns st)) = true
      <-> fst st = true \/ fst (syncTextsAndSizes link t w h ns st) <> ns).
Proof.
  revert st. induction ns as [|n ns IH]; intros st; cbn.
  - split; [constructor|]. naive_solver.
  - destruct (isTextCardFor link n).
    + set (d := bool_decide (node_text n <> Some t) || isSizeDiff n w h).
      specialize (IH (fst st || d, Some (node_id n))).
      destruct (syncTextsAndSizes link t w h ns _) as [ns' st'] eqn:Hrest.
      cbn in *. destruct IH as [Hall Hupd]. subst d.
      destruct (bool_decide (node_text n <> Some t) || isSizeDiff n w h) eqn:Hd.
      * assert (set_size w h (set_text t n) <> n) as Hchanged.
        { intros Heq. apply orb_true_iff in Hd as [Hd|Hd].
          - apply bool_decide_eq_true in Hd. apply Hd. by rewrite <- Heq.
          - apply isSizeDiff_changes in Hd as [Hd|Hd]; apply Hd;
              by rewrite <- Heq. }
        split.
        -- constructor; [by right|done].
        -- rewrite Hupd, orb_true_r. split; [|by left].
           intros _. right. by intros [= Hn _].
      * split.
        -- constructor; [by left|done].
        -- rewrite Hupd, orb_false_r. split.
           ++ intros [?|Hne]; [by left|]. right. by intros [= ->].
           ++ intros [?|Hne]; [by left|]. right. intros ->. done.
    + specialize (IH st).
      destruct (syncTextsAndSizes link t w h ns st) as [ns' st'] eqn:Hrest.
      cbn in *. destruct IH as [Hall Hupd]. split.
      * constructor; [by left|done].
      * rewrite Hupd. split.
        -- intros [?|Hne]; [by left|]. right. by intros [= ->].
        -- intros [?|Hne]; [by left|]. right. intros ->. done.
Qed.

Lemma syncNodes_sized_updated nf t w h ns :
  (syncNodes_sized nf t w h ns).1.2 = true
  <-> (syncNodes_sized nf t w h ns).1.1 <> ns.
Proof.
  unfold syncNodes_sized.
  pose proof (syncTextsAndSizes_spec (linkPrefix nf) t w h ns (false, None))
    as [Hall Hupd].
  destruct (syncTextsAndSizes _ _ _ _ ns _) as [ns1 [upd tid]].
  cbn in *. rewrite Hupd. naive_solver.
Qed.

Section WithHost.
Variable getFrontmatter : TFile -> option Frontmatter.
Variable JSON_parse : string -> option JsValue.
Variable JSON_stringify : JsValue -> string.
Variable measureTextPrecisely : string -> Q * Q.

Local Notation syncNodeInCanvas :=
  (Engine.syncNodeInCanvas getFrontmatter JSON_parse JSON_stringify).
Local Notation syncNodeInCanvas_sized :=
  (Engine.syncNodeInCanvas_sized getFrontmatter JSON_parse JSON_stringify
                                 measureTextPrecisely).
Local Notation extractNodeText := (CardText.extractNodeText getFrontmatter).
Local Notation extractNodeText_plain :=
  (CardText.extractNodeText_plain getFrontmatter).

Ltac run_async :=
  unfold try_catch, readCanvas, vault_read, vault_modify, notice, reject,
    mbind, mret, async_bind, async_ret.

Lemma syncNodeInCanvas_run cf nf gid w content data ns text :
  vault w !! path cf = Some content ->
  JSON_parse content = Some (VObj data) ->
  nodes data = Some ns ->
  extractNodeText nf w = (Fulfilled text, w) ->
  syncNodeInCanvas cf nf gid w
  = (Fulfilled (syncNodes nf text gid ns).2,
     if (syncNodes nf text gid ns).1.2
     then modified cf (JSON_stringify
                         (set_nodes (syncNodes nf text gid ns).1.1 data)) w
     else w).
Proof.
  intros Hread Hparse Hnodes Htext. unfold Engine.syncNodeInCanvas. run_async.
  rewrite Hread, Hparse, Hnodes.
  unfold mbind, async_bind in Htext. rewrite Htext.
  destruct (syncNodes nf text gid ns) as [[ns' upd] tid]. cbn.
  by destruct upd.
Qed.

Lemma syncNodeInCanvas_sized_run cf nf w content data ns text :
  vault w !! path cf = Some content ->
  JSON_parse content = Some (VObj data) ->
  nodes data = Some ns ->
  extractNodeText_plain nf w = (Fulfilled text, w) ->
  let size := measureTextPrecisely text in
  syncNodeInCanvas_sized cf nf w
  = (Fulfilled (syncNodes_sized nf text size.1 size.2 ns).2,
     if (syncNodes_sized nf text size.1 size.2 ns).1.2
     then modified cf
            (JSON_stringify
               (set_nodes (syncNodes_sized nf text size.1 size.2 ns).1.1 data)) w
     else w).
Proof.
  intros Hread Hparse Hnodes Htext size.
  unfold Engine.syncNodeInCanvas_sized. run_async.
  rewrite Hread, Hparse, Hnodes.
  unfold mbind, async_bind in Htext. rewrite Htext.
  subst size. destruct (measureTextPrecisely text) as [width height]. cbn.
  destruct (syncNodes_sized nf text width height ns) as [[ns' upd] tid]. cbn.
  by destruct upd.
Qed.

(** C6: [syncNodeInCanvas] stores the document exactly when its node array
    is no longer the parsed one (a card text replaced, a size replaced in
    the size-syncing variant, a frame synthesized); otherwise the world,
    and with it the canvas file, is left as it was. *)
Theorem syncNodeInCanvas_writes_iff_changed cf nf gid w content data ns text text'
  (Hread : vault w !! path cf = Some content)
  (Hparse : JSON_parse content = Some (VObj data))
  (Hnodes : nodes data = Some ns)
  (Htext : extractNodeText nf w = (Fulfilled text, w))
  (Htext' : extractNodeText_plain nf w = (Fulfilled text', w)) :
  let r := syncNodes nf text gid ns in
  let size := measureTextPrecisely text' in
  let r' := syncNodes_sized nf text' size.1 size.2 ns in
  (r.1.2 = true <-> r.1.1 <> ns)
  /\ syncNodeInCanvas cf nf gid w
     = (Fulfilled r.2,
        if r.1.2 then modified cf (JSON_stringify (set_nodes r.1.1 data)) w
        else w)
  /\ (r'.1.2 = true <-> r'.1.1 <> ns)
  /\ syncNodeInCanvas_sized cf nf w
     = (Fulfilled r'.2,
        if r'.1.2 then modified cf (JSON_stringify (set_nodes r'.1.1 data)) w
        else w).
Proof.
  intros r size r'. split_and!.
  - apply syncNodes_updated.
  - by eapply syncNodeInCanvas_run.
  - apply syncNodes_sized_updated.
  - by eapply syncNodeInCanvas_sized_run.
Qed.

End WithHost.

Lemma syncNodeInCanvas_writes_iff_changed_witness :
  let text := "# [[note|note]]" +:+ LF +:+ LF +:+ "Summary text" in
  let text' := "# [[note]]" +:+ LF +:+ LF +:+ "Summary text" in
  let ns := [Demo.textNode "n1" "# [[note|note]] old"] in
  let w := Demo.worldOf [("board.canvas", "c")] in
  let parse := Demo.parseKnown [("c", Demo.staleCanvas)] in
  let r := syncNodes Demo.note text "gid" ns in
  let size := Demo.measure text' in
  let r' := syncNodes_sized Demo.note text' size.1 size.2 ns in
  (r.1.2 = true <-> r.1.1 <> ns)
  /\ syncNodeInCanvas Demo.frontmatter parse Demo.printNodes
                      Demo.board Demo.note "gid" w
     = (Fulfilled r.2,
        if r.1.2
        then modified Demo.board (Demo.printNodes (set_nodes r.1.1 Demo.staleCanvas)) w
        else w)
  /\ (r'.1.2 = true <-> r'.1.1 <> ns)
  /\ syncNodeInCanvas_sized Demo.frontmatter parse Demo.printNodes Demo.measure
                            Demo.board Demo.note w
     = (Fulfilled r'.2,
        if r'.1.2
        then modified Demo.board (Demo.printNodes (set_nodes r'.1.1 Demo.staleCanvas)) w
        else w).
Proof.
  apply (syncNodeInCanvas_writes_iff_changed Demo.frontmatter
           (Demo.parseKnown [("c", Demo.staleCanvas)]) Demo.printNodes Demo.measure
           Demo.board Demo.note "gid" (Demo.worldOf [("board.canvas", "c")])
           "c" Demo.staleCanvas); reflexivity.
Defined.

End SyncFacts.

(** ** Card reconciliation: group geometry adjustment *)

Module AdjustFacts.
Import JsString Canvas Host CardText Engine.

(** Groups are no candidates of the [find]. *)
Lemma matchesLabel_group label n :
  hasType "group" n = true -> matchesLabel label n = false.
Proof.
  unfold matchesLabel, hasType. intros ->%bool_decide_eq_true. done.
Qed.

Lemma find_sameButGroups label ns store :
  sameButGroups ns store ->
  List.find (matchesLabel label) store = List.find (matchesLabel label) ns.
Proof.
  induction 1 as [|a b ns store [->|[Ha Hb]] _ IH]; cbn; [done|by rewrite IH|].
  by rewrite (matchesLabel_group _ a), (matchesLabel_group _ b).
Qed.

Lemma adjustGroup_sameButGroups ns store nonGroups g :
  sameButGroups ns store ->
  adjustGroup store nonGroups g = adjustGroup ns nonGroups g.
Proof.
  intros H. unfold adjustGroup.
  destruct (1 <? _)%nat; [done|]. destruct (node_label g) as [label|]; [|done].
  destruct (bool_decide (label = "")); [done|].
  by rewrite (find_sameButGroups _ _ _ H).
Qed.

Lemma adjustGroup_is_group store nonGroups g g' :
  adjustGroup store nonGroups g = Some g' ->
  hasType "group" g' = hasType "group" g.
Proof.
  unfold adjustGroup. repeat case_match; try done. by intros [= <-].
Qed.

(** The loop over the group positions, begun with the groups before
    position [length done] settled. *)
Lemma adjust_loop ns nonGroups rest done b :
  sameButGroups ns (done ++ rest) ->
  foldl (adjustStep nonGroups) (done ++ rest, b) (groupPositions (length done) rest)
  = (done ++ ((fun n => if hasType "group" n
                        then default n (adjustGroup ns nonGroups n) else n) <$> rest),
     b || existsb (fun n => hasType "group" n
                            && bool_decide (is_Some (adjustGroup ns nonGroups n)))
                  rest).
Proof.
  revert done b. induction rest as [|n rest IH]; intros done b Hsame.
  - cbn. by rewrite orb_false_r.
  - cbn [groupPositions fmap list_fmap existsb].
    assert (forall m, sameButGroups ns (done ++ m :: rest) ->
              foldl (adjustStep nonGroups) (done ++ m :: rest, b)
                    (groupPositions (S (length done)) rest)
              = (done ++ m :: ((fun n => if hasType "group" n
                                         then default n (adjustGroup ns nonGroups n)
                                         else n) <$> rest),
                 b || existsb (fun n => hasType "group" n
                                       && bool_decide (is_Some (adjustGroup ns nonGroups n)))
                              rest) ) as Hnext.
    { intros m Hm. specialize (IH (done ++ [m]) b).
      rewrite length_app, Nat.add_1_r, <- !app_assoc in IH. by apply IH. }
    destruct (hasType "group" n) eqn:Hgroup; [|by rewrite Hnext].
    cbn [foldl]. unfold adjustStep at 2. cbn [fst].
    rewrite list_lookup_middle by done.
    rewrite (adjustGroup_sameButGroups ns) by done.
    destruct (adjustGroup ns nonGroups n) as [g'|] eqn:Hadj.
    + assert (<[length done := g']> (done ++ n :: rest) = done ++ g' :: rest) as ->.
      { rewrite insert_app_r_alt by lia. by rewrite Nat.sub_diag. }
      specialize (IH (done ++ [g']) true).
      rewrite length_app, Nat.add_1_r, <- !app_assoc in IH. cbn in IH.
      rewrite IH.
      * cbn. by rewrite orb_true_r.
      * apply Forall2_app_inv_r in Hsame as (ns1 & ns2 & H1 & H2 & ->).
        apply Forall2_app; [done|].
        inversion H2 as [|a ? ns2' ? Ha Hrest]; subst.
        constructor; [|done].
        right. apply adjustGroup_is_group in Hadj.
        destruct Ha as [->|[? ?]]; split; congruence.
    + rewrite Hnext by done. by cbn.
Qed.

(** The loop adjusts every group on its own: the result is the array with
    each node replaced by its adjusted self. *)
Lemma adjustNodes_spec ns :
  adjustNodes ns = (adjusted ns <$> ns, existsb (adjusts ns) ns).
Proof.
  unfold adjustNodes.
  rewrite (adjust_loop ns _ ns [] false); [done|].
  unfold sameButGroups. cbn. clear.
  induction ns; constructor; [by left|done].
Qed.

Lemma Qneb_false a b : Qneb a b = false -> (a == b)%Q.
Proof. unfold Qneb. intros H%negb_false_iff. by apply Qeq_bool_iff. Qed.

Lemma geometryDiffers_false g t : geometryDiffers g t = false -> sameGeometry g t.
Proof.
  unfold geometryDiffers, sameGeometry.
  intros [[[? ?]%orb_false_iff ?]%orb_false_iff ?]%orb_false_iff.
  split_and!; by apply Qneb_false.
Qed.

Section WithHost.
Variable JSON_parse : string -> option JsValue.
Variable JSON_stringify : JsValue -> string.

Local Notation adjustGroupsInCanvas :=
  (Engine.adjustGroupsInCanvas JSON_parse JSON_stringify).

Lemma adjustGroupsInCanvas_run cf w content data ns :
  vault w !! path cf = Some content ->
  JSON_parse content = Some (VObj data) ->
  nodes data = Some ns ->
  adjustGroupsInCanvas cf w
  = (Fulfilled (),
     if existsb (adjusts ns) ns
     then logged (Noticed "已调整白板中的 Group 尺寸与对应卡片完全对齐")
            (modified cf (JSON_stringify (set_nodes (adjusted ns <$> ns) data)) w)
     else logged (Noticed "没有需要调整的 Group") w).
Proof.
  intros Hread Hparse Hnodes. unfold Engine.adjustGroupsInCanvas.
  unfold try_catch, readCanvas, vault_read, vault_modify, notice, reject,
    mbind, mret, async_bind, async_ret.
  rewrite Hread, Hparse, Hnodes, adjustNodes_spec.
  by destruct (existsb (adjusts ns) ns).
Qed.

(** C5: a group with more than one other node centred inside it is left
    as it is; a labelled group with at most one, for whose label the search
    finds a card, ends with exactly the card's rectangle, being rewritten
    (and the document stored) when one of the four numbers differs and left
    alone when none does. Everything but the rectangle of a group, and
    every node that is no group, stays as parsed. *)
Theorem adjustGroupsInCanvas_snaps cf w content data ns i g
  (Hread : vault w !! path cf = Some content)
  (Hparse : JSON_parse content = Some (VObj data))
  (Hnodes : nodes data = Some ns)
  (Hi : ns !! i = Some g)
  (Hg : node_type g = "group") :
  let nonGroups := List.filter (fun n => negb (hasType "group" n)) ns in
  let inside := length (List.filter (centroidInside g) nonGroups) in
  let ns' := (adjustNodes ns).1 in
  let upd := (adjustNodes ns).2 in
  adjustGroupsInCanvas cf w
  = (Fulfilled (),
     if upd
     then logged (Noticed "已调整白板中的 Group 尺寸与对应卡片完全对齐")
            (modified cf (JSON_stringify (set_nodes ns' data)) w)
     else logged (Noticed "没有需要调整的 Group") w)
  /\ (1 < inside -> ns' !! i = Some g)
  /\ (inside <= 1 ->
      forall label card,
        node_label g = Some label -> label <> "" ->
        List.find (matchesLabel label) ns = Some card ->
        exists g',
          ns' !! i = Some g'
          /\ sameGeometry g' card
          /\ sameButGeometry g' g
          /\ (geometryDiffers g card = true ->
              g' = set_geometry (node_x card) (node_y card)
                                (node_width card) (node_height card) g
              /\ upd = true)
          /\ (geometryDiffers g card = false -> g' = g))
  /\ (forall j n, ns !! j = Some n -> node_type n <> "group" -> ns' !! j = Some n)
  /\ length ns' = length ns.
Proof.
  intros nonGroups inside ns' upd. subst ns' upd.
  rewrite adjustNodes_spec. cbn [fst snd].
  assert (hasType "group" g = true) as Hgroup by by apply bool_decide_eq_true.
  split_and!.
  - by eapply adjustGroupsInCanvas_run.
  - intros Hmany. rewrite list_lookup_fmap, Hi. cbn. f_equal.
    unfold adjusted, adjustGroup. rewrite Hgroup. fold nonGroups. fold inside.
    by rewrite (proj2 (Nat.ltb_lt 1 inside)).
  - intros Hfew label card Hlabel Hne Hfind.
    exists (adjusted ns g). rewrite list_lookup_fmap, Hi.
    split; [done|].
    assert (adjustGroup ns nonGroups g
            = if geometryDiffers g card
              then Some (set_geometry (node_x card) (node_y card)
                                      (node_width card) (node_height card) g)
              else None) as Hadj.
    { unfold adjustGroup. fold inside.
      rewrite (proj2 (Nat.ltb_ge 1 inside)) by lia.
      by rewrite Hlabel, bool_decide_eq_false_2, Hfind. }
    unfold adjusted. rewrite Hgroup. fold nonGroups. rewrite Hadj.
    destruct (geometryDiffers g card) eqn:Hdiff; cbn.
    + split_and!; try done.
      * intros _. split; [done|].
        apply existsb_exists. exists g. split.
        -- apply list_elem_of_In, list_elem_of_lookup. by exists i.
        -- unfold adjusts. fold nonGroups. rewrite Hgroup, Hadj. done.
    + split_and!; try done. by apply geometryDiffers_false.
  - intros j n Hj Hn. rewrite list_lookup_fmap, Hj. cbn. f_equal.
    unfold adjusted, hasType. by rewrite bool_decide_eq_false_2.
  - apply length_fmap.
Qed.

End WithHost.

Lemma adjustGroupsInCanvas_snaps_witness :
  let ns := [Demo.looseFrame; Demo.textNode "n1" "# [[note|note]]"] in
  let g := Demo.looseFrame in
  let w := Demo.worldOf [("board.canvas", "c")] in
  let nonGroups := List.filter (fun n => negb (hasType "group" n)) ns in
  let inside := length (List.filter (centroidInside g) nonGroups) in
  let ns' := (adjustNodes ns).1 in
  let upd := (adjustNodes ns).2 in
  adjustGroupsInCanvas (Demo.parseKnown [("c", Demo.framedCanvas)]) Demo.printNodes
                       Demo.board w
  = (Fulfilled (),
     if upd
     then logged (Noticed "已调整白板中的 Group 尺寸与对应卡片完全对齐")
            (modified Demo.board
                      (Demo.printNodes (set_nodes ns' Demo.framedCanvas)) w)
     else logged (Noticed "没有需要调整的 Group") w)
  /\ (1 < inside -> ns' !! 0 = Some g)
  /\ (inside <= 1 ->
      forall label card,
        node_label g = Some label -> label <> "" ->
        List.find (matchesLabel label) ns = Some card ->
        exists g',
          ns' !! 0 = Some g'
          /\ sameGeometry g' card
          /\ sameButGeometry g' g
          /\ (geometryDiffers g card = true ->
              g' = set_geometry (node_x card) (node_y card)
                                (node_width card) (node_height card) g
              /\ upd = true)
          /\ (geometryDiffers g card = false -> g' = g))
  /\ (forall j n, ns !! j = Some n -> node_type n <> "group" -> ns' !! j = Some n)
  /\ length ns' = length ns.
Proof.
  apply (adjustGroupsInCanvas_snaps (Demo.parseKnown [("c", Demo.framedCanvas)])
           Demo.printNodes Demo.board (Demo.worldOf [("board.canvas", "c")])
           "c" Demo.framedCanvas
           [Demo.looseFrame; Demo.textNode "n1" "# [[note|note]]"] 0
           Demo.looseFrame); reflexivity.
Defined.

(** On that canvas the frame takes the rectangle of the card and keeps its
    colour. *)
Example adjustNodes_framedCanvas :
  adjustNodes [Demo.looseFrame; Demo.textNode "n1" "# [[note|note]]"]
  = ([mkNode "g1" "group" None None (Some "note") 0 0 100 100 [("color", JStr "1")];
      Demo.textNode "n1" "# [[note|note]]"], true).
Proof. reflexivity. Qed.

End AdjustFacts.

(** ** The write path keeps what it does not mean to change *)

Module PreservationFacts.
Import JsString Canvas Host CardText Engine CreateFacts SyncFacts AdjustFacts.

Lemma Forall2_eq_refl {A} (l : list A) : Forall2 eq l l.
Proof. induction l; by constructor. Qed.

(** The first loop assigns to text cards of the note only, and only the
    text. *)
Lemma syncTexts_cards link t ns st :
  Forall2 (retextedCard link) ns (fst (syncTexts link t ns st)).
Proof.
  revert st. induction ns as [|n ns IH]; intros st; cbn; [constructor|].
  destruct (isTextCardFor link n) eqn:Hcard.
  - set (d := bool_decide (node_text n <> Some t)).
    specialize (IH (mkSync (updated st || d) (Some (node_id n))
                           (Some (if d then set_text t n else n)))).
    destruct (syncTexts link t ns _) as [ns' st']. cbn in *.
    constructor; [|done].
    destruct d; [right; split; [done|by exists t]|by left].
  - specialize (IH st). destruct (syncTexts link t ns st) as [ns' st']. cbn in *.
    constructor; [by left|done].
Qed.

Lemma syncTextsAndSizes_cards link t w h ns st :
  Forall2 (resizedCard link) ns (fst (syncTextsAndSizes link t w h ns st)).
Proof.
  revert st. induction ns as [|n ns IH]; intros st; cbn; [constructor|].
  destruct (isTextCardFor link n) eqn:Hcard.
  - set (d := bool_decide (node_text n <> Some t) || isSizeDiff n w h).
    specialize (IH (fst st || d, Some (node_id n))).
    destruct (syncTextsAndSizes link t w h ns _) as [ns' st']. cbn in *.
    constructor; [|done].
    destruct d; [right; split; [done|by exists t, w, h]|by left].
  - specialize (IH st).
    destruct (syncTextsAndSizes link t w h ns st) as [ns' st']. cbn in *.
    constructor; [by left|done].
Qed.

(** The adjustment assigns to groups only, and only the rectangle. *)
Lemma adjusted_movedGroup ns n : movedGroup n (adjusted ns n).
Proof.
  unfold adjusted. destruct (hasType "group" n) eqn:Hgroup; [|by left].
  destruct (adjustGroup _ _ n) as [g'|] eqn:Hadj; cbn; [|by left].
  unfold adjustGroup in Hadj. repeat case_match; try done.
  injection Hadj as <-. right. split; [done|]. by eexists _, _, _, _.
Qed.

Lemma syncNodes_kept nf t gid ns :
  exists front kept,
    (syncNodes nf t gid ns).1.1 = front ++ kept
    /\ Forall2 (retextedCard (linkPrefix nf)) ns kept.
Proof.
  unfold syncNodes.
  pose proof (syncTexts_cards (linkPrefix nf) t ns (mkSync false None None))
    as Hkept.
  destruct (syncTexts _ _ ns _) as [ns1 st1]. cbn in Hkept.
  unfold repairGroup. destruct (targetNode _).
  - destruct (existsb _ ns1); cbn.
    + by exists [], ns1.
    + by eexists [_], ns1.
  - by exists [], ns1.
Qed.

Lemma syncNodes_sized_kept nf t w h ns :
  Forall2 (resizedCard (linkPrefix nf)) ns (syncNodes_sized nf t w h ns).1.1.
Proof.
  unfold syncNodes_sized.
  pose proof (syncTextsAndSizes_cards (linkPrefix nf) t w h ns (false, None))
    as Hkept.
  by destruct (syncTextsAndSizes _ _ _ _ ns _) as [ns1 [upd tid]].
Qed.

Lemma adjustNodes_kept ns : Forall2 movedGroup ns (adjustNodes ns).1.
Proof.
  rewrite adjustNodes_spec. cbn.
  apply Forall2_fmap_r, Forall_Forall2_diag, Forall_forall.
  intros n _. apply adjusted_movedGroup.
Qed.

Section WithHost.
Variable getFrontmatter : TFile -> option Frontmatter.
Variable JSON_parse : string -> option JsValue.
Variable JSON_stringify : JsValue -> string.
Variable measureTextPrecisely : string -> Q * Q.

Local Notation writesPreserving :=
  (Engine.writesPreserving JSON_parse JSON_stringify).

Ltac run_async :=
  unfold try_catch, readCanvas, vault_read, vault_modify, notice, console_error,
    reject, mbind, mret, async_bind, async_ret.

Ltac nothing_new :=
  exists []; split; [by rewrite app_nil_r|];
  intros ? ? Hin; by apply elem_of_nil in Hin.

Ltac only_logged :=
  eexists; split; [cbn; rewrite <- ?app_assoc; reflexivity|];
  intros ? ? Hin; repeat (apply elem_of_cons in Hin as [Hin|Hin]; [done|]);
  by apply elem_of_nil in Hin.

Lemma preserved_set_nodes rel data front kept back :
  Forall2 rel (default [] (nodes data)) kept ->
  preserved rel data (set_nodes (front ++ kept ++ back) data).
Proof. intros H. split_and!; try done. by exists front, kept, back. Qed.

Lemma addToCanvas_preserves cf nf id gid :
  writesPreserving eq cf
    (addToCanvas getFrontmatter JSON_parse JSON_stringify measureTextPrecisely
                 cf nf id gid).
Proof.
  intros w. unfold addToCanvas. run_async.
  destruct (vault w !! path cf) as [content|] eqn:Hread; [|only_logged].
  destruct (JSON_parse content) as [[| | | |items|data]|] eqn:Hparse;
    [nothing_new..| | |only_logged].
  - destruct (extractNodeText getFrontmatter nf w) as [[text|] w0] eqn:Htext;
      apply extractNodeText_inv in Htext as [-> _]; [|nothing_new].
    eexists [_]. split; [reflexivity|].
    intros f c [[= -> ->]|Hin%elem_of_nil]%elem_of_cons; [|done].
    split; [done|]. by exists content, (VArr items).
  - destruct (lookupCard _ _ _); [nothing_new|].
    destruct (extractNodeText getFrontmatter nf w) as [[text|] w0] eqn:Htext;
      apply extractNodeText_inv in Htext as [-> _]; [|nothing_new].
    eexists [_]. split; [reflexivity|].
    intros f c [[= -> ->]|Hin%elem_of_nil]%elem_of_cons; [|done].
    split; [done|]. exists content, (VObj data). split_and!; try done.
    eexists. split; [done|].
    rewrite <- (app_nil_l (default [] (nodes data) ++ _)).
    apply preserved_set_nodes, Forall2_eq_refl.
Qed.

Lemma addToCanvas_plain_preserves cf nf id :
  writesPreserving eq cf
    (addToCanvas_plain getFrontmatter JSON_parse JSON_stringify
                       measureTextPrecisely cf nf id).
Proof.
  intros w. unfold addToCanvas_plain. run_async.
  destruct (vault w !! path cf) as [content|] eqn:Hread; [|only_logged].
  destruct (JSON_parse content) as [[| | | |items|data]|] eqn:Hparse;
    [nothing_new..| | |only_logged].
  - destruct (extractNodeText_plain getFrontmatter nf w) as [[text|] w0] eqn:Htext;
      apply extractNodeText_plain_inv in Htext as [-> _]; [|nothing_new].
    eexists [_]. split; [reflexivity|].
    intros f c [[= -> ->]|Hin%elem_of_nil]%elem_of_cons; [|done].
    split; [done|]. by exists content, (VArr items).
  - destruct (lookupCard _ _ _); [nothing_new|].
    destruct (extractNodeText_plain getFrontmatter nf w) as [[text|] w0] eqn:Htext;
      apply extractNodeText_plain_inv in Htext as [-> _]; [|nothing_new].
    eexists [_]. split; [reflexivity|].
    intros f c [[= -> ->]|Hin%elem_of_nil]%elem_of_cons; [|done].
    split; [done|]. exists content, (VObj data). split_and!; try done.
    eexists. split; [done|].
    rewrite <- (app_nil_l (default [] (nodes data) ++ _)).
    apply preserved_set_nodes, Forall2_eq_refl.
Qed.

Lemma syncNodeInCanvas_preserves cf nf gid :
  writesPreserving (retextedCard (linkPrefix nf)) cf
    (syncNodeInCanvas getFrontmatter JSON_parse JSON_stringify cf nf gid).
Proof.
  intros w. unfold syncNodeInCanvas. run_async.
  destruct (vault w !! path cf) as [content|] eqn:Hread; [|nothing_new].
  destruct (JSON_parse content) as [[| | | |items|data]|] eqn:Hparse;
    [nothing_new..| |nothing_new].
  destruct (nodes data) as [ns|] eqn:Hnodes; [|nothing_new].
  destruct (extractNodeText getFrontmatter nf w) as [[text|] w0] eqn:Htext;
    apply extractNodeText_inv in Htext as [-> _]; [|nothing_new].
  destruct (syncNodes_kept nf text gid ns) as (front & kept & Hcut & Hkept).
  destruct (syncNodes nf text gid ns) as [[ns' upd] tid]. cbn in Hcut.
  destruct upd; cbn; [|nothing_new].
  eexists [_]. split; [reflexivity|].
  intros f c [[= -> ->]|Hin%elem_of_nil]%elem_of_cons; [|done].
  split; [done|]. exists content, (VObj data). split_and!; try done.
  eexists. split; [done|].
  rewrite Hcut, <- (app_nil_r kept).
  apply preserved_set_nodes. by rewrite Hnodes.
Qed.

Lemma syncNodeInCanvas_sized_preserves cf nf :
  writesPreserving (resizedCard (linkPrefix nf)) cf
    (syncNodeInCanvas_sized getFrontmatter JSON_parse JSON_stringify
                            measureTextPrecisely cf nf).
Proof.
  intros w. unfold syncNodeInCanvas_sized. run_async.
  destruct (vault w !! path cf) as [content|] eqn:Hread; [|nothing_new].
  destruct (JSON_parse content) as [[| | | |items|data]|] eqn:Hparse;
    [nothing_new..| |nothing_new].
  destruct (nodes data) as [ns|] eqn:Hnodes; [|nothing_new].
  destruct (extractNodeText_plain getFrontmatter nf w) as [[text|] w0] eqn:Htext;
    apply extractNodeText_plain_inv in Htext as [-> _]; [|nothing_new].
  destruct (measureTextPrecisely text) as [width height].
  pose proof (syncNodes_sized_kept nf text width height ns) as Hkept.
  destruct (syncNodes_sized nf text width height ns) as [[ns' upd] tid].
  cbn in Hkept. destruct upd; cbn; [|nothing_new].
  eexists [_]. split; [reflexivity|].
  intros f c [[= -> ->]|Hin%elem_of_nil]%elem_of_cons; [|done].
  split; [done|]. exists content, (VObj data). split_and!; try done.
  eexists. split; [done|].
  rewrite <- (app_nil_l ns'), <- (app_nil_r ns').
  apply preserved_set_nodes. by rewrite Hnodes.
Qed.

Lemma adjustGroupsInCanvas_preserves cf :
  writesPreserving movedGroup cf
    (adjustGroupsInCanvas JSON_parse JSON_stringify cf).
Proof.
  intros w. unfold adjustGroupsInCanvas. run_async.
  destruct (vault w !! path cf) as [content|] eqn:Hread; [|only_logged].
  destruct (JSON_parse content) as [[| | | |items|data]|] eqn:Hparse;
    [only_logged|nothing_new..| |only_logged].
  destruct (nodes data) as [ns|] eqn:Hnodes; [|nothing_new].
  pose proof (adjustNodes_kept ns) as Hkept.
  destruct (adjustNodes ns) as [ns' upd]. cbn in Hkept.
  destruct upd; cbn; [|only_logged].
  eexists [_; _]. split; [by rewrite <- app_assoc|].
  intros f c [[= -> ->]|[?|Hin%elem_of_nil]%elem_of_cons]%elem_of_cons; [|done..].
  split; [done|]. exists content, (VObj data). split_and!; try done.
  eexists. split; [done|].
  rewrite <- (app_nil_l ns'), <- (app_nil_r ns').
  apply preserved_set_nodes. by rewrite Hnodes.
Qed.

(** C7: whatever add, sync and adjust store is the serialization of the
    parsed document with its edges and its other top-level fields as
    parsed and with every parsed node still in place. Add leaves every
    parsed node as it is. Sync leaves every node as it is but the text
    cards of the note, of which it assigns the text (in main.ts the text
    and the size) and nothing else. Adjust leaves every node as it is but
    groups, of which it assigns the rectangle and nothing else. The fields
    of a node the engine does not know are never touched. A parsed value
    that is no object is stored as it is, if at all. *)
Theorem write_path_preserves cf nf id gid :
  writesPreserving eq cf
    (addToCanvas getFrontmatter JSON_parse JSON_stringify measureTextPrecisely
                 cf nf id gid)
  /\ writesPreserving eq cf
       (addToCanvas_plain getFrontmatter JSON_parse JSON_stringify
                          measureTextPrecisely cf nf id)
  /\ writesPreserving (retextedCard (linkPrefix nf)) cf
       (syncNodeInCanvas getFrontmatter JSON_parse JSON_stringify cf nf gid)
  /\ writesPreserving (resizedCard (linkPrefix nf)) cf
       (syncNodeInCanvas_sized getFrontmatter JSON_parse JSON_stringify
                               measureTextPrecisely cf nf)
  /\ writesPreserving movedGroup cf
       (adjustGroupsInCanvas JSON_parse JSON_stringify cf).
Proof.
  split_and!.
  - apply addToCanvas_preserves.
  - apply addToCanvas_plain_preserves.
  - apply syncNodeInCanvas_preserves.
  - apply syncNodeInCanvas_sized_preserves.
  - apply adjustGroupsInCanvas_preserves.
Qed.

End WithHost.

End PreservationFacts.

(** ** Creating twice *)

Module IdempotenceFacts.
Import JsString Canvas Host CardText Engine CreateFacts SyncFacts.

Lemma lookupCard_app p l ns tail :
  lookupCard p l (ns ++ tail)
  = match lookupCard p l ns with
    | Some found => Some found
    | None => lookupCard p l tail
    end.
Proof.
  induction ns as [|n ns IH]; [done|]. cbn.
  destruct (isFileCardFor p n); [done|]. by destruct (isTextCardFor l n).
Qed.

(** A failed lookup: no node is a card of the note. *)
Lemma lookupCard_None p l ns :
  lookupCard p l ns = None ->
  Forall (fun n => isFileCardFor p n = false /\ isTextCardFor l n = false) ns.
Proof.
  induction ns as [|n ns IH]; [constructor|]. cbn.
  destruct (isFileCardFor p n) eqn:Hf; [done|].
  destruct (isTextCardFor l n) eqn:Ht; [done|].
  intros H. constructor; [done|by apply IH].
Qed.

Lemma syncTexts_no_cards l t ns tail st :
  Forall (fun n => isTextCardFor l n = false) ns ->
  syncTexts l t (ns ++ tail) st
  = (ns ++ (syncTexts l t tail st).1, (syncTexts l t tail st).2).
Proof.
  induction 1 as [|n ns Hn _ IH]; cbn.
  - by destruct (syncTexts l t tail st).
  - rewrite Hn, IH. done.
Qed.

Lemma syncTextsAndSizes_no_cards l t w h ns tail st :
  Forall (fun n => isTextCardFor l n = false) ns ->
  syncTextsAndSizes l t w h (ns ++ tail) st
  = (ns ++ (syncTextsAndSizes l t w h tail st).1,
     (syncTextsAndSizes l t w h tail st).2).
Proof.
  induction 1 as [|n ns Hn _ IH]; cbn.
  - by destruct (syncTextsAndSizes l t w h tail st).
  - rewrite Hn, IH. done.
Qed.

Lemma find_no_cards p ns tail :
  Forall (fun n => isFileCardFor p n = false) ns ->
  List.find (isFileCardFor p) (ns ++ tail) = List.find (isFileCardFor p) tail.
Proof. induction 1 as [|n ns Hn _ IH]; [done|]. cbn. by rewrite Hn. Qed.

Lemma isSizeDiff_same n : isSizeDiff n (node_width n) (node_height n) = false.
Proof.
  unfold isSizeDiff. apply orb_false_iff.
  split; apply Qgtb_false; rewrite orZero_same; by cbv.
Qed.

Section WithHost.
Variable getFrontmatter : TFile -> option Frontmatter.
Variable JSON_parse : string -> option JsValue.
Variable JSON_stringify : JsValue -> string.
Variable measureTextPrecisely : string -> Q * Q.

Local Notation addToCanvas :=
  (Engine.addToCanvas getFrontmatter JSON_parse JSON_stringify measureTextPrecisely).
Local Notation addToCanvas_plain :=
  (Engine.addToCanvas_plain getFrontmatter JSON_parse JSON_stringify
                            measureTextPrecisely).
Local Notation syncNodeInCanvas :=
  (Engine.syncNodeInCanvas getFrontmatter JSON_parse JSON_stringify).
Local Notation syncNodeInCanvas_sized :=
  (Engine.syncNodeInCanvas_sized getFrontmatter JSON_parse JSON_stringify
                                 measureTextPrecisely).
Local Notation newCard := (Engine.newCard measureTextPrecisely).
Local Notation withNewCard := (Engine.withNewCard measureTextPrecisely).
Local Notation withNewCard_plain := (Engine.withNewCard_plain measureTextPrecisely).
Local Notation extractNodeText := (CardText.extractNodeText getFrontmatter).
Local Notation extractNodeText_plain :=
  (CardText.extractNodeText_plain getFrontmatter).
Local Notation descriptionOf := (CardText.descriptionOf getFrontmatter).

Ltac run_async :=
  unfold try_catch, readCanvas, vault_read, vault_modify, notice, reject,
    mbind, mret, async_bind, async_ret.

(** How a call of [addToCanvas] on a canvas that is a JSON object can have
    returned an identifier. *)
Lemma addToCanvas_inv cf nf id gid w content data found w1 :
  vault w !! path cf = Some content -> JSON_parse content = Some (VObj data) ->
  addToCanvas cf nf id gid w = (Fulfilled (Some found), w1) ->
  (lookupCard (path nf) (linkPrefix nf) (default [] (nodes data)) = Some found
   /\ w1 = w)
  \/ (lookupCard (path nf) (linkPrefix nf) (default [] (nodes data)) = None
      /\ exists text,
          extractNodeText nf w = (Fulfilled text, w)
          /\ found = id
          /\ w1 = modified cf (JSON_stringify (withNewCard nf id gid text data)) w).
Proof.
  intros Hread Hparse. unfold Engine.addToCanvas. run_async.
  rewrite Hread, Hparse. intros H.
  destruct (lookupCard _ _ _) as [f0|].
  - left. by injection H as -> ->.
  - right. split; [done|].
    destruct (extractNodeText nf w) as [[text|] w0] eqn:Htext;
      apply extractNodeText_inv in Htext as Hw; destruct Hw as [-> _]; [|done].
    exists text. by injection H as -> <-.
Qed.

Lemma addToCanvas_plain_inv cf nf id w content data found w1 :
  vault w !! path cf = Some content -> JSON_parse content = Some (VObj data) ->
  addToCanvas_plain cf nf id w = (Fulfilled (Some found), w1) ->
  (lookupCard (path nf) (linkPrefix nf) (default [] (nodes data)) = Some found
   /\ w1 = w)
  \/ (lookupCard (path nf) (linkPrefix nf) (default [] (nodes data)) = None
      /\ exists text,
          extractNodeText_plain nf w = (Fulfilled text, w)
          /\ found = id
          /\ w1 = modified cf (JSON_stringify (withNewCard_plain id text data)) w).
Proof.
  intros Hread Hparse. unfold Engine.addToCanvas_plain. run_async.
  rewrite Hread, Hparse. intros H.
  destruct (lookupCard _ _ _) as [f0|].
  - left. by injection H as -> ->.
  - right. split; [done|].
    destruct (extractNodeText_plain nf w) as [[text|] w0] eqn:Htext;
      apply extractNodeText_plain_inv in Htext as Hw; destruct Hw as [-> _]; [|done].
    exists text. by injection H as -> <-.
Qed.

(** Storing the canvas does not change what a note elsewhere says. *)
Lemma descriptionOf_modified cf c nf w r :
  path nf <> path cf ->
  descriptionOf nf w = (r, w) ->
  descriptionOf nf (modified cf c w) = (r, modified cf c w).
Proof.
  intros Hne. unfold CardText.descriptionOf.
  destruct (fm_description <$> getFrontmatter nf) as [[| | |]|];
    try (by intros [= <-]);
    unfold vault_read, mbind, mret, async_bind, async_ret; cbn;
    rewrite lookup_insert_ne by done;
    destruct (vault w !! path nf); by intros [= <-].
Qed.

Lemma extractNodeText_modified cf c nf w text :
  path nf <> path cf ->
  extractNodeText nf w = (Fulfilled text, w) ->
  extractNodeText nf (modified cf c w) = (Fulfilled text, modified cf c w).
Proof.
  intros Hne (_ & d & Hd & ->)%extractNodeText_inv.
  apply extractNodeText_of_description. by apply descriptionOf_modified.
Qed.

Lemma extractNodeText_plain_modified cf c nf w text :
  path nf <> path cf ->
  extractNodeText_plain nf w = (Fulfilled text, w) ->
  extractNodeText_plain nf (modified cf c w) = (Fulfilled text, modified cf c w).
Proof.
  intros Hne (_ & d & Hd & ->)%extractNodeText_plain_inv.
  unfold CardText.extractNodeText_plain, mbind, mret, async_bind, async_ret.
  by rewrite (descriptionOf_modified _ _ _ _ _ Hne Hd).
Qed.

(** After a creation, a sync with the same text finds the card and its
    frame in place and changes nothing. *)
Lemma syncNodes_after_create nf id gid gid' d ns :
  lookupCard (path nf) (linkPrefix nf) ns = None ->
  let text := aliasedCard nf d in
  let card := newCard id text ns in
  syncNodes nf text gid' (ns ++ [frameOf gid (basename nf) card; card])
  = (ns ++ [frameOf gid (basename nf) card; card], false, Some id).
Proof.
  intros Hnone%lookupCard_None text card.
  destruct (newCard_fields measureTextPrecisely id text ns)
    as (Hid & Htype & Htext & Hfile & _).
  fold card in Hid, Htype, Htext, Hfile.
  assert (isTextCardFor (linkPrefix nf) card = true) as Hcard.
  { unfold isTextCardFor, hasType. rewrite Htype, Htext. cbn.
    apply aliasedCard_has_prefix. }
  assert (isFileCardFor (path nf) card = false) as Hnofile.
  { unfold isFileCardFor, hasType. by rewrite Htype. }
  unfold syncNodes.
  rewrite syncTexts_no_cards
    by (eapply Forall_impl; [exact Hnone|]; by intros ? [_ ?]).
  cbn [syncTexts]. rewrite Hcard.
  change (isTextCardFor (linkPrefix nf) (frameOf gid (basename nf) card))
    with false.
  cbn [fst snd]. rewrite Htext, bool_decide_eq_false_2 by (by intros []).
  cbn [orb fst snd updated].
  assert (fallBackToFile (path nf) (ns ++ [frameOf gid (basename nf) card; card])
                         (mkSync false (Some (node_id card)) (Some card))
          = mkSync false (Some (node_id card)) (Some card)) as ->.
  { unfold fallBackToFile. destruct (truthyId _); [done|].
    rewrite find_no_cards
      by (eapply Forall_impl; [exact Hnone|]; by intros ? [? _]).
    cbn. by rewrite Hnofile. }
  unfold repairGroup. cbn [targetNode targetNodeId updated].
  rewrite existsb_app. cbn [existsb].
  assert (isGroupOf (basename nf) (frameOf gid (basename nf) card) = true) as ->.
  { unfold isGroupOf, hasType. cbn. by rewrite !bool_decide_eq_true_2. }
  rewrite orb_true_r. by rewrite Hid.
Qed.

Lemma syncNodes_sized_after_create nf id d ns :
  lookupCard (path nf) (linkPrefix nf) ns = None ->
  let text := plainCard nf d in
  let size := measureTextPrecisely text in
  let card := newCard id text ns in
  syncNodes_sized nf text size.1 size.2 (ns ++ [card])
  = (ns ++ [card], false, Some id).
Proof.
  intros Hnone%lookupCard_None text size card.
  destruct (newCard_fields measureTextPrecisely id text ns)
    as (Hid & Htype & Htext & Hfile & _ & _ & Hw & Hh).
  fold card size in Hid, Htype, Htext, Hfile, Hw, Hh.
  assert (isTextCardFor (linkPrefix nf) card = true) as Hcard.
  { unfold isTextCardFor, hasType. rewrite Htype, Htext. cbn.
    apply plainCard_has_prefix. }
  assert (isFileCardFor (path nf) card = false) as Hnofile.
  { unfold isFileCardFor, hasType. by rewrite Htype. }
  unfold syncNodes_sized.
  rewrite syncTextsAndSizes_no_cards
    by (eapply Forall_impl; [exact Hnone|]; by intros ? [_ ?]).
  cbn [syncTextsAndSizes]. rewrite Hcard.
  rewrite Htext, bool_decide_eq_false_2 by (by intros []).
  rewrite <- Hw, <- Hh, isSizeDiff_same. cbn [orb fst snd].
  rewrite Hid.
  destruct (truthyId (Some id)); [done|].
  rewrite find_no_cards
    by (eapply Forall_impl; [exact Hnone|]; by intros ? [? _]).
  cbn. by rewrite Hnofile.
Qed.

End WithHost.


(** On the empty canvas: the first call creates frame and card, the second
    returns the card's identifier and writes nothing. *)
Example addToCanvas_twice :
  let w := Demo.worldOf [("board.canvas", "c")] in
  let w1 := modified Demo.board (Demo.printNodes Demo.carded) w in
  addToCanvas Demo.frontmatter Demo.parseCarded Demo.printNodes Demo.measure
              Demo.board Demo.note "id" "gid" w = (Fulfilled (Some "id"), w1)
  /\ addToCanvas Demo.frontmatter Demo.parseCarded Demo.printNodes Demo.measure
                 Demo.board Demo.note "id2" "gid2" w1 = (Fulfilled (Some "id"), w1)
  /\ nodes Demo.carded
     = Some [groupFrame "gid" "note" (-300) (-200) 300 300;
             textCard "id" Demo.cardText (-300) (-200) 300 300].
Proof. split_and!; reflexivity. Qed.

End IdempotenceFacts.

(** ** More on the link extractor *)

Module LinkScanFacts.
Import JsString LinkExtractor LinkExtractorFacts CreateFacts.

Lemma matchHere_Some s cap :
  matchHere s = Some cap ->
  startsWith s ("[[" +:+ cap +:+ "]]") = true
  /\ oneLine cap = true.
Proof.
  destruct s as [|a s]; [done|]. unfold matchHere.
  destruct (decide (a = "["%char)) as [->|];
    [|by destruct a as [[] [] [] [] [] [] [] []]].
  destruct s as [|b s]; [done|].
  destruct (decide (b = "["%char)) as [->|];
    [|by destruct b as [[] [] [] [] [] [] [] []]].
  intros [H1 H2]%lazyCapture_Some. split; [|done].
  change ("[[" +:+ cap +:+ "]]") with (String "[" (String "[" (cap +:+ "]]"))).
  cbn. by rewrite !decide_True.
Qed.

(** Every match stands in the text with its brackets. *)
Lemma matchAll_includes text cap :
  cap ∈ matchAll text ->
  includes text ("[[" +:+ cap +:+ "]]") = true
  /\ oneLine cap = true.
Proof.
  funelim (matchAll text).
  - intros Hin. by apply elem_of_nil in Hin.
  - intros [->|Hin]%elem_of_cons.
    + apply matchHere_Some in Heq as [? ?]. split; [by apply includes_here|done].
    + destruct (H _ Hin) as [Hinc ?]. split; [|done].
      by apply includes_cons, (includes_drop (String.length cap + 3)).
  - intros Hin. destruct (H _ Hin) as [Hinc ?].
    split; [by apply includes_cons|done].
Qed.

Lemma splitHead_prefix sep s : startsWith s (splitHead sep s) = true.
Proof.
  induction s as [|c s IH]; [done|]. cbn.
  destruct (decide (c = sep)); [done|]. cbn. by rewrite decide_True.
Qed.

Lemma splitHead_oneLine sep s : oneLine s = true -> oneLine (splitHead sep s) = true.
Proof.
  destruct (startsWith_split _ _ (splitHead_prefix sep s)) as [r Hr].
  rewrite Hr at 1. by intros [? _]%oneLine_app_inv.
Qed.

(** X1: every target [extractWikiLinks] returns is non-empty, holds neither
    a bar nor a line terminator (line feed, carriage return, U+2028,
    U+2029), and stands in the text right behind an opening [[[]. *)
Theorem extractWikiLinks_targets text l
  (Hin : l ∈ extractWikiLinks text) :
  l <> ""
  /\ hasChar "|" l = false
  /\ oneLine l = true
  /\ includes text ("[[" +:+ l) = true.
Proof.
  pose proof (extractWikiLinks_no_bar text l Hin) as Hbar.
  unfold extractWikiLinks in Hin.
  apply list_elem_of_omap in Hin as (cap & Hcap & Htarget).
  pose proof (linkTargetOf_nonempty _ _ Htarget) as Hne.
  apply matchAll_includes in Hcap as [Hinc Hline].
  unfold linkTargetOf in Htarget. repeat case_decide; try done.
  injection Htarget as <-. split_and!; try done.
  - by apply splitHead_oneLine.
  - destruct (startsWith_split _ _ (splitHead_prefix "|" cap)) as [r Hr].
    rewrite Hr in Hinc at 1.
    apply (includes_prefix _ _ (r +:+ "]]")).
    replace (("[[" +:+ splitHead "|" cap) +:+ r +:+ "]]")
      with ("[[" +:+ (splitHead "|" cap +:+ r) +:+ "]]"); [done|].
    change (String "[" (String "[" ((splitHead "|" cap +:+ r) +:+ "]]"))
            = String "[" (String "[" (splitHead "|" cap +:+ r +:+ "]]"))).
    by rewrite string_app_assoc.
Qed.

Lemma extractWikiLinks_targets_witness :
  "Alias" <> ""
  /\ hasChar "|" "Alias" = false
  /\ oneLine "Alias" = true
  /\ includes "see [[Alias|Display]]." ("[[" +:+ "Alias") = true.
Proof.
  apply (extractWikiLinks_targets "see [[Alias|Display]]." "Alias").
  vm_compute. apply list_elem_of_here.
Defined.

(** X2: a text without a closing ["]]"], or without an opening ["[["],
    yields no link at all. *)
Theorem extractWikiLinks_unterminated text
  (Hopen : includes text "[[" = false \/ includes text "]]" = false) :
  extractWikiLinks text = [].
Proof.
  unfold extractWikiLinks.
  assert (matchAll text = []) as ->; [|done].
  destruct (matchAll text) as [|cap rest] eqn:Hm; [done|].
  assert (cap ∈ matchAll text) as [Hinc _]%matchAll_includes
      by (rewrite Hm; apply list_elem_of_here).
  destruct Hopen as [H|H].
  - apply (includes_prefix _ "[[" (cap +:+ "]]")) in Hinc. congruence.
  - apply (includes_suffix _ "[[" (cap +:+ "]]")) in Hinc.
    apply (includes_suffix _ cap "]]") in Hinc. congruence.
Qed.

Lemma extractWikiLinks_unterminated_witness :
  extractWikiLinks "an [[unfinished link" = [].
Proof.
  apply extractWikiLinks_unterminated. right. reflexivity.
Defined.

End LinkScanFacts.

(** ** Relationship fields and names *)

Module FieldFacts.
Import JsString LinkExtractor Canvas Host CardText Engine
       LinkExtractorFacts CreateFacts LinkScanFacts.

Lemma matchFirst_skip pre s :
  hasChar "[" pre = false -> matchFirst (pre +:+ s) = matchFirst s.
Proof.
  induction pre as [|c pre IH]; intros H; [done|].
  cbn in H. destruct (decide (c = "["%char)) as [|Hc]; [done|].
  rewrite app_String. cbn [matchFirst].
  assert (matchHere (String c (pre +:+ s)) = None) as ->
      by (by destruct c as [[] [] [] [] [] [] [] []]).
  by apply IH.
Qed.

Lemma matchFirst_link cap post :
  isLinkText cap = true ->
  matchFirst ("[[" +:+ cap +:+ "]]" +:+ post) = Some cap.
Proof.
  intros H.
  change ("[[" +:+ cap +:+ "]]" +:+ post)
    with (String "[" (String "[" (cap +:+ "]]" +:+ post))).
  cbn [matchFirst matchHere]. by rewrite lazyCapture_link.
Qed.

Lemma matchFirst_includes s cap :
  matchFirst s = Some cap -> includes s ("[[" +:+ cap +:+ "]]") = true.
Proof.
  induction s as [|c s IH]; cbn [matchFirst].
  - done.
  - destruct (matchHere (String c s)) as [cap'|] eqn:Hhere.
    + intros [= <-]. by apply includes_here, matchHere_Some.
    + intros H. by apply includes_cons, IH.
Qed.

Lemma matchFirst_unterminated s :
  includes s "]]" = false -> matchFirst s = None.
Proof.
  intros H. destruct (matchFirst s) as [cap|] eqn:Hm; [|done].
  apply matchFirst_includes in Hm.
  apply (includes_suffix _ "[[" (cap +:+ "]]")) in Hm.
  apply (includes_suffix _ cap "]]") in Hm. congruence.
Qed.


Lemma splitHead_no_sep sep s : hasChar sep s = false -> splitHead sep s = s.
Proof.
  induction s as [|c s IH]; [done|]. cbn.
  destruct (decide (c = sep)); [done|]. intros H. by rewrite IH.
Qed.

Lemma isLinkText_bar target alias :
  isLinkText target = true -> isLinkText alias = true ->
  isLinkText (target +:+ "|" +:+ alias) = true.
Proof.
  intros [Ht1 Ht2]%isLinkText_inv [Ha1 Ha2]%isLinkText_inv.
  unfold isLinkText. change ("|" +:+ alias) with (String "|" alias).
  rewrite hasChar_app, Ht2. cbn. rewrite Ha2.
  rewrite oneLine_app_ascii; auto.
Qed.

(** What [parseLinks] makes of one string entry. *)
Lemma parseLinkItem_link pre target alias post :
  hasChar "[" pre = false ->
  target <> "" -> hasChar "|" target = false ->
  isLinkText target = true -> isLinkText alias = true ->
  parseLinkItem (YString (pre +:+ "[[" +:+ (target +:+ "|" +:+ alias) +:+ "]]" +:+ post))
  = Some target.
Proof.
  intros Hpre Hne Hbar Ht Ha. cbn.
  rewrite matchFirst_skip, matchFirst_link by (try done; by apply isLinkText_bar).
  rewrite bool_decide_eq_true_2 by (destruct target; [done|by rewrite app_String]).
  by rewrite splitHead_link.
Qed.

Lemma parseLinkItem_plain_link pre target post :
  hasChar "[" pre = false ->
  target <> "" -> hasChar "|" target = false ->
  isLinkText target = true ->
  parseLinkItem (YString (pre +:+ "[[" +:+ target +:+ "]]" +:+ post)) = Some target.
Proof.
  intros Hpre Hne Hbar Ht. cbn.
  rewrite matchFirst_skip, matchFirst_link by done.
  rewrite bool_decide_eq_true_2 by done. by rewrite splitHead_no_sep.
Qed.

(** X3: [parseLinks] never returns an empty string; a list is read entry by
    entry, entries that are no strings (nested lists among them) being
    dropped; a string without a closing ["]]"] stands for itself; of a
    wiki link, with or without alias, the target is kept. Target and alias
    are link text: no ["]"] and no line terminator (line feed, carriage
    return, U+2028, U+2029) in them. *)
Theorem parseLinks_entries field items plain pre target alias post
  (Hplain : plain <> "" /\ includes plain "]]" = false)
  (Hpre : hasChar "[" pre = false)
  (Htarget : target <> "" /\ hasChar "|" target = false
             /\ isLinkText target = true)
  (Halias : isLinkText alias = true) :
  ("" ∉ parseLinks field)
  /\ parseLinks (YList items)
     = items ≫= (fun item => match item with
                             | YString _ => parseLinks item
                             | _ => []
                             end)
  /\ parseLinks (YString plain) = [plain]
  /\ parseLinks (YString (pre +:+ "[[" +:+ (target +:+ "|" +:+ alias) +:+ "]]" +:+ post))
     = [target]
  /\ parseLinks (YString (pre +:+ "[[" +:+ target +:+ "]]" +:+ post)) = [target].
Proof.
  destruct Hplain as [Hp1 Hp2]. destruct Htarget as (Ht1 & Ht2 & Ht3).
  split_and!.
  - unfold parseLinks. destruct (truthy field); [|by intros ?%elem_of_nil].
    intros [_ H]%list_elem_of_In%filter_In. by apply bool_decide_eq_true in H.
  - unfold parseLinks. cbn [truthy].
    induction items as [|item items IH]; [done|].
    cbn [mbind list_bind]. rewrite <- IH.
    assert (omap parseLinkItem (item :: items)
            = option_list (parseLinkItem item) ++ omap parseLinkItem items) as ->
        by (cbn [omap list_omap]; by destruct (parseLinkItem item)).
    rewrite List.filter_app. f_equal.
    destruct item as [|v|l|b]; try done.
    cbn [truthy]. destruct (decide (v = "")) as [->|Hv]; [done|].
    rewrite (bool_decide_eq_true_2 _ Hv). cbn [omap list_omap].
    by destruct (parseLinkItem (YString v)).
  - unfold parseLinks. cbn [truthy]. rewrite bool_decide_eq_true_2 by done.
    cbn. rewrite matchFirst_unterminated by done.
    cbn. by rewrite bool_decide_eq_true_2.
  - unfold parseLinks.
    assert (truthy (YString (pre +:+ "[[" +:+ (target +:+ "|" +:+ alias) +:+ "]]" +:+ post))
            = true) as ->.
    { cbn. apply bool_decide_eq_true_2. intros H.
      apply (f_equal String.length) in H. revert H.
      clear. induction pre as [|c pre IH]; [done|]. by rewrite app_String. }
    cbn [omap list_omap]. rewrite parseLinkItem_link by done.
    cbn. by rewrite bool_decide_eq_true_2.
  - unfold parseLinks.
    assert (truthy (YString (pre +:+ "[[" +:+ target +:+ "]]" +:+ post)) = true) as ->.
    { cbn. apply bool_decide_eq_true_2. intros H.
      apply (f_equal String.length) in H. revert H.
      clear. induction pre as [|c pre IH]; [done|]. by rewrite app_String. }
    cbn [omap list_omap]. rewrite parseLinkItem_plain_link by done.
    cbn. by rewrite bool_decide_eq_true_2.
Qed.

Lemma parseLinks_entries_witness :
  ("" ∉ parseLinks (YList [YString ""; YString "[[]]"]))
  /\ parseLinks (YList [YString "[[A]]"; YOther true; YList [YString "B"]; YString "C"])
     = [YString "[[A]]"; YOther true; YList [YString "B"]; YString "C"]
         ≫= (fun item => match item with
                         | YString _ => parseLinks item
                         | _ => []
                         end)
  /\ parseLinks (YString "Home") = ["Home"]
  /\ parseLinks (YString ("up: " +:+ "[[" +:+ ("Home" +:+ "|" +:+ "start") +:+ "]]" +:+ "!"))
     = ["Home"]
  /\ parseLinks (YString ("up: " +:+ "[[" +:+ "Home" +:+ "]]" +:+ "!")) = ["Home"].
Proof.
  apply (parseLinks_entries (YList [YString ""; YString "[[]]"])
           [YString "[[A]]"; YOther true; YList [YString "B"]; YString "C"]
           "Home" "up: " "Home" "start" "!"); done.
Defined.

Lemma skipNumbering_split s :
  exists pre, s = pre +:+ skipNumbering s /\ allChars isNumberingChar pre = true.
Proof.
  induction s as [|c s (pre & Hs & Hpre)]; [by exists ""|]. cbn.
  destruct (isNumberingChar c) eqn:Hc; [|by exists ""].
  exists (String c pre). rewrite app_String, <- Hs. cbn. by rewrite Hc.
Qed.

(** X4: [cleanName] only ever drops a prefix: a run of numbering
    characters and the run of blanks behind it, the blanks being those of
    the class [\s] (the ideographic space and the no-break space among
    them); it drops both or nothing, and what it keeps then begins with no
    blank; a name that does not begin with a numbering character is kept
    whole. *)
Theorem cleanName_drops_prefix text :
  (exists num bs,
      text = num +:+ foldr String.append "" bs +:+ cleanName text
      /\ allChars isNumberingChar num = true
      /\ Forall (fun b => b ∈ blanks) bs
      /\ ((num = "" /\ bs = [])
          \/ (num <> "" /\ bs <> [] /\ headOf blanks (cleanName text) = None)))
  /\ match text with
     | String c _ => isNumberingChar c = false -> cleanName text = text
     | "" => cleanName text = ""
     end.
Proof.
  split.
  - unfold cleanName.
    destruct (skipNumbering_split text) as (num & Hnum & Hall).
    destruct (trimStart_split (skipNumbering text)) as (bs & Hbs & Hblank).
    destruct (bool_decide (skipNumbering text <> text)) eqn:H1;
      [|exists "", []; split_and!; auto].
    destruct (bool_decide (trimStart (skipNumbering text) <> skipNumbering text))
      eqn:H2; [|exists "", []; split_and!; auto].
    apply bool_decide_eq_true in H1, H2. cbn [andb].
    exists num, bs. split_and!; try done.
    + rewrite Hnum at 1. by rewrite Hbs at 1.
    + right. split_and!.
      * intros ->. by rewrite app_empty_l in Hnum.
      * intros ->. by rewrite app_empty_l in Hbs.
      * apply trimStart_head.
  - destruct text as [|c rest]; [done|]. unfold cleanName. cbn [skipNumbering].
    intros ->. by rewrite bool_decide_eq_false_2 by (by intros []).
Qed.

(** Two numbering runs are not both dropped in one go. *)
Example cleanName_twice :
  cleanName "1 2 x" = "2 x" /\ cleanName (cleanName "1 2 x") = "x".
Proof. split; reflexivity. Qed.

(** The blank behind the numbering may be an ideographic space or a
    no-break space; a numbering with no blank behind it stays. *)
Example cleanName_wide_blank :
  cleanName ("01" +:+ utf8 "227" "128" "128" +:+ "标题") = "标题"
  /\ cleanName ("1." +:+ String "194" (String "160" "") +:+ "Intro") = "Intro"
  /\ cleanName "2024-plan" = "2024-plan".
Proof. split_and!; reflexivity. Qed.

End FieldFacts.

(** ** More on the reverse reference index *)

Module IndexMoreFacts.
Import JsString LinkExtractor Canvas Host CardText Engine IndexFacts.

Section WithHost.
Variable getFirstLinkpathDest : string -> string -> option TFile.
Variable JSON_parse : string -> option JsValue.

Local Notation indexSingleCanvas :=
  (Engine.indexSingleCanvas getFirstLinkpathDest JSON_parse).
Local Notation referencedPaths :=
  (Engine.referencedPaths getFirstLinkpathDest).
Local Notation referencesOf :=
  (Engine.referencesOf getFirstLinkpathDest).

(** The entry a parsed value gives the canvas: none for [null], whose
    [nodes] cannot be read. *)
Local Notation entryOf file :=
  (fun v : JsValue =>
     match v with
     | VNull => @None (gset string)
     | VObj data => Some (referencedPaths (path file) data)
     | _ => Some (∅ : gset string)
     end).

(** The whole of [indexSingleCanvas], case by case. *)
Lemma indexSingleCanvas_run file w :
  indexSingleCanvas file w
  = (Fulfilled (),
     match (vault w !! path file ≫= JSON_parse) ≫= entryOf file with
     | Some refs =>
         mkWorld (vault w) (<[path file := refs]> (canvasIndex w)) (trace w)
     | None =>
         mkWorld (vault w) (delete (path file) (canvasIndex w))
                 (trace w ++ [ConsoleError ("[BreadcrumbPlugin] Failed to index canvas: "
                                            +:+ path file)])
     end).
Proof.
  unfold Engine.indexSingleCanvas, try_catch, readCanvas, vault_read.
  unfold mbind, async_bind.
  destruct (vault w !! path file) as [content|]; [|done]. cbn.
  by destruct (JSON_parse content) as [[| | | | |]|].
Qed.

Lemma referencesOf_file cp n p :
  node_type n = "file" -> node_file n = Some p -> p ∈ referencesOf cp n.
Proof.
  intros Htype Hfile. unfold Engine.referencesOf, hasType.
  rewrite Htype, Hfile. cbn. by apply elem_of_singleton.
Qed.

(** X5: the index set of a canvas that parses holds exactly the paths of
    its file nodes and the paths of the files the link targets of its text
    nodes resolve to, seen from the canvas's own path. *)
Theorem indexSingleCanvas_exact file w content data
  (Hread : vault w !! path file = Some content)
  (Hparse : JSON_parse content = Some (VObj data)) :
  exists w' refs,
    indexSingleCanvas file w = (Fulfilled (), w')
    /\ canvasIndex w' !! path file = Some refs
    /\ forall p,
        p ∈ refs <->
        (exists n, n ∈ default [] (nodes data)
                   /\ node_type n = "file" /\ node_file n = Some p)
        \/ (exists n t target f,
              n ∈ default [] (nodes data)
              /\ node_type n = "text" /\ node_text n = Some t
              /\ target ∈ extractWikiLinks t
              /\ getFirstLinkpathDest target (path file) = Some f
              /\ path f = p).
Proof.
  eexists _, _. split; [by apply (indexSingleCanvas_ok _ _ _ _ content)|].
  cbn. split; [apply lookup_insert_eq|].
  intros p. rewrite elem_of_referencedPaths. split.
  - intros (n & Hn & Hp).
    apply elem_of_referencesOf in Hp as [[? ?]|(t & target & f & ? & ? & ? & ? & ?)].
    + left. by exists n.
    + right. by exists n, t, target, f.
  - intros [(n & Hn & Htype & Hfile)|(n & t & target & f & Hn & Htype & Htext & Hin & Hres & <-)].
    + exists n. split; [done|]. by apply referencesOf_file.
    + exists n. split; [done|]. by eapply referencesOf_text.
Qed.

(** X6: [indexSingleCanvas] is fulfilled for every file and every world,
    an unreadable file included; it writes no file, leaves the entries of
    all other canvases alone, and leaves an entry for the canvas exactly
    when the file could be read and parsed to a value other than [null];
    for a value that is no object the entry is the empty set. *)
Theorem indexSingleCanvas_contained file w :
  (indexSingleCanvas file w).1 = Fulfilled ()
  /\ vault (indexSingleCanvas file w).2 = vault w
  /\ writes (trace (indexSingleCanvas file w).2) = writes (trace w)
  /\ (forall k, k <> path file ->
        canvasIndex (indexSingleCanvas file w).2 !! k = canvasIndex w !! k)
  /\ (is_Some (canvasIndex (indexSingleCanvas file w).2 !! path file)
      <-> exists content v,
          vault w !! path file = Some content /\ JSON_parse content = Some v
          /\ v <> VNull)
  /\ (forall content v,
        vault w !! path file = Some content -> JSON_parse content = Some v ->
        v <> VNull -> (forall data, v <> VObj data) ->
        canvasIndex (indexSingleCanvas file w).2 !! path file = Some ∅).
Proof.
  rewrite indexSingleCanvas_run. cbn [fst snd].
  destruct (vault w !! path file) as [content|] eqn:Hread; cbn;
    [destruct (JSON_parse content) as [[| | | |items|data]|] eqn:Hparse; cbn|].
  all: split_and!; try done.
  all: try (intros k Hk; by rewrite ?lookup_insert_ne, ?lookup_delete_ne by done).
  all: try (unfold writes; rewrite omap_app; cbn; by rewrite app_nil_r).
  all: rewrite ?lookup_insert_eq, ?lookup_delete_eq.
  all: try (split; [by intros [? ?]|]; by intros (? & ? & ? & ? & ?)).
  all: try (split; [by intros [? ?]|]; intros (? & ? & [= <-] & ? & ?); congruence).
  all: try (split; [|done]; intros _; eexists _, _; by split_and!).
  all: intros ? ? [= <-] Hv Hnull Hobj; try done; try congruence.
Qed.

(** X7: an index entry is derived from the vault alone: whatever the index
    held before, indexing gives the canvas the same entry; indexing twice
    is indexing once; and two canvases can be indexed in either order. *)
Theorem indexSingleCanvas_order_free f g w w2
  (Hvault : vault w2 = vault w)
  (Hne : path f <> path g) :
  let index := fun file w => (indexSingleCanvas file w).2 in
  canvasIndex (index f w2) !! path f = canvasIndex (index f w) !! path f
  /\ canvasIndex (index f (index f w)) = canvasIndex (index f w)
  /\ canvasIndex (index g (index f w)) = canvasIndex (index f (index g w)).
Proof.
  intros index. subst index. cbn beta. rewrite !indexSingleCanvas_run. cbn [snd].
  split_and!.
  - rewrite Hvault.
    destruct ((vault w !! path f ≫= JSON_parse) ≫= entryOf f); cbn;
      by rewrite ?lookup_insert_eq, ?lookup_delete_eq.
  - destruct ((vault w !! path f ≫= JSON_parse) ≫= entryOf f) eqn:Hf; cbn;
      rewrite Hf; cbn.
    + apply insert_insert_eq.
    + apply delete_delete_eq.
  - destruct ((vault w !! path f ≫= JSON_parse) ≫= entryOf f) eqn:Hf;
      destruct ((vault w !! path g ≫= JSON_parse) ≫= entryOf g) eqn:Hg; cbn;
      rewrite ?Hf, ?Hg; cbn.
    + by apply insert_insert_ne.
    + by rewrite delete_insert_ne.
    + by rewrite delete_insert_ne.
    + apply delete_delete.
Qed.

End WithHost.

Lemma indexSingleCanvas_exact_witness :
  exists w' refs,
    indexSingleCanvas Demo.resolveAlias (Demo.parseKnown [("c", Demo.literal)])
      Demo.board (Demo.worldOf [("board.canvas", "c")]) = (Fulfilled (), w')
    /\ canvasIndex w' !! "board.canvas" = Some refs
    /\ forall p,
        p ∈ refs <->
        (exists n, n ∈ default [] (nodes Demo.literal)
                   /\ node_type n = "file" /\ node_file n = Some p)
        \/ (exists n t target f,
              n ∈ default [] (nodes Demo.literal)
              /\ node_type n = "text" /\ node_text n = Some t
              /\ target ∈ extractWikiLinks t
              /\ Demo.resolveAlias target "board.canvas" = Some f
              /\ path f = p).
Proof.
  apply (indexSingleCanvas_exact Demo.resolveAlias
           (Demo.parseKnown [("c", Demo.literal)]) Demo.board
           (Demo.worldOf [("board.canvas", "c")]) "c" Demo.literal); reflexivity.
Defined.

Lemma indexSingleCanvas_order_free_witness :
  let index := fun file w =>
    (indexSingleCanvas Demo.resolveAlias (Demo.parseKnown [("c", Demo.literal)])
                       file w).2 in
  let w := Demo.worldOf [("board.canvas", "c")] in
  let w2 := mkWorld (vault w) {[ "board.canvas" := {[ "old.md" ]} ]} [] in
  canvasIndex (index Demo.board w2) !! "board.canvas"
  = canvasIndex (index Demo.board w) !! "board.canvas"
  /\ canvasIndex (index Demo.board (index Demo.board w))
     = canvasIndex (index Demo.board w)
  /\ canvasIndex (index Demo.note (index Demo.board w))
     = canvasIndex (index Demo.board (index Demo.note w)).
Proof.
  apply (indexSingleCanvas_order_free Demo.resolveAlias
           (Demo.parseKnown [("c", Demo.literal)]) Demo.board Demo.note
           (Demo.worldOf [("board.canvas", "c")])); done.
Defined.

End IndexMoreFacts.

(** ** More on synchronisation *)

Module SyncMoreFacts.
Import JsString LinkExtractor Canvas Host CardText Engine CreateFacts SyncFacts
  IdempotenceFacts.

Lemma lookupCard_None_iff p l ns :
  lookupCard p l ns = None
  <-> Forall (fun n => isFileCardFor p n = false /\ isTextCardFor l n = false) ns.
Proof.
  split; [apply lookupCard_None|].
  induction 1 as [|n ns [Hf Ht] _ IH]; [done|]. cbn. by rewrite Hf, Ht.
Qed.

(** What [lookupCard] returns is the identifier of a card of the note. *)
Lemma lookupCard_Some p l ns i :
  lookupCard p l ns = Some i ->
  exists n, n ∈ ns /\ node_id n = i
            /\ (isTextCardFor l n = true \/ isFileCardFor p n = true).
Proof.
  induction ns as [|n ns IH]; [done|]. cbn.
  destruct (isFileCardFor p n) eqn:Hf.
  { intros [= <-]. exists n. split; [apply list_elem_of_here|]. by split; [|right]. }
  destruct (isTextCardFor l n) eqn:Ht.
  { intros [= <-]. exists n. split; [apply list_elem_of_here|]. by split; [|left]. }
  intros (m & Hm & ? & ?)%IH. exists m. split; [by apply list_elem_of_further|done].
Qed.

Local Notation retext link t :=
  (fun n => if isTextCardFor link n then set_text t n else n).

Lemma set_text_same t n : node_text n = Some t -> set_text t n = n.
Proof. destruct n. cbn. by intros ->. Qed.

(** The first loop, as a map over the array. *)
Lemma syncTexts_map link t ns st :
  (syncTexts link t ns st).1 = retext link t <$> ns.
Proof.
  revert st. induction ns as [|n ns IH]; intros st; [done|]. cbn.
  destruct (isTextCardFor link n).
  - specialize (IH (mkSync (updated st || bool_decide (node_text n <> Some t))
                           (Some (node_id n))
                           (Some (if bool_decide (node_text n <> Some t)
                                  then set_text t n else n)))).
    destruct (syncTexts link t ns _) as [ns' st']. cbn in *. rewrite IH.
    case_bool_decide as Hd; [done|].
    by rewrite set_text_same.
  - specialize (IH st). destruct (syncTexts link t ns st) as [ns' st'].
    cbn in *. by rewrite IH.
Qed.

(** The target the first loop leaves: the one it started with when the
    array has no text card of the note, a text card of the note
    otherwise. *)
Lemma syncTexts_target link t ns st :
  (Forall (fun n => isTextCardFor link n = false) ns
   /\ targetNodeId (syncTexts link t ns st).2 = targetNodeId st
   /\ targetNode (syncTexts link t ns st).2 = targetNode st)
  \/ (exists n, n ∈ ns /\ isTextCardFor link n = true
                /\ targetNodeId (syncTexts link t ns st).2 = Some (node_id n)
                /\ targetNode (syncTexts link t ns st).2 = Some (set_text t n)).
Proof.
  revert st. induction ns as [|n ns IH]; intros st.
  { left. by split; [constructor|]. }
  cbn. destruct (isTextCardFor link n) eqn:Hn.
  - right.
    set (st0 := mkSync _ _ _).
    specialize (IH st0).
    destruct (syncTexts link t ns st0) as [ns' st']. cbn in *.
    destruct IH as [(Hall & -> & ->)|(m & Hm & Hc & -> & ->)].
    + exists n. split; [apply list_elem_of_here|]. split; [done|].
      subst st0. cbn. split; [done|].
      case_bool_decide as Hd; [done|].
      by rewrite set_text_same.
    + exists m. split; [by apply list_elem_of_further|done].
  - specialize (IH st).
    destruct (syncTexts link t ns st) as [ns' st']. cbn in *.
    destruct IH as [(Hall & -> & ->)|(m & Hm & Hc & -> & ->)].
    + left. split; [by constructor|done].
    + right. exists m. split; [by apply list_elem_of_further|done].
Qed.

Lemma find_Some_elem {A} (f : A -> bool) l x :
  List.find f l = Some x -> x ∈ l /\ f x = true.
Proof.
  intros [Hin Hf]%find_some. split; [by apply list_elem_of_In|done].
Qed.

Lemma find_None_Forall {A} (f : A -> bool) l :
  List.find f l = None <-> Forall (fun x => f x = false) l.
Proof.
  induction l as [|a l IH]; cbn.
  - split; [constructor|done].
  - destruct (f a) eqn:Hf.
    + split; [done|]. intros H. inversion H. congruence.
    + rewrite IH. split; [by constructor|]. intros H. by inversion H.
Qed.

Lemma find_retext p link t ns :
  List.find (isFileCardFor p) (retext link t <$> ns)
  = List.find (isFileCardFor p) ns.
Proof.
  induction ns as [|n ns IH]; [done|]. cbn.
  destruct (isTextCardFor link n) eqn:Ht.
  - assert (isFileCardFor p n = false) as Hf.
    { unfold isFileCardFor, isTextCardFor, hasType in *.
      repeat case_bool_decide; try done. congruence. }
    change (isFileCardFor p (set_text t n)) with (isFileCardFor p n).
    by rewrite Hf.
  - by rewrite IH.
Qed.

Lemma existsb_retext b link t ns :
  existsb (isGroupOf b) (retext link t <$> ns) = existsb (isGroupOf b) ns.
Proof.
  induction ns as [|n ns IH]; [done|]. cbn. rewrite IH. f_equal.
  by destruct (isTextCardFor link n).
Qed.

Lemma isGroupOf_frameOf gid b n : isGroupOf b (frameOf gid b n) = true.
Proof. unfold isGroupOf, hasType. cbn. by rewrite !bool_decide_eq_true_2. Qed.

Lemma fileCard_not_textCard p link n :
  isFileCardFor p n = true -> isTextCardFor link n = false.
Proof.
  unfold isFileCardFor, isTextCardFor, hasType.
  repeat case_bool_decide; try done. congruence.
Qed.

(** [syncNodes], case by case: the state [st2] after the two loops holds
    no target when the array has no card of the note, and a card of the
    note as it stands after the first loop otherwise. *)
Lemma syncNodes_cases nf t gid ns :
  let ns1 := retext (linkPrefix nf) t <$> ns in
  exists st2,
    syncNodes nf t gid ns
    = (let '(ns2, upd) := repairGroup gid (basename nf) ns1 st2 in
       (ns2, upd, targetNodeId st2))
    /\ (updated st2 = true <-> ns1 <> ns)
    /\ ((lookupCard (path nf) (linkPrefix nf) ns = None
         /\ targetNodeId st2 = None /\ targetNode st2 = None /\ ns1 = ns)
        \/ (exists n, n ∈ ns
              /\ (isTextCardFor (linkPrefix nf) n = true
                  \/ isFileCardFor (path nf) n = true)
              /\ targetNodeId st2 = Some (node_id n)
              /\ targetNode st2 = Some (retext (linkPrefix nf) t n))).
Proof.
  intros ns1. unfold syncNodes.
  pose proof (syncTexts_map (linkPrefix nf) t ns (mkSync false None None)) as Hmap.
  pose proof (syncTexts_target (linkPrefix nf) t ns (mkSync false None None))
    as Htarget.
  pose proof (syncTexts_spec (linkPrefix nf) t ns (mkSync false None None))
    as [_ Hupd].
  destruct (syncTexts _ _ ns _) as [ns0 st1]. cbn [fst snd updated] in *.
  subst ns0. fold ns1 in Hupd |- *.
  exists (fallBackToFile (path nf) ns1 st1). split; [done|].
  rewrite fallBackToFile_updated. split; [rewrite Hupd; naive_solver|].
  unfold fallBackToFile. subst ns1. rewrite find_retext.
  destruct Htarget as [(Hall & Hid & Hnode)|(n & Hn & Hc & Hid & Hnode)].
  - cbn in Hid, Hnode. rewrite Hid. cbn [truthyId].
    destruct (List.find _ ns) as [f|] eqn:Hfind.
    + apply find_Some_elem in Hfind as [Hf Hfc]. right. exists f.
      cbn. rewrite (fileCard_not_textCard _ _ _ Hfc). by split_and!; [|right|..].
    + left. rewrite Hid, Hnode. split_and!; try done.
      * apply lookupCard_None_iff, Forall_forall. intros m Hm. split.
        -- apply find_None_Forall in Hfind.
           by apply (proj1 (Forall_forall _ _) Hfind).
        -- by apply (proj1 (Forall_forall _ _) Hall).
      * rewrite <- (list_fmap_id ns) at 2. apply list_fmap_ext.
        intros ? m Hm%list_elem_of_lookup_2.
        by rewrite (proj1 (Forall_forall _ _) Hall m Hm).
  - right. rewrite Hid. destruct (truthyId _).
    + exists n. rewrite Hid, Hnode, Hc. by split_and!; [|left|..].
    + destruct (List.find _ ns) as [f|] eqn:Hfind.
      * apply find_Some_elem in Hfind as [Hf Hfc]. exists f.
        cbn. rewrite (fileCard_not_textCard _ _ _ Hfc). by split_and!; [|right|..].
      * exists n. rewrite Hid, Hnode, Hc. by split_and!; [|left|..].
Qed.

(** X8: the identifier [syncNodeInCanvas] computes is [null] exactly when
    the lookup of [addToCanvas] finds no card of the note, and then the
    node array is left as it is; otherwise it is the identifier of a text
    card or a file card of the note. *)
Theorem syncNodes_target nf t gid ns :
  ((syncNodes nf t gid ns).2 = None
   <-> lookupCard (path nf) (linkPrefix nf) ns = None)
  /\ ((syncNodes nf t gid ns).2 = None -> (syncNodes nf t gid ns).1 = (ns, false))
  /\ (forall i, (syncNodes nf t gid ns).2 = Some i ->
        exists n, n ∈ ns /\ node_id n = i
                  /\ (isTextCardFor (linkPrefix nf) n = true
                      \/ isFileCardFor (path nf) n = true)).
Proof.
  destruct (syncNodes_cases nf t gid ns) as (st2 & -> & Hupd & Hcases).
  unfold repairGroup.
  destruct Hcases as [(Hnone & Hid & Hnode & Hsame)|(n & Hn & Hcard & Hid & Hnode)].
  - rewrite Hnode, Hid, Hsame. cbn. split_and!; try done.
    intros _. f_equal. destruct (updated st2); [|done].
    by destruct (proj1 Hupd).
  - rewrite Hnode, Hid.
    assert (lookupCard (path nf) (linkPrefix nf) ns <> None) as Hsome.
    { intros Hno%lookupCard_None. 
      apply (proj1 (Forall_forall _ _) Hno) in Hn as [? ?].
      destruct Hcard; congruence. }
    destruct (existsb _ _); cbn; (split_and!; [done|done|]);
      intros i [= <-]; by exists n.
Qed.

(** X9: the node array [syncNodeInCanvas] leaves: every text card of the
    note carries the regenerated text and every other node is as it was;
    when the note has a card and no group is labelled with its name, a
    frame of the target card's rectangle is put in front, and nothing is
    added otherwise. A note with a card ends with a group of its name. *)
Theorem syncNodes_array nf t gid ns :
  let retexted := (fun n => if isTextCardFor (linkPrefix nf) n
                            then set_text t n else n) <$> ns in
  let found := lookupCard (path nf) (linkPrefix nf) ns in
  let framed := existsb (isGroupOf (basename nf)) ns in
  (found = None \/ framed = true -> (syncNodes nf t gid ns).1.1 = retexted)
  /\ (found <> None /\ framed = false ->
      exists target,
        target ∈ retexted
        /\ (syncNodes nf t gid ns).2 = Some (node_id target)
        /\ (syncNodes nf t gid ns).1.1
           = frameOf gid (basename nf) target :: retexted)
  /\ (found <> None ->
      existsb (isGroupOf (basename nf)) (syncNodes nf t gid ns).1.1 = true).
Proof.
  intros retexted found framed. subst found framed.
  destruct (syncNodes_cases nf t gid ns) as (st2 & -> & Hupd & Hcases).
  fold retexted in Hupd |- *.
  unfold repairGroup. subst retexted. rewrite existsb_retext.
  destruct Hcases as [(Hnone & Hid & Hnode & Hsame)|(n & Hn & Hcard & Hid & Hnode)].
  - rewrite Hnode, Hid. cbn. split_and!; try done. by intros [? _].
  - rewrite Hnode, Hid.
    assert (lookupCard (path nf) (linkPrefix nf) ns <> None) as Hsome.
    { intros Hno%lookupCard_None.
      apply (proj1 (Forall_forall _ _) Hno) in Hn as [? ?].
      destruct Hcard; congruence. }
    destruct (existsb _ ns) eqn:Hgroup; cbn [fst snd].
    + split_and!; [done|by intros [_ ?]|]. intros _. by rewrite existsb_retext.
    + split_and!; [by intros [?|?]| |].
      * intros _. exists (retext (linkPrefix nf) t n). split_and!; [| |done].
        -- apply list_elem_of_fmap. by exists n.
        -- by destruct (isTextCardFor _ n).
      * intros _. cbn. by rewrite isGroupOf_frameOf.
Qed.

Lemma syncTexts_again link t ns st st' :
  includes t link = true ->
  targetNodeId st' = targetNodeId st ->
  targetNode st' = targetNode st ->
  syncTexts link t (syncTexts link t ns st).1 st'
  = ((syncTexts link t ns st).1,
     mkSync (updated st') (targetNodeId (syncTexts link t ns st).2)
            (targetNode (syncTexts link t ns st).2)).
Proof.
  intros Hinc. revert st st'. induction ns as [|n ns IH]; intros st st' Hid Hnode.
  { cbn. destruct st'. cbn in *. by subst. }
  cbn. destruct (isTextCardFor link n) eqn:Hc.
  - set (n' := if bool_decide (node_text n <> Some t) then set_text t n else n).
    assert (isTextCardFor link n' = true /\ node_text n' = Some t
            /\ node_id n' = node_id n) as (Hc' & Ht' & Hi').
    { subst n'. case_bool_decide as Hd.
      - split; [|done]. unfold isTextCardFor, hasType in *. cbn.
        apply andb_true_iff in Hc as [-> _]. done.
      - done. }
    set (st0 := mkSync _ _ (Some n')).
    specialize (IH st0 (mkSync (updated st') (Some (node_id n')) (Some n'))).
    destruct (syncTexts link t ns st0) as [ns' st1]. cbn [fst snd] in *.
    cbn [syncTexts]. rewrite Hc', Ht', bool_decide_eq_false_2 by (by intros []).
    rewrite orb_false_r, IH; [done|by rewrite Hi'|done].
  - specialize (IH st st' Hid Hnode).
    destruct (syncTexts link t ns st) as [ns' st1]. cbn [fst snd] in *.
    cbn [syncTexts]. by rewrite Hc, IH.
Qed.

(** A second pass with the same text changes nothing and finds the same
    target. *)
Lemma syncNodes_again nf t gid gid' ns :
  includes t (linkPrefix nf) = true ->
  syncNodes nf t gid' (syncNodes nf t gid ns).1.1
  = ((syncNodes nf t gid ns).1.1, false, (syncNodes nf t gid ns).2).
Proof.
  intros Hinc.
  pose proof (syncTexts_again (linkPrefix nf) t ns (mkSync false None None)
                (mkSync false None None) Hinc eq_refl eq_refl) as Hagain.
  unfold syncNodes at 2 3 4.
  destruct (syncTexts (linkPrefix nf) t ns _) as [ns1 st1].
  cbn [fst snd updated] in *.
  assert (forall front,
             Forall (fun n => isFileCardFor (path nf) n = false) front ->
             fallBackToFile (path nf) (front ++ ns1)
               (mkSync false (targetNodeId st1) (targetNode st1))
             = mkSync false (targetNodeId (fallBackToFile (path nf) ns1 st1))
                      (targetNode (fallBackToFile (path nf) ns1 st1))) as Hfb.
  { intros front Hfront. unfold fallBackToFile. cbn [targetNodeId updated].
    rewrite find_no_cards by done.
    destruct (truthyId _); [done|]. by destruct (List.find _ ns1). }
  unfold repairGroup.
  destruct (targetNode (fallBackToFile (path nf) ns1 st1)) as [tg|] eqn:Htg.
  - destruct (existsb (isGroupOf (basename nf)) ns1) eqn:Hg; cbn [fst snd].
    + unfold syncNodes. rewrite Hagain, (Hfb [] (Forall_nil_2 _) : fallBackToFile _ ns1 _ = _).
      unfold repairGroup. cbn [targetNode targetNodeId updated].
      by rewrite Hg.
    + unfold syncNodes. cbn [syncTexts].
      change (isTextCardFor (linkPrefix nf) (frameOf gid (basename nf) tg))
        with false.
      cbn match. rewrite Hagain.
      rewrite (Hfb [frameOf gid (basename nf) tg] ltac:(by constructor)
               : fallBackToFile _ (_ :: ns1) _ = _).
      unfold repairGroup. cbn [targetNode targetNodeId updated app existsb].
      by rewrite isGroupOf_frameOf.
  - cbn [fst snd]. unfold syncNodes. rewrite Hagain, (Hfb [] (Forall_nil_2 _) : fallBackToFile _ ns1 _ = _).
    unfold repairGroup. by cbn [targetNode targetNodeId updated].
Qed.

(** The flag and the target do not depend on the identifier handed out for
    a frame. *)
Lemma syncNodes_any_groupId nf t gid gid' ns :
  (syncNodes nf t gid' ns).1.2 = (syncNodes nf t gid ns).1.2
  /\ (syncNodes nf t gid' ns).2 = (syncNodes nf t gid ns).2
  /\ ((syncNodes nf t gid ns).1.2 = false ->
      (syncNodes nf t gid' ns).1.1 = (syncNodes nf t gid ns).1.1).
Proof.
  unfold syncNodes. destruct (syncTexts _ _ ns _) as [ns1 st1].
  unfold repairGroup.
  destruct (targetNode (fallBackToFile (path nf) ns1 st1)); [|done].
  by destruct (existsb _ ns1).
Qed.

Section WithHost.
Variable getFrontmatter : TFile -> option Frontmatter.
Variable JSON_parse : string -> option JsValue.
Variable JSON_stringify : JsValue -> string.

Local Notation syncNodeInCanvas :=
  (Engine.syncNodeInCanvas getFrontmatter JSON_parse JSON_stringify).
Local Notation extractNodeText := (CardText.extractNodeText getFrontmatter).

(** X10: [syncNodeInCanvas] is idempotent: a second call for the same
    canvas and note, right after the first, returns the same identifier
    and leaves the world, the canvas file included, as the first call left
    it. What the first call stored is assumed to be read back as the
    document it was serialized from. *)
Theorem syncNodeInCanvas_idempotent cf nf gid gid' w content data ns text
  (Hpaths : path nf <> path cf)
  (Hread : vault w !! path cf = Some content)
  (Hparse : JSON_parse content = Some (VObj data))
  (Hnodes : nodes data = Some ns)
  (Htext : extractNodeText nf w = (Fulfilled text, w))
  (Hcodec : JSON_parse (JSON_stringify
                          (set_nodes (syncNodes nf text gid ns).1.1 data))
            = Some (VObj (set_nodes (syncNodes nf text gid ns).1.1 data))) :
  syncNodeInCanvas cf nf gid' (syncNodeInCanvas cf nf gid w).2
  = syncNodeInCanvas cf nf gid w.
Proof.
  assert (includes text (linkPrefix nf) = true) as Hinc.
  { apply extractNodeText_inv in Htext as (_ & d & _ & ->).
    apply aliasedCard_has_prefix. }
  rewrite (syncNodeInCanvas_run getFrontmatter JSON_parse JSON_stringify
             cf nf gid w content data ns text Hread Hparse Hnodes Htext).
  cbn [snd].
  destruct (syncNodes_any_groupId nf text gid gid' ns) as (Hupd & Htid & Hsame).
  destruct ((syncNodes nf text gid ns).1.2) eqn:Hfirst.
  - rewrite (syncNodeInCanvas_run getFrontmatter JSON_parse JSON_stringify
               cf nf gid' _ _ _ (syncNodes nf text gid ns).1.1 text
               (lookup_insert_eq _ _ _) Hcodec eq_refl
               (extractNodeText_modified _ _ _ _ _ _ Hpaths Htext)).
    by rewrite (syncNodes_again nf text gid gid' ns Hinc).
  - rewrite (syncNodeInCanvas_run getFrontmatter JSON_parse JSON_stringify
               cf nf gid' w content data ns text Hread Hparse Hnodes Htext).
    by rewrite Hupd, Htid.
Qed.

End WithHost.

Lemma syncNodeInCanvas_idempotent_witness :
  let w := Demo.worldOf [("board.canvas", "c")] in
  let synced :=
    set_nodes (syncNodes Demo.note Demo.cardText "gid"
                         [Demo.textNode "n1" "# [[note|note]] old"]).1.1
              Demo.staleCanvas in
  let parse := Demo.parseKnown [("c", Demo.staleCanvas);
                                (Demo.printNodes synced, synced)] in
  syncNodeInCanvas Demo.frontmatter parse Demo.printNodes Demo.board Demo.note
    "gid2"
    (syncNodeInCanvas Demo.frontmatter parse Demo.printNodes Demo.board
                      Demo.note "gid" w).2
  = syncNodeInCanvas Demo.frontmatter parse Demo.printNodes Demo.board
                     Demo.note "gid" w.
Proof.
  intros w synced parse.
  apply (syncNodeInCanvas_idempotent Demo.frontmatter parse Demo.printNodes
           Demo.board Demo.note "gid" "gid2" w "c" Demo.staleCanvas
           [Demo.textNode "n1" "# [[note|note]] old"] Demo.cardText);
    [done|reflexivity..].
Defined.

End SyncMoreFacts.

(** ** More on the group geometry adjustment *)

Module AdjustMoreFacts.
Import JsString Canvas Host CardText Engine AdjustFacts.

Lemma adjusted_is_group ns n :
  hasType "group" (adjusted ns n) = hasType "group" n.
Proof.
  unfold adjusted. destruct (hasType "group" n) eqn:Hn; [|done].
  destruct (adjustGroup ns _ n) as [g'|] eqn:Hadj; [|done]. cbn.
  apply adjustGroup_is_group in Hadj. congruence.
Qed.

Lemma filter_adjusted ns l :
  List.filter (fun n => negb (hasType "group" n)) (adjusted ns <$> l)
  = List.filter (fun n => negb (hasType "group" n)) l.
Proof.
  induction l as [|n l IH]; [done|]. cbn.
  rewrite adjusted_is_group, IH.
  destruct (hasType "group" n) eqn:Hn; [done|]. cbn.
  unfold adjusted. by rewrite Hn.
Qed.

Lemma sameButGroups_adjusted ns l : sameButGroups l (adjusted ns <$> l).
Proof.
  induction l as [|n l IH]; constructor; [|done].
  destruct (hasType "group" n) eqn:Hn.
  - right. by rewrite adjusted_is_group.
  - left. unfold adjusted. by rewrite Hn.
Qed.

Lemma geometryDiffers_snapped t g :
  geometryDiffers (set_geometry (node_x t) (node_y t) (node_width t)
                                (node_height t) g) t = false.
Proof.
  unfold geometryDiffers, Qneb. cbn. by rewrite !Qeq_bool_refl.
Qed.

(** A group the round has changed is left alone by a second round. *)
Lemma adjustGroup_again ns nonGroups g g' :
  adjustGroup ns nonGroups g = Some g' -> adjustGroup ns nonGroups g' = None.
Proof.
  unfold adjustGroup at 1.
  destruct (1 <? _)%nat; [done|].
  destruct (node_label g) as [label|] eqn:Hlabel; [|done].
  case_bool_decide as Hne; [done|].
  destruct (List.find (matchesLabel label) ns) as [t|] eqn:Hfind; [|done].
  destruct (geometryDiffers g t); [|done]. intros [= <-].
  unfold adjustGroup. destruct (1 <? _)%nat; [done|]. cbn [node_label set_geometry].
  rewrite Hlabel, bool_decide_eq_false_2, Hfind by done.
  by rewrite geometryDiffers_snapped.
Qed.

(** A second pass over the adjusted array changes nothing. *)
Lemma adjustNodes_again ns :
  adjustNodes (adjustNodes ns).1 = ((adjustNodes ns).1, false).
Proof.
  rewrite (adjustNodes_spec ns). cbn [fst].
  rewrite adjustNodes_spec.
  assert (forall n,
            adjusted (adjusted ns <$> ns) (adjusted ns n) = adjusted ns n
            /\ adjusts (adjusted ns <$> ns) (adjusted ns n) = false) as Hsettled.
  { intros n. unfold adjusted at 1, adjusts.
    rewrite adjusted_is_group, filter_adjusted.
    rewrite (adjustGroup_sameButGroups ns) by apply sameButGroups_adjusted.
    destruct (hasType "group" n) eqn:Hn; [|done].
    assert (adjustGroup ns (List.filter (fun m => negb (hasType "group" m)) ns)
                        (adjusted ns n) = None) as ->; [|done].
    unfold adjusted. rewrite Hn.
    destruct (adjustGroup ns _ n) as [g'|] eqn:Hadj; [|done]. cbn.
    by eapply adjustGroup_again. }
  f_equal.
  - rewrite <- list_fmap_compose. apply list_fmap_ext.
    intros ? n _. apply Hsettled.
  - apply not_true_is_false. intros (m & Hm & Hadj)%existsb_exists.
    apply list_elem_of_In, list_elem_of_fmap in Hm as (n & -> & _).
    by rewrite (proj2 (Hsettled n)) in Hadj.
Qed.

Section WithHost.
Variable JSON_parse : string -> option JsValue.
Variable JSON_stringify : JsValue -> string.

Local Notation adjustGroupsInCanvas :=
  (Engine.adjustGroupsInCanvas JSON_parse JSON_stringify).

(** X11: [adjustGroupsInCanvas] is idempotent: called again right after a
    call, it finds no group to adjust, says so, and stores nothing. What
    the first call stored is assumed to be read back as the document it
    was serialized from. *)
Theorem adjustGroupsInCanvas_idempotent cf w content data ns
  (Hread : vault w !! path cf = Some content)
  (Hparse : JSON_parse content = Some (VObj data))
  (Hnodes : nodes data = Some ns)
  (Hcodec : JSON_parse (JSON_stringify (set_nodes (adjustNodes ns).1 data))
            = Some (VObj (set_nodes (adjustNodes ns).1 data))) :
  adjustNodes (adjustNodes ns).1 = ((adjustNodes ns).1, false)
  /\ adjustGroupsInCanvas cf (adjustGroupsInCanvas cf w).2
     = (Fulfilled (),
        logged (Noticed "没有需要调整的 Group") (adjustGroupsInCanvas cf w).2).
Proof.
  split; [apply adjustNodes_again|].
  pose proof (adjustNodes_again ns) as Hagain.
  rewrite (adjustGroupsInCanvas_run JSON_parse JSON_stringify cf w content data ns)
    by done.
  rewrite (adjustNodes_spec ns) in Hcodec, Hagain. cbn [fst snd] in *.
  rewrite adjustNodes_spec in Hagain. injection Hagain as _ Hquiet.
  destruct (existsb (adjusts ns) ns) eqn:Hupd; cbn [snd].
  - rewrite (adjustGroupsInCanvas_run JSON_parse JSON_stringify cf _ _ _
               (adjusted ns <$> ns) (lookup_insert_eq _ _ _) Hcodec eq_refl).
    by rewrite Hquiet.
  - rewrite (adjustGroupsInCanvas_run JSON_parse JSON_stringify cf
               (logged _ w) content data ns Hread Hparse Hnodes).
    by rewrite Hupd.
Qed.

End WithHost.

Lemma adjustGroupsInCanvas_idempotent_witness :
  let ns := [Demo.looseFrame; Demo.textNode "n1" "# [[note|note]]"] in
  let w := Demo.worldOf [("board.canvas", "c")] in
  let snapped := set_nodes (adjustNodes ns).1 Demo.framedCanvas in
  let parse := Demo.parseKnown [("c", Demo.framedCanvas);
                                (Demo.printNodes snapped, snapped)] in
  adjustNodes (adjustNodes ns).1 = ((adjustNodes ns).1, false)
  /\ adjustGroupsInCanvas parse Demo.printNodes Demo.board
       (adjustGroupsInCanvas parse Demo.printNodes Demo.board w).2
     = (Fulfilled (),
        logged (Noticed "没有需要调整的 Group")
               (adjustGroupsInCanvas parse Demo.printNodes Demo.board w).2).
Proof.
  intros ns w snapped parse.
  apply (adjustGroupsInCanvas_idempotent parse Demo.printNodes Demo.board w
           "c" Demo.framedCanvas ns); reflexivity.
Defined.


End AdjustMoreFacts.

(** ** Creation, seen by the index and by the layout *)

Module ComposeFacts.
Import JsString LinkExtractor Canvas Host CardText Engine LinkExtractorFacts
  IndexFacts CreateFacts.

Lemma cleanName_suffix text : exists pre, text = pre +:+ cleanName text.
Proof.
  unfold cleanName.
  destruct (FieldFacts.skipNumbering_split text) as (num & Hnum & _).
  destruct (trimStart_split (skipNumbering text)) as (bs & Hbs & _).
  destruct (_ && _); [|by exists ""].
  exists (num +:+ foldr String.append "" bs).
  rewrite Hnum at 1. rewrite Hbs at 1. by rewrite string_app_assoc.
Qed.

Lemma isLinkText_suffix pre s : isLinkText (pre +:+ s) = true -> isLinkText s = true.
Proof.
  intros [[_ Hline]%oneLine_app_inv Hclose]%isLinkText_inv.
  rewrite hasChar_app in Hclose. apply orb_false_iff in Hclose as [_ Hclose].
  unfold isLinkText. by rewrite Hline, Hclose.
Qed.

(** The links of a generated card text: the note itself comes first. *)
Lemma extractWikiLinks_aliasedCard f d :
  basename f <> "" -> hasChar "|" (basename f) = false ->
  isLinkText (basename f) = true ->
  extractWikiLinks (aliasedCard f d)
  = basename f :: extractWikiLinks (LF +:+ LF +:+ d).
Proof.
  intros Hne Hbar Hchars.
  assert (isLinkText (basename f +:+ "|" +:+ cleanName (basename f)) = true)
    as Hcap.
  { apply FieldFacts.isLinkText_bar; [done|].
    destruct (cleanName_suffix (basename f)) as (pre & Hpre).
    rewrite Hpre in Hchars. by apply isLinkText_suffix in Hchars. }
  assert (aliasedCard f d
          = String "#" (String " "
              ("[[" +:+ (basename f +:+ "|" +:+ cleanName (basename f))
                    +:+ "]]" +:+ (LF +:+ LF +:+ d)))) as ->.
  { unfold aliasedCard.
    change ("# [[" +:+ ?x) with (String "#" (String " " ("[[" +:+ x))).
    do 2 f_equal.
    change ("[[" +:+ ?x) with (String "[" (String "[" x)).
    do 2 f_equal. by rewrite !string_app_assoc. }
  unfold extractWikiLinks. rewrite !matchAll_char by done.
  fold (extractWikiLinks ("[[" +:+ (basename f +:+ "|" +:+ cleanName (basename f))
                               +:+ "]]" +:+ (LF +:+ LF +:+ d))).
  rewrite extractWikiLinks_link by done.
  by rewrite linkTargetOf_link.
Qed.

Section WithHost.
Variable getFrontmatter : TFile -> option Frontmatter.
Variable getFirstLinkpathDest : string -> string -> option TFile.
Variable JSON_parse : string -> option JsValue.
Variable JSON_stringify : JsValue -> string.
Variable measureTextPrecisely : string -> Q * Q.

Local Notation addToCanvas :=
  (Engine.addToCanvas getFrontmatter JSON_parse JSON_stringify measureTextPrecisely).
Local Notation indexSingleCanvas :=
  (Engine.indexSingleCanvas getFirstLinkpathDest JSON_parse).
Local Notation referencedPaths :=
  (Engine.referencedPaths getFirstLinkpathDest).
Local Notation newCard := (Engine.newCard measureTextPrecisely).
Local Notation withNewCard := (Engine.withNewCard measureTextPrecisely).
Local Notation extractNodeText := (CardText.extractNodeText getFrontmatter).

(** X12: once [addToCanvas] has created the card of a note, indexing the
    canvas lists the note among the files the canvas refers to, next to
    everything the canvas referred to before. The note's name is assumed
    to be a link target (non-empty, free of bars, closing brackets and the
    line terminators, U+2028 and U+2029 among them) that resolves to the
    note; what was stored, to be read back as
    the document it was serialized from. *)
Theorem addToCanvas_then_indexed cf nf id gid w content data text
  (Hread : vault w !! path cf = Some content)
  (Hparse : JSON_parse content = Some (VObj data))
  (Hnone : lookupCard (path nf) (linkPrefix nf) (default [] (nodes data)) = None)
  (Htext : extractNodeText nf w = (Fulfilled text, w))
  (Hcodec : JSON_parse (JSON_stringify (withNewCard nf id gid text data))
            = Some (VObj (withNewCard nf id gid text data)))
  (Hname : basename nf <> "" /\ hasChar "|" (basename nf) = false
           /\ isLinkText (basename nf) = true)
  (Hresolve : getFirstLinkpathDest (basename nf) (path cf) = Some nf) :
  exists refs,
    canvasIndex (indexSingleCanvas cf (addToCanvas cf nf id gid w).2).2
      !! path cf = Some refs
    /\ path nf ∈ refs
    /\ referencedPaths (path cf) data ⊆ refs.
Proof.
  destruct Hname as (Hne & Hbar & Hchars).
  rewrite (addToCanvas_created getFrontmatter JSON_parse JSON_stringify
             measureTextPrecisely cf nf id gid w content data text)
    by done.
  cbn [snd].
  rewrite (indexSingleCanvas_ok getFirstLinkpathDest JSON_parse cf _
             (JSON_stringify (withNewCard nf id gid text data))
             (withNewCard nf id gid text data));
    [|apply lookup_insert_eq|done].
  cbn [snd canvasIndex]. eexists. split; [apply lookup_insert_eq|]. split.
  - apply elem_of_referencedPaths.
    exists (newCard id text (default [] (nodes data))). split.
    + cbn. apply list_elem_of_In, in_or_app. right. right. by left.
    + destruct (newCard_fields measureTextPrecisely id text
                  (default [] (nodes data))) as (_ & Htype & Htxt & _).
      apply extractNodeText_inv in Htext as (_ & d & _ & ->).
      eapply referencesOf_text; [done|done| |done].
      rewrite extractWikiLinks_aliasedCard by done. apply list_elem_of_here.
  - intros p (n & Hn & Hp)%elem_of_referencedPaths.
    apply elem_of_referencedPaths. exists n. split; [|done].
    cbn. apply list_elem_of_In, in_or_app. left. by apply list_elem_of_In.
Qed.

(** X13: a created card is put clear of everything on the canvas: its left
    edge lies at least 100 right of the right edge of every existing node,
    and never left of 100 on a canvas that has nodes; the frame that comes
    with it has the card's rectangle. *)
Theorem newCard_clear_of_nodes id gid label text ns n
  (Hn : n ∈ ns) :
  (rightEdge n + 100 <= node_x (newCard id text ns))%Q
  /\ (100 <= node_x (newCard id text ns))%Q
  /\ sameGeometry (frameOf gid label (newCard id text ns)) (newCard id text ns).
Proof.
  destruct (newCard_fields measureTextPrecisely id text ns)
    as (_ & _ & _ & _ & Hx & _).
  rewrite Hx. destruct ns as [|m rest]; [by apply elem_of_nil in Hn|].
  destruct (placement_nonempty m rest) as ([_ Hub] & _).
  split_and!.
  - apply Qplus_le_l, Hub, list_elem_of_further, list_elem_of_fmap. by exists n.
  - assert (0 <= (placement (m :: rest)).1)%Q as H0
        by apply Hub, list_elem_of_here.
    apply (Qplus_le_l _ _ 100) in H0. by rewrite Qplus_0_l in H0.
  - by split_and!.
Qed.

End WithHost.

Lemma addToCanvas_then_indexed_witness :
  let w := Demo.worldOf [("board.canvas", "c")] in
  let resolve := fun linkpath (_ : string) =>
    if bool_decide (linkpath = "note") then Some Demo.note else None in
  exists refs,
    canvasIndex
      (indexSingleCanvas resolve Demo.parseCarded Demo.board
         (addToCanvas Demo.frontmatter Demo.parseCarded Demo.printNodes
                      Demo.measure Demo.board Demo.note "id" "gid" w).2).2
      !! "board.canvas" = Some refs
    /\ "note.md" ∈ refs
    /\ referencedPaths resolve "board.canvas" Demo.emptyCanvas ⊆ refs.
Proof.
  intros w resolve.
  apply (addToCanvas_then_indexed Demo.frontmatter resolve Demo.parseCarded
           Demo.printNodes Demo.measure Demo.board Demo.note "id" "gid" w
           "c" Demo.emptyCanvas Demo.cardText);
    [reflexivity..|by split_and!|reflexivity].
Defined.

Lemma newCard_clear_of_nodes_witness :
  let n := Demo.textNode "n1" "elsewhere" in
  (rightEdge n + 100 <= node_x (newCard Demo.measure "id" "t" [n]))%Q
  /\ (100 <= node_x (newCard Demo.measure "id" "t" [n]))%Q
  /\ sameGeometry (frameOf "gid" "note" (newCard Demo.measure "id" "t" [n]))
                  (newCard Demo.measure "id" "t" [n]).
Proof.
  apply (newCard_clear_of_nodes Demo.measure "id" "gid" "note" "t"
           [Demo.textNode "n1" "elsewhere"] (Demo.textNode "n1" "elsewhere")).
  apply list_elem_of_here.
Defined.

End ComposeFacts.

(** ** More on the navigation path *)

Module PathMoreFacts.
Import Canvas Host Engine.

Section WithHost.
Variable getFrontmatter : TFile -> option Frontmatter.
Variable getFirstLinkpathDest : string -> string -> option TFile.

Local Notation getParentFile :=
  (Engine.getParentFile getFrontmatter getFirstLinkpathDest).
Local Notation climb := (Engine.climb getFrontmatter getFirstLinkpathDest).
Local Notation getBreadcrumbPath :=
  (Engine.getBreadcrumbPath getFrontmatter getFirstLinkpathDest).

(** A result does not depend on the fuel that was left over. *)
Lemma climb_more_fuel fuel fuel' curr seen trail result :
  climb fuel curr seen trail = Some result ->
  fuel <= fuel' ->
  climb fuel' curr seen trail = Some result.
Proof.
  revert fuel' curr seen trail.
  induction fuel as [|fuel IH]; intros fuel' curr seen trail; [done|].
  destruct fuel' as [|fuel']; [lia|]. cbn.
  destruct curr as [c|]; [|done].
  destruct (decide (path c ∈ seen)); [done|].
  intros H ?. apply IH; [done|lia].
Qed.

(** The loop invariant of [getBreadcrumbPath]: the trail is a chain of
    parents with pairwise different paths, [seen] holds its paths, and
    [curr] is the parent of its head. *)
Lemma climb_chain fuel curr seen h trail result :
  climb fuel curr seen (h :: trail) = Some result ->
  (forall p, p ∈ seen <-> p ∈ path <$> h :: trail) ->
  NoDup (path <$> h :: trail) ->
  (forall i a b, (h :: trail) !! i = Some a -> (h :: trail) !! S i = Some b ->
                 getParentFile b = Some a) ->
  getParentFile h = curr ->
  (exists pre, result = pre ++ h :: trail)
  /\ NoDup (path <$> result)
  /\ (forall i a b, result !! i = Some a -> result !! S i = Some b ->
                    getParentFile b = Some a)
  /\ (forall top, head result = Some top ->
        getParentFile top = None
        \/ exists p, getParentFile top = Some p /\ path p ∈ path <$> result).
Proof.
  revert curr seen h trail.
  induction fuel as [|fuel IH]; intros curr seen h trail; [done|]. cbn.
  intros Hrun Hseen Hnodup Hchain Hparent.
  destruct curr as [c|].
  - destruct (decide (path c ∈ seen)) as [Hin|Hnew].
    + injection Hrun as <-. split_and!; [by exists []|done|done|].
      intros top [= <-]. right. exists c. split; [done|]. by apply Hseen.
    + destruct (IH _ _ _ _ Hrun) as ([pre ->] & ? & ? & ?).
      * intros p. rewrite elem_of_union, elem_of_singleton, Hseen.
        rewrite !fmap_cons, !elem_of_cons. done.
      * rewrite fmap_cons. constructor; [|done]. by rewrite <- Hseen.
      * intros [|i] a b; cbn.
        -- by intros [= <-] [= <-].
        -- apply Hchain.
      * done.
      * split_and!; [|done..]. exists (pre ++ [c]). by rewrite <- app_assoc.
  - injection Hrun as <-. split_and!; [by exists []|done|done|].
    intros top [= <-]. by left.
Qed.


End WithHost.


End PathMoreFacts.

(** ** Navigation *)

Module NavigationFacts.
Import JsString LinkExtractor Canvas Host CardText Engine Navigation
  LinkExtractorFacts.

Lemma splitLast_no_sep sep s : hasChar sep (splitLast sep s) = false.
Proof.
  induction s as [|c s IH]; [done|]. cbn.
  destruct (hasChar sep s) eqn:Hs; [done|].
  destruct (decide (c = sep)) as [->|Hc]; [done|].
  cbn. by rewrite decide_False.
Qed.

(** [splitLast] cuts behind the last separator. *)
Lemma splitLast_split sep s :
  exists dir, s = dir +:+ splitLast sep s
              /\ (dir = "" \/ exists d, dir = d +:+ String sep "").
Proof.
  induction s as [|c s (dir & Hs & Hdir)]; [exists ""; by split; [|left]|].
  cbn. destruct (hasChar sep s) eqn:Hsep.
  - exists (String c dir). rewrite app_String, <- Hs. split; [done|].
    right. destruct Hdir as [->|[d ->]].
    + change ("" +:+ splitLast sep s) with (splitLast sep s) in Hs.
      rewrite Hs, splitLast_no_sep in Hsep. done.
    + exists (String c d). by rewrite app_String.
  - destruct (decide (c = sep)) as [->|Hc].
    + exists (String sep ""). split; [done|]. right. by exists "".
    + exists "". by split; [|left].
Qed.


Lemma splitLast_app sep dir file :
  hasChar sep file = false ->
  (dir = "" \/ exists d, dir = d +:+ String sep "") ->
  splitLast sep (dir +:+ file) = file.
Proof.
  intros Hfile [->|[d ->]].
  - change ("" +:+ file) with file.
    induction file as [|c f IH]; [done|]. cbn in *.
    destruct (decide (c = sep)); [done|]. by rewrite Hfile.
  - rewrite string_app_assoc. change (String sep "" +:+ file) with (String sep file).
    induction d as [|c d IH].
    + change ("" +:+ String sep file) with (String sep file). cbn.
      by rewrite Hfile, decide_True.
    + rewrite app_String. cbn [splitLast].
      rewrite hasChar_app. cbn [hasChar]. rewrite decide_True by done.
      by rewrite orb_true_r.
Qed.

Lemma stripMd_app name : stripMd (name +:+ ".md") = name.
Proof.
  induction name as [|c n IH]; [done|]. rewrite app_String. cbn [stripMd].
  rewrite decide_False; [by rewrite IH|].
  intros [= -> H]. by destruct n as [|? [|? [|? ?]]].
Qed.

Lemma stripMd_spec s :
  (exists n, s = n +:+ ".md" /\ stripMd s = n)
  \/ (stripMd s = s /\ forall n, s <> n +:+ ".md").
Proof.
  induction s as [|c s IH].
  - right. split; [done|]. by intros [|? ?].
  - cbn [stripMd]. destruct (decide (String c s = ".md")) as [Heq|Hne].
    + left. exists "". by rewrite Heq.
    + destruct IH as [(n & -> & Hn)|[Hid Hno]].
      * left. exists (String c n). by rewrite Hn, app_String.
      * right. rewrite Hid. split; [done|].
        intros [|d n]; [done|]. rewrite app_String. intros [= -> ->].
        by eapply Hno.
Qed.

(** X15: [containsLink] holds exactly when one of the parsed links of the
    field names the target in its last path segment: what stands behind the
    last slash is the target's name, with or without a final [.md], and
    is not empty. *)
Theorem containsLink_segment field targetBasename :
  containsLink field targetBasename = true
  <-> exists link dir fileName,
      link ∈ parseLinks field
      /\ link = dir +:+ fileName
      /\ (dir = "" \/ exists d, dir = d +:+ "/")
      /\ hasChar "/" fileName = false
      /\ fileName <> ""
      /\ (fileName = targetBasename +:+ ".md"
          \/ (fileName = targetBasename
              /\ forall n, targetBasename <> n +:+ ".md")).
Proof.
  unfold containsLink. rewrite existsb_exists. split.
  - intros (link & Hin%list_elem_of_In & Htest).
    case_bool_decide as Hlink; [done|].
    case_bool_decide as Hfile; [|done].
    apply bool_decide_eq_true in Htest.
    destruct (splitLast_split "/" link) as (dir & Hsplit & Hdir).
    exists link, dir, (splitLast "/" link).
    split_and!; try done; [apply splitLast_no_sep|].
    destruct (stripMd_spec (splitLast "/" link)) as [(n & Hn & Hstrip)|[Hid Hno]].
    + left. congruence.
    + right. rewrite Hid in Htest. by subst.
  - intros (link & dir & fileName & Hin & -> & Hdir & Hsep & Hne & Hname).
    exists (dir +:+ fileName). split; [by apply list_elem_of_In|].
    rewrite splitLast_app by done.
    rewrite bool_decide_eq_false_2.
    + rewrite bool_decide_eq_true_2 by done. apply bool_decide_eq_true.
      destruct Hname as [->|[-> Hno]]; [apply stripMd_app|].
      by destruct (stripMd_spec targetBasename) as [(n & Hn & _)|[? _]];
        [destruct (Hno n)|].
    + destruct dir; [done|]. by rewrite app_String.
Qed.

Lemma containsLink_truthy field name :
  containsLink field name = true -> truthy field = true.
Proof.
  unfold containsLink, parseLinks. by destruct (truthy field).
Qed.

(** The keys of a [Map] after [set]: a new key goes to the end. *)
Lemma mapSet_keys {V} key (value : V) m :
  (mapSet key value m).*1 = if decide (key ∈ m.*1) then m.*1 else m.*1 ++ [key].
Proof.
  induction m as [|[k v] m IH]; [done|]. cbn.
  destruct (decide (k = key)) as [->|Hk].
  - cbn. by rewrite decide_True by apply list_elem_of_here.
  - cbn. rewrite IH. destruct (decide (key ∈ m.*1)) as [Hin|Hout].
    + by rewrite decide_True by by apply list_elem_of_further.
    + rewrite decide_False; [done|].
      intros [?|?]%elem_of_cons; congruence.
Qed.

Lemma mapSet_elem_of_keys {V} key (value : V) m p :
  p ∈ (mapSet key value m).*1 <-> p = key \/ p ∈ m.*1.
Proof.
  rewrite mapSet_keys. destruct (decide (key ∈ m.*1)).
  - naive_solver.
  - rewrite elem_of_app, list_elem_of_singleton. naive_solver.
Qed.

Lemma mapSet_NoDup {V} key (value : V) m :
  NoDup m.*1 -> NoDup (mapSet key value m).*1.
Proof.
  intros Hm. rewrite mapSet_keys. destruct (decide (key ∈ m.*1)); [done|].
  apply NoDup_app. split_and!; [done| |apply NoDup_singleton].
  intros x Hx ->%list_elem_of_singleton. done.
Qed.

Lemma mapSet_keyed key (value : TFile) m :
  path value = key ->
  Forall (fun kv => path kv.2 = kv.1) m ->
  Forall (fun kv => path kv.2 = kv.1) (mapSet key value m).
Proof.
  intros Hv. induction 1 as [|[k v] m Hkv Hm IH]; cbn.
  - by repeat constructor.
  - destruct (decide (k = key)); by constructor.
Qed.

(** A [Map] from path to file, as the code keeps them. *)
Local Notation keyed m :=
  (NoDup (m%list).*1 /\ Forall (fun kv : string * TFile => path kv.2 = kv.1) m).

Lemma keyed_paths (m : list (string * TFile)) :
  Forall (fun kv => path kv.2 = kv.1) m -> path <$> (snd <$> m) = m.*1.
Proof.
  induction 1 as [|[k v] m Hkv _ IH]; [done|]. cbn in *. by rewrite Hkv, IH.
Qed.

Section WithHost.
Variable getFields : TFile -> option NoteFields.
Variable getFirstLinkpathDest : string -> string -> option TFile.
Variable getMarkdownFiles : list TFile.

Local Notation resolveFile := (Engine.resolveFile getFirstLinkpathDest).
Local Notation setResolved := (Navigation.setResolved getFirstLinkpathDest).
Local Notation backlinkStep := (Navigation.backlinkStep getFields).
Local Notation getNeighbors :=
  (Navigation.getNeighbors getFields getFirstLinkpathDest getMarkdownFiles).

Lemma setResolved_fold links m :
  keyed m ->
  keyed (foldl setResolved m links)
  /\ forall p, p ∈ (foldl setResolved m links).*1
               <-> p ∈ m.*1
                   \/ exists link f, link ∈ links /\ resolveFile link = Some f
                                     /\ path f = p.
Proof.
  revert m. induction links as [|link links IH]; intros m Hm; cbn.
  - split; [done|]. intros p. split; [by left|].
    intros [?|(? & ? & []%elem_of_nil & _)]. done.
  - assert (keyed (setResolved m link)
            /\ forall p, p ∈ (setResolved m link).*1
                         <-> p ∈ m.*1
                             \/ exists f, resolveFile link = Some f /\ path f = p)
      as [Hkeyed Hkeys].
    { unfold Navigation.setResolved. destruct (resolveFile link) as [f|].
      - destruct Hm. split; [split; [by apply mapSet_NoDup|by apply mapSet_keyed]|].
        intros p. rewrite mapSet_elem_of_keys. naive_solver.
      - split; [done|]. naive_solver. }
    destruct (IH _ Hkeyed) as [Hk Hiff]. split; [done|].
    intros p. rewrite Hiff, Hkeys. split.
    + intros [[?|(f & ? & ?)]|(l & f & ? & ? & ?)]; [by left|right..].
      * exists link, f. split; [apply list_elem_of_here|done].
      * exists l, f. split; [by apply list_elem_of_further|done].
    + intros [?|(l & f & [->|?]%elem_of_cons & ? & ?)];
        [by left; left|left; right; by exists f|right; by exists l, f].
Qed.

(** A loop that sets the files that pass a test. *)
Lemma mapSet_fold (test : TFile -> bool) files m :
  keyed m ->
  keyed (foldl (fun m f => if test f then mapSet (path f) f m else m) m files)
  /\ forall p,
      p ∈ (foldl (fun m f => if test f then mapSet (path f) f m else m) m files).*1
      <-> p ∈ m.*1 \/ exists f, f ∈ files /\ path f = p /\ test f = true.
Proof.
  revert m. induction files as [|f files IH]; intros m Hm; cbn.
  - split; [done|]. intros p. split; [by left|].
    intros [?|(? & []%elem_of_nil & _)]. done.
  - destruct (test f) eqn:Htest.
    + destruct Hm as [Hnd Hall].
      destruct (IH (mapSet (path f) f m)) as [Hk Hiff].
      { split; [by apply mapSet_NoDup|by apply mapSet_keyed]. }
      split; [done|]. intros p. rewrite Hiff, mapSet_elem_of_keys. split.
      * intros [[->|?]|(g & ? & ? & ?)]; [right|by left|right].
        -- exists f. split; [apply list_elem_of_here|done].
        -- exists g. split; [by apply list_elem_of_further|done].
      * intros [?|(g & [->|?]%elem_of_cons & ? & ?)];
          [by left; right|by left; left|right; by exists g].
    + destruct (IH m Hm) as [Hk Hiff]. split; [done|].
      intros p. rewrite Hiff. split.
      * intros [?|(g & ? & ? & ?)]; [by left|right].
        exists g. split; [by apply list_elem_of_further|done].
      * intros [?|(g & [->|?]%elem_of_cons & ? & ?)];
          [by left|congruence|right; by exists g].
Qed.

(** The two sides of the loop over all notes do not depend on each
    other. *)
Lemma backlinkStep_sides file files acc :
  let names := fun field f =>
    negb (bool_decide (path f = path file))
    && match getFields f with
       | Some links => truthy (field links)
                       && containsLink (field links) (basename file)
       | None => false
       end in
  foldl (backlinkStep file) acc files
  = (foldl (fun m f => if names fm_next f then mapSet (path f) f m else m)
           acc.1 files,
     foldl (fun m f => if names fm_prev f then mapSet (path f) f m else m)
           acc.2 files).
Proof.
  intros names. revert acc. induction files as [|f files IH]; intros [a1 a2];
    [done|].
  cbn [foldl]. rewrite IH. subst names. cbn beta.
  unfold Navigation.backlinkStep. cbn [fst snd].
  destruct (bool_decide (path f = path file)); [done|].
  destruct (getFields f) as [links|]; [|done]. done.
Qed.

(** X16: the neighbours of a note. No file is listed twice on a side; the
    previous notes are the files the note's own [prev] links resolve to
    and the other notes whose [next] names the note, and likewise the next
    notes with [next] and [prev] exchanged. *)
Theorem getNeighbors_both_ways file :
  let own := fun field p =>
    exists fm link f,
      getFields file = Some fm /\ link ∈ parseLinks (field fm)
      /\ resolveFile link = Some f /\ path f = p in
  let back := fun field p =>
    exists f links,
      f ∈ getMarkdownFiles /\ path f = p /\ p <> path file
      /\ getFields f = Some links
      /\ containsLink (field links) (basename file) = true in
  NoDup (path <$> (getNeighbors file).1)
  /\ NoDup (path <$> (getNeighbors file).2)
  /\ (forall p, p ∈ path <$> (getNeighbors file).1 <-> own fm_prev p \/ back fm_next p)
  /\ (forall p, p ∈ path <$> (getNeighbors file).2 <-> own fm_next p \/ back fm_prev p).
Proof.
  intros own back. unfold Navigation.getNeighbors.
  set (prevs0 := match getFields file with
                 | Some fm => foldl setResolved [] (parseLinks (fm_prev fm))
                 | None => []
                 end).
  set (nexts0 := match getFields file with
                 | Some fm => foldl setResolved [] (parseLinks (fm_next fm))
                 | None => []
                 end).
  assert (keyed (@nil (string * TFile))) as Hnil by (split; constructor).
  assert (keyed prevs0 /\ forall p, p ∈ prevs0.*1 <-> own fm_prev p) as [Kp Ep].
  { subst prevs0 own. cbn beta. destruct (getFields file) as [fm|].
    - destruct (setResolved_fold (parseLinks (fm_prev fm)) [] Hnil) as [? Hiff].
      split; [done|]. intros p. rewrite Hiff. split.
      + intros [[]%elem_of_nil|(l & f & ? & ? & ?)]. by exists fm, l, f.
      + intros (? & l & f & [= <-] & ? & ? & ?). right. by exists l, f.
    - split; [done|]. intros p. split; [by intros []%elem_of_nil|].
      by intros (? & ? & ? & ? & _). }
  assert (keyed nexts0 /\ forall p, p ∈ nexts0.*1 <-> own fm_next p) as [Kn En].
  { subst nexts0 own. cbn beta. destruct (getFields file) as [fm|].
    - destruct (setResolved_fold (parseLinks (fm_next fm)) [] Hnil) as [? Hiff].
      split; [done|]. intros p. rewrite Hiff. split.
      + intros [[]%elem_of_nil|(l & f & ? & ? & ?)]. by exists fm, l, f.
      + intros (? & l & f & [= <-] & ? & ? & ?). right. by exists l, f.
    - split; [done|]. intros p. split; [by intros []%elem_of_nil|].
      by intros (? & ? & ? & ? & _). }
  rewrite backlinkStep_sides. cbn [fst snd].
  set (names := fun (field : NoteFields -> Yaml) (f : TFile) =>
    negb (bool_decide (path f = path file))
    && match getFields f with
       | Some links => truthy (field links)
                       && containsLink (field links) (basename file)
       | None => false
       end).
  assert (forall field f p,
            path f = p /\ names field f = true
            <-> path f = p /\ p <> path file
                /\ exists links, getFields f = Some links
                                 /\ containsLink (field links) (basename file) = true)
    as Hnames.
  { intros field f p. subst names. cbn beta.
    rewrite andb_true_iff, negb_true_iff, bool_decide_eq_false. split.
    - intros (<- & Hne & Hlinks). split; [done|]. split; [done|].
      destruct (getFields f) as [links|]; [|done].
      apply andb_true_iff in Hlinks as [_ ?]. by exists links.
    - intros (<- & Hne & links & -> & Hc). split; [done|]. split; [done|].
      by rewrite (containsLink_truthy _ _ Hc). }
  destruct (mapSet_fold (names fm_next) getMarkdownFiles prevs0 Kp)
    as [[N1 F1] I1].
  destruct (mapSet_fold (names fm_prev) getMarkdownFiles nexts0 Kn)
    as [[N2 F2] I2].
  rewrite !keyed_paths by done. split_and!; [done|done|..].
  - intros p. etrans; [apply I1|]. rewrite Ep. subst back. cbn beta. split.
    + intros [?|(f & ? & Hf)]; [by left|right].
      apply Hnames in Hf as (? & ? & links & ? & ?). by exists f, links.
    + intros [?|(f & links & ? & ? & ? & ? & ?)]; [by left|right].
      exists f. split; [done|]. apply Hnames. split_and!; [done..|].
      by exists links.
  - intros p. etrans; [apply I2|]. rewrite En. subst back. cbn beta. split.
    + intros [?|(f & ? & Hf)]; [by left|right].
      apply Hnames in Hf as (? & ? & links & ? & ?). by exists f, links.
    + intros [?|(f & links & ? & ? & ? & ? & ?)]; [by left|right].
      exists f. split; [done|]. apply Hnames. split_and!; [done..|].
      by exists links.
Qed.

End WithHost.

End NavigationFacts.

(** ** Canvas discovery along the parent links *)

Module DiscoveryFacts.
Import JsString LinkExtractor Canvas Host CardText Engine Navigation.

Section WithHost.
Variable getFields : TFile -> option NoteFields.
Variable getFirstLinkpathDest : string -> string -> option TFile.

Local Notation resolveFile := (Engine.resolveFile getFirstLinkpathDest).
Local Notation getFrontmatter := (Navigation.getFrontmatter getFields).
Local Notation canvasesOf := (Navigation.canvasesOf getFirstLinkpathDest).
Local Notation enqueueParent := (Navigation.enqueueParent getFirstLinkpathDest).
Local Notation search := (Navigation.search getFields getFirstLinkpathDest).
Local Notation findPotentialCanvases :=
  (Navigation.findPotentialCanvases getFields getFirstLinkpathDest).

(** [b] is a parent of [a]: one of the [up] links of [a] resolves to it. *)
Local Notation upLinksOf a :=
  (parseLinks (default YAbsent (fm_up <$> (fm_core <$> getFields a)))).
Local Notation parentOf a b :=
  (exists link, link ∈ upLinksOf a /\ resolveFile link = Some b).

Lemma search_more_fuel fuel fuel' queue visited potentials result :
  search fuel queue visited potentials = Some result ->
  fuel <= fuel' ->
  search fuel' queue visited potentials = Some result.
Proof.
  revert fuel' queue visited potentials.
  induction fuel as [|fuel IH]; intros fuel' queue visited potentials; [done|].
  destruct fuel' as [|fuel']; [lia|]. cbn.
  destruct queue as [|curr rest]; [done|].
  destruct (foldl _ _ _) as [visited' queue'].
  intros H ?. apply IH; [done|lia].
Qed.

(** What the loop over the [up] links does to the queue and the set. *)
Lemma enqueueParent_fold links visited queue :
  exists new,
    (foldl enqueueParent (visited, queue) links).2 = queue ++ new
    /\ (forall p, p ∈ (foldl enqueueParent (visited, queue) links).1
                  <-> p ∈ visited \/ p ∈ path <$> new)
    /\ (forall link f, link ∈ links -> resolveFile link = Some f ->
                       path f ∈ (foldl enqueueParent (visited, queue) links).1)
    /\ (forall f, f ∈ new ->
                  exists link, link ∈ links /\ resolveFile link = Some f)
    /\ NoDup (path <$> new)
    /\ (forall f, f ∈ new -> path f ∉ visited).
Proof.
  revert visited queue. induction links as [|link links IH]; intros visited queue.
  - exists []. cbn. rewrite app_nil_r. split_and!; try done.
    + intros p. split; [by left|]. by intros [?|[]%elem_of_nil].
    + by intros ? ? []%elem_of_nil.
    + by intros ? []%elem_of_nil.
    + constructor.
    + by intros ? []%elem_of_nil.
  - cbn [foldl].
    destruct (resolveFile link) as [parent|] eqn:Hres.
    + destruct (decide (path parent ∈ visited)) as [Hin|Hnew].
      * assert (enqueueParent (visited, queue) link = (visited, queue)) as ->.
        { unfold Navigation.enqueueParent. rewrite Hres. cbn.
          by rewrite decide_True. }
        destruct (IH visited queue) as (new & Hq & Hv & Hall & Hfrom & Hnd & Hout).
        exists new. split_and!; try done.
        -- intros l f [->|?]%elem_of_cons Hf; [|by eapply Hall].
           rewrite Hres in Hf. injection Hf as <-. apply Hv. by left.
        -- intros f (l & ? & ?)%Hfrom. exists l.
           split; [by apply list_elem_of_further|done].
      * assert (enqueueParent (visited, queue) link
                = ({[ path parent ]} ∪ visited, queue ++ [parent])) as ->.
        { unfold Navigation.enqueueParent. rewrite Hres. cbn.
          by rewrite decide_False. }
        destruct (IH ({[ path parent ]} ∪ visited) (queue ++ [parent]))
          as (new & Hq & Hv & Hall & Hfrom & Hnd & Hout).
        exists (parent :: new). split_and!.
        -- rewrite Hq, <- app_assoc. done.
        -- intros p. rewrite Hv, elem_of_union, elem_of_singleton.
           rewrite fmap_cons, elem_of_cons. tauto.
        -- intros l f [->|?]%elem_of_cons Hf; [|by eapply Hall].
           rewrite Hres in Hf. injection Hf as <-. apply Hv. left.
           apply elem_of_union_l. by apply elem_of_singleton.
        -- intros f [->|(l & ? & ?)%Hfrom]%elem_of_cons.
           ++ exists link. split; [apply list_elem_of_here|done].
           ++ exists l. split; [by apply list_elem_of_further|done].
        -- rewrite fmap_cons. constructor; [|done].
           intros (f & Hp & Hf)%list_elem_of_fmap. apply (Hout f Hf).
           rewrite <- Hp. apply elem_of_union_l. by apply elem_of_singleton.
        -- intros f [->|Hf]%elem_of_cons; [done|].
           intros ?. apply (Hout f Hf). by apply elem_of_union_r.
    + assert (enqueueParent (visited, queue) link = (visited, queue)) as ->.
      { unfold Navigation.enqueueParent. by rewrite Hres. }
      destruct (IH visited queue) as (new & Hq & Hv & Hall & Hfrom & Hnd & Hout).
      exists new. split_and!; try done.
      * intros l f [->|?]%elem_of_cons Hf; [congruence|by eapply Hall].
      * intros f (l & ? & ?)%Hfrom. exists l.
        split; [by apply list_elem_of_further|done].
Qed.

Lemma size_after_enqueue (known visited visited' : gset string) ps :
  NoDup ps ->
  (forall p, p ∈ ps -> p ∈ known /\ p ∉ visited) ->
  (forall p, p ∈ visited' <-> p ∈ visited \/ p ∈ ps) ->
  size (known ∖ visited') + length ps = size (known ∖ visited).
Proof.
  intros Hnd Hps Hv.
  rewrite <- (size_list_to_set (C := gset string) ps) by done.
  rewrite <- size_union.
  - f_equal. apply set_eq. intros p.
    rewrite elem_of_union, !elem_of_difference, elem_of_list_to_set, Hv.
    destruct (decide (p ∈ ps)) as [Hp|Hp]; [|tauto].
    destruct (Hps p Hp). tauto.
  - intros p. rewrite elem_of_difference, elem_of_list_to_set, Hv. tauto.
Qed.

(** Every round of the search takes a file from the queue, and queues
    only files whose paths were not visited: the rounds left are bounded
    by the length of the queue and the paths of [known] not yet visited. *)
Lemma search_terminates (known : gset string) :
  (forall link f, resolveFile link = Some f -> path f ∈ known) ->
  forall n queue visited potentials,
    size (known ∖ visited) + length queue < n ->
    exists result,
      forall fuel, n <= fuel -> search fuel queue visited potentials = Some result.
Proof.
  intros Hknown. induction n as [|n IH]; intros queue visited potentials Hsize;
    [lia|].
  destruct queue as [|curr rest].
  - exists potentials. intros [|fuel] ?; [lia|done].
  - destruct (enqueueParent_fold (upLinksOf curr) visited rest)
      as (new & Hq & Hv & _ & Hfrom & Hnd & Hout).
    destruct (foldl enqueueParent (visited, rest) (upLinksOf curr))
      as [visited' queue'] eqn:Hfold. cbn [fst snd] in *. subst queue'.
    destruct (IH (rest ++ new) visited'
                 (potentials ++ canvasesOf (getFields curr))) as [result Hresult].
    { assert (size (known ∖ visited') + length (path <$> new)
              = size (known ∖ visited)) as Hmeasure.
      { apply size_after_enqueue; [done| |done].
        intros p (f & -> & Hf)%list_elem_of_fmap. split; [|by apply Hout].
        destruct (Hfrom f Hf) as (link & _ & Hres). by eapply Hknown. }
      rewrite length_fmap in Hmeasure. rewrite length_app. cbn in Hsize. lia. }
    exists result. intros [|fuel] ?; [lia|]. cbn. rewrite Hfold.
    apply Hresult. lia.
Qed.

(** The invariant of the search: [visited] holds the paths of the files
    handled so far ([handled]) and of the queue. The files [later] are those
    queued from here on; every file of the queue and of [later] gives its
    canvases to the result and has the paths of its parents among the
    files handled at the end. *)
Lemma search_spec (R : TFile -> Prop) fuel queue visited potentials result handled :
  (forall a b, R a -> parentOf a b -> R b) ->
  search fuel queue visited potentials = Some result ->
  (forall p, p ∈ visited <-> p ∈ path <$> handled ++ queue) ->
  (forall q, q ∈ queue -> R q) ->
  exists later,
    (forall c, c ∈ result
               <-> c ∈ potentials
                   \/ exists a, a ∈ queue ++ later /\ c ∈ canvasesOf (getFields a))
    /\ (forall a b, a ∈ queue ++ later -> parentOf a b ->
                    path b ∈ path <$> handled ++ queue ++ later)
    /\ (forall b, b ∈ later -> R b).
Proof.
  intros HR. revert queue visited potentials handled.
  induction fuel as [|fuel IH]; intros queue visited potentials handled; [done|].
  cbn. destruct queue as [|curr rest].
  - intros [= <-] _ _. exists []. split_and!.
    + intros c. split; [by left|]. by intros [?|(? & []%elem_of_nil & _)].
    + by intros ? ? []%elem_of_nil.
    + by intros ? []%elem_of_nil.
  - destruct (enqueueParent_fold (upLinksOf curr) visited rest)
      as (new & Hq & Hv & Hall & Hfrom & _ & _).
    destruct (foldl enqueueParent (visited, rest) (upLinksOf curr))
      as [visited' queue'] eqn:Hfold. cbn [fst snd] in *. subst queue'.
    intros Hrun Hvisited Hqueue.
    destruct (IH _ _ _ (handled ++ [curr]) Hrun) as (later & Hres & Hclosed & Hlater).
    { intros p. rewrite Hv, Hvisited, !fmap_app, !elem_of_app. cbn.
      rewrite !elem_of_cons, elem_of_nil. tauto. }
    { intros q [?|Hnew]%elem_of_app.
      - apply Hqueue. by apply list_elem_of_further.
      - destruct (Hfrom q Hnew) as (link & ? & ?).
        apply (HR curr); [apply Hqueue, list_elem_of_here|by exists link]. }
    exists (new ++ later). split_and!.
    + intros c. rewrite Hres, elem_of_app. split.
      * intros [[?|?]|(a & Ha & ?)]; [by left|right..].
        -- exists curr. split; [apply list_elem_of_here|done].
        -- exists a. split; [|done].
           rewrite <- app_assoc in Ha. by apply list_elem_of_further.
      * intros [?|(a & [->|Ha]%elem_of_cons & ?)];
          [by left; left|by left; right|right].
        exists a. split; [|done]. change (a ∈ rest ++ new ++ later) in Ha.
        by rewrite <- app_assoc.
    + intros a b [->|Ha]%elem_of_cons Hparent.
      * destruct Hparent as (link & Hlink & Hb).
        pose proof (Hall link b Hlink Hb) as Hin.
        apply Hv in Hin. rewrite Hvisited in Hin.
        rewrite !fmap_app, !elem_of_app in *. cbn in *. tauto.
      * change (a ∈ rest ++ new ++ later) in Ha.
        rewrite app_assoc in Ha. specialize (Hclosed a b Ha Hparent).
        rewrite !fmap_app, !elem_of_app in *. cbn in *.
        rewrite !elem_of_cons, ?elem_of_nil in *. tauto.
    + intros b [Hnew|?]%elem_of_app; [|by apply Hlater].
      destruct (Hfrom b Hnew) as (link & ? & ?).
      apply (HR curr); [apply Hqueue, list_elem_of_here|by exists link].
Qed.

(** X17: the search for potential canvases ends on every vault, cycles of
    parents included: within as many rounds as the vault has files (plus
    the start and the final test), and more fuel never changes the
    result. Every file it returns has the extension [canvas]. *)
Theorem findPotentialCanvases_terminates (files : gset string) startFile
  (Hvault : forall link f, resolveFile link = Some f -> path f ∈ files) :
  (exists result, forall fuel,
      size files + 3 <= fuel -> findPotentialCanvases fuel startFile = Some result)
  /\ (forall fuel fuel' result,
        findPotentialCanvases fuel startFile = Some result -> fuel <= fuel' ->
        findPotentialCanvases fuel' startFile = Some result)
  /\ (forall fuel result c,
        findPotentialCanvases fuel startFile = Some result -> c ∈ result ->
        extension c = "canvas").
Proof.
  split_and!.
  - destruct (search_terminates ({[ path startFile ]} ∪ files)) with
      (n := size files + 3) (queue := [startFile])
      (visited := ({[ path startFile ]} : gset string))
      (potentials := @nil TFile) as [result Hresult].
    + intros link f Hf. apply elem_of_union_r. by eapply Hvault.
    + assert (({[ path startFile ]} ∪ files) ∖ {[ path startFile ]} ⊆ files) as Hle
          by set_solver.
      apply subseteq_size in Hle. cbn. lia.
    + by exists result.
  - intros fuel fuel' result. apply search_more_fuel.
  - intros fuel result c Hrun Hc.
    destruct (search_spec (fun _ => True) fuel [startFile] {[ path startFile ]}
                [] result []) as (later & Hres & _); [done|done| |done|].
    { intros p. cbn. rewrite elem_of_singleton, list_elem_of_singleton. done. }
    destruct (proj1 (Hres c) Hc) as [[]%elem_of_nil|(a & _ & Hin)].
    unfold Navigation.canvasesOf in Hin.
    apply list_elem_of_omap in Hin as (link & _ & Hlink).
    destruct (resolveFile link) as [f|]; [|done].
    case_bool_decide; [|done]. by injection Hlink as <-.
Qed.


End WithHost.

End DiscoveryFacts.

(** ** The navigation header *)

Module HeaderFacts.
Import JsString LinkExtractor Canvas Host CardText Engine Navigation.

(** A row of items of which the one at position [n] is rendered by
    [last] and all others by [other]. *)
Lemma row_join (last other : TFile -> list Crumb) l x k :
  mjoin (imap (fun index file =>
                 if bool_decide (k + index = k + length l)%nat
                 then last file else other file) (l ++ [x]))
  = (l ≫= other) ++ last x.
Proof.
  revert k. induction l as [|a l IH]; intros k.
  - cbn. rewrite bool_decide_eq_true_2 by done. by rewrite app_nil_r.
  - cbn [app length imap mjoin list_join mbind list_bind].
    rewrite bool_decide_eq_false_2 by lia. rewrite <- app_assoc. f_equal.
    rewrite <- (IH (S k)). f_equal. apply imap_ext. intros i f _. cbn.
    rewrite <- !Nat.add_succ_comm. done.
Qed.

(** What the row shows of a path that ends with [file]: the last two
    files before it. *)
Lemma displayPath_snoc (ancestors : list TFile) file :
  (if (3 <? length (ancestors ++ [file]))%nat
   then skipn (length (ancestors ++ [file]) - 3) (ancestors ++ [file])
   else ancestors ++ [file])
  = skipn (length ancestors - 2) ancestors ++ [file].
Proof.
  rewrite length_app. cbn [length].
  destruct (3 <? length ancestors + 1)%nat eqn:Hlong.
  - apply Nat.ltb_lt in Hlong. rewrite skipn_app.
    replace (length ancestors + 1 - 3)%nat with (length ancestors - 2)%nat by lia.
    replace (length ancestors - 2 - length ancestors)%nat with 0%nat by lia.
    done.
  - apply Nat.ltb_ge in Hlong.
    replace (length ancestors - 2)%nat with 0%nat by lia. done.
Qed.

Lemma renderBreadcrumbsRow_snoc ancestors file :
  renderBreadcrumbsRow (ancestors ++ [file])
  = (skipn (length ancestors - 2) ancestors
       ≫= fun a => [Item (cleanName (basename a)) false (Some a); Separator])
    ++ [Item (cleanName (basename file)) true None].
Proof.
  unfold renderBreadcrumbsRow. rewrite displayPath_snoc.
  set (shown := skipn (length ancestors - 2) ancestors).
  rewrite <- (row_join (fun f => [Item (cleanName (basename f)) true None])
                       (fun a => [Item (cleanName (basename a)) false (Some a);
                                  Separator]) shown file 0).
  f_equal. apply imap_ext. intros i f _. cbn.
  rewrite length_app. cbn. replace (length shown + 1 - 1)%nat with (length shown) by lia.
  done.
Qed.

Section WithHost.
Variable getFields : TFile -> option NoteFields.
Variable getFirstLinkpathDest : string -> string -> option TFile.
Variable getMarkdownFiles : list TFile.

Local Notation getFrontmatter := (Navigation.getFrontmatter getFields).
Local Notation getParentFile :=
  (Engine.getParentFile getFrontmatter getFirstLinkpathDest).
Local Notation climb := (Engine.climb getFrontmatter getFirstLinkpathDest).
Local Notation getBreadcrumbPath :=
  (Engine.getBreadcrumbPath getFrontmatter getFirstLinkpathDest).
Local Notation getNeighbors :=
  (Navigation.getNeighbors getFields getFirstLinkpathDest getMarkdownFiles).
Local Notation renderView :=
  (Navigation.renderView getFields getFirstLinkpathDest getMarkdownFiles).

Lemma climb_extends fuel curr seen trail result :
  climb fuel curr seen trail = Some result -> exists pre, result = pre ++ trail.
Proof.
  revert curr seen trail. induction fuel as [|fuel IH]; intros curr seen trail;
    [done|]. cbn.
  destruct curr as [c|]; [|intros [= <-]; by exists []].
  destruct (decide (path c ∈ seen)); [intros [= <-]; by exists []|].
  intros [pre ->]%IH. exists (pre ++ [c]). by rewrite <- app_assoc.
Qed.

(** The path ends with the file; it is longer exactly when the file has a
    parent other than itself. *)
Lemma getBreadcrumbPath_shape fuel file trail :
  getBreadcrumbPath fuel file = Some trail ->
  exists ancestors,
    trail = ancestors ++ [file]
    /\ (ancestors <> []
        <-> exists p, getParentFile file = Some p /\ path p <> path file).
Proof.
  unfold Engine.getBreadcrumbPath. destruct fuel as [|fuel]; [done|]. cbn.
  rewrite decide_False by set_solver.
  destruct fuel as [|fuel]; [done|]. cbn.
  destruct (getParentFile file) as [p|].
  - destruct (decide (path p ∈ _)) as [Hin|Hnew].
    + intros [= <-]. exists []. split; [done|]. split; [done|].
      intros (? & [= <-] & Hne). set_solver.
    + intros [pre ->]%climb_extends. exists (pre ++ [p]).
      split; [by rewrite <- app_assoc|]. split.
      * intros _. exists p. split; [done|]. set_solver.
      * intros _. by destruct pre.
  - intros [= <-]. exists []. split; [done|]. split; [done|].
    by intros (? & ? & _).
Qed.



End WithHost.

End HeaderFacts.

(** ** The navigation of two notes that name each other *)

Module NavigationExamples.
Import JsString Canvas Host CardText Engine Navigation.

Lemma findPotentialCanvases_terminates_witness :
  (exists result, forall fuel,
      size ({[ "A.md"; "B.md"; "board.canvas" ]} : gset string) + 3 <= fuel ->
      findPotentialCanvases DemoNav.fields DemoNav.resolve fuel Demo.noteA
      = Some result)
  /\ (forall fuel fuel' result,
        findPotentialCanvases DemoNav.fields DemoNav.resolve fuel Demo.noteA
        = Some result ->
        fuel <= fuel' ->
        findPotentialCanvases DemoNav.fields DemoNav.resolve fuel' Demo.noteA
        = Some result)
  /\ (forall fuel result c,
        findPotentialCanvases DemoNav.fields DemoNav.resolve fuel Demo.noteA
        = Some result ->
        c ∈ result -> extension c = "canvas").
Proof.
  apply (DiscoveryFacts.findPotentialCanvases_terminates DemoNav.fields
           DemoNav.resolve {[ "A.md"; "B.md"; "board.canvas" ]} Demo.noteA).
  intros link f. unfold resolveFile, DemoNav.resolve.
  repeat case_bool_decide; try done; intros [= <-]; set_solver.
Defined.




(** A is followed by B, so B is preceded by A; the header of A shows the
    parent B before A, and the search from A finds the canvas of A only
    once although A is its own grandparent. *)
Example navigation_of_A_and_B :
  getNeighbors DemoNav.fields DemoNav.resolve [Demo.noteA; Demo.noteB] Demo.noteB
  = ([Demo.noteA], [])
  /\ getNeighbors DemoNav.fields DemoNav.resolve [Demo.noteA; Demo.noteB] Demo.noteA
     = ([], [Demo.noteB])
  /\ renderBreadcrumbsRow [Demo.noteB; Demo.noteA]
     = [Item "B" false (Some Demo.noteB); Separator; Item "A" true None]
  /\ findPotentialCanvases DemoNav.fields DemoNav.resolve 4 Demo.noteA
     = Some [Demo.board].
Proof. split_and!; reflexivity. Qed.

End NavigationExamples.

(** ** The generated card text *)

Module CardTextFacts.
Import JsString LinkExtractor Canvas Host CardText Engine LinkExtractorFacts
  CreateFacts.

Lemma scanDescription_trimmed content :
  trim (scanDescription content) = scanDescription content.
Proof.
  unfold scanDescription, upToEnd.
  repeat case_match; try reflexivity; apply trim_idem.
Qed.

Section WithCache.
Variable getFrontmatter : TFile -> option Frontmatter.

Local Notation extractNodeText := (CardText.extractNodeText getFrontmatter).

(** X21: [extractNodeText] changes nothing. With a string [description]
    in the frontmatter the card text is made from it and the note is not
    read, so the call is fulfilled even for a file that cannot be read;
    without one the text is made from the scan of the note, which has no
    blank of the class [\s] at either end, and the call rejects exactly
    when the note cannot be read. Every text it yields begins with the title line that links
    the note under its cleaned name, and is recognised as a card of the
    note. *)
Theorem extractNodeText_outcome file w :
  (extractNodeText file w).2 = w
  /\ (forall d, fm_description <$> getFrontmatter file = Some (YString d) ->
        (extractNodeText file w).1 = Fulfilled (aliasedCard file d))
  /\ ((forall d, fm_description <$> getFrontmatter file <> Some (YString d)) ->
      (extractNodeText file w).1
      = match vault w !! path file with
        | Some content => Fulfilled (aliasedCard file (scanDescription content))
        | None => Rejected
        end)
  /\ (forall content, trim (scanDescription content) = scanDescription content)
  /\ (forall t, (extractNodeText file w).1 = Fulfilled t ->
        startsWith t ("# [[" +:+ basename file +:+ "|"
                             +:+ cleanName (basename file) +:+ "]]"
                             +:+ LF +:+ LF) = true
        /\ isTextCardFor (linkPrefix file) (textCard "" t 0 0 0 0) = true).
Proof.
  split_and!.
  - destruct (extractNodeText file w) as [r w'] eqn:Hrun.
    by apply extractNodeText_inv in Hrun as [-> _].
  - intros d Hd. unfold CardText.extractNodeText, descriptionOf. by rewrite Hd.
  - intros Hno. unfold CardText.extractNodeText, descriptionOf.
    destruct (fm_description <$> getFrontmatter file) as [[|d| |]|] eqn:Hd;
      try (by destruct (Hno d));
      unfold vault_read, mbind, mret, async_bind, async_ret;
      by destruct (vault w !! path file).
  - apply scanDescription_trimmed.
  - intros t Ht. destruct (extractNodeText file w) as [r w'] eqn:Hrun.
    cbn in Ht. subst r.
    apply extractNodeText_inv in Hrun as (_ & d & _ & ->). split.
    + replace (aliasedCard file d)
        with (("# [[" +:+ basename file +:+ "|" +:+ cleanName (basename file)
                      +:+ "]]" +:+ LF +:+ LF) +:+ d)
        by (unfold aliasedCard; by rewrite !string_app_assoc).
      apply startsWith_app.
    + unfold isTextCardFor, hasType. cbn. apply aliasedCard_has_prefix.
Qed.

End WithCache.

End CardTextFacts.

(** ** Building and maintaining the index *)

Module MaintenanceFacts.
Import Canvas Host CardText Engine Navigation Maintenance CreateFacts
  IndexMoreFacts.

Section WithHost.
Variable getFirstLinkpathDest : string -> string -> option TFile.
Variable JSON_parse : string -> option JsValue.

Local Notation indexSingleCanvas :=
  (Engine.indexSingleCanvas getFirstLinkpathDest JSON_parse).
Local Notation referencedPaths :=
  (Engine.referencedPaths getFirstLinkpathDest).
Local Notation indexBatch :=
  (Maintenance.indexBatch getFirstLinkpathDest JSON_parse).
Local Notation indexFrom :=
  (Maintenance.indexFrom getFirstLinkpathDest JSON_parse).
Local Notation buildCanvasIndex :=
  (Maintenance.buildCanvasIndex getFirstLinkpathDest JSON_parse).

(** The entry a parsed value gives the canvas at a path: none for [null],
    the empty set for any other value that is no object. *)
Local Notation entryAt canvasPath :=
  (fun v : JsValue =>
     match v with
     | VNull => @None (gset string)
     | VObj data => Some (referencedPaths canvasPath data)
     | _ => Some (∅ : gset string)
     end).

(** The world after the files have been indexed one after the other. *)
Local Notation indexAll files w :=
  (foldl (fun w file => (indexSingleCanvas file w).2) w files).

Lemma indexBatch_run batch w :
  indexBatch batch w = (Fulfilled (), indexAll batch w).
Proof.
  revert w. induction batch as [|file batch IH]; intros w; [done|].
  cbn. unfold mbind, async_bind. rewrite indexSingleCanvas_run. cbn. apply IH.
Qed.

(** The batches cover the files from [i] on, each once and in order. *)
Lemma indexFrom_run canvasFiles i w :
  indexFrom canvasFiles i w = (Fulfilled (), indexAll (skipn i canvasFiles) w).
Proof.
  revert w. funelim (indexFrom canvasFiles i); intros w.
  - unfold mbind, async_bind. rewrite indexBatch_run, (H () w).
    rewrite <- (take_drop 5 (skipn i canvasFiles)) at 2.
    rewrite foldl_app, drop_drop. done.
  - rewrite skipn_all2 by lia. done.
Qed.

(** The entry of a path after a run over [files]: a fresh one where a
    file bears the path, the old one elsewhere. *)
Lemma indexAll_spec files w :
  vault (indexAll files w) = vault w
  /\ writes (trace (indexAll files w)) = writes (trace w)
  /\ (forall k,
        canvasIndex (indexAll files w) !! k
        = if decide (k ∈ path <$> files)
          then (vault w !! k ≫= JSON_parse) ≫= entryAt k
          else canvasIndex w !! k).
Proof.
  revert w. induction files as [|file files IH]; intros w.
  - by split_and!.
  - cbn [foldl].
    pose proof (indexSingleCanvas_run getFirstLinkpathDest JSON_parse file w) as Hrun.
    destruct (IH (indexSingleCanvas file w).2) as (Hv' & Hw' & Hk').
    assert (vault (indexSingleCanvas file w).2 = vault w) as Hv.
    { rewrite Hrun. cbn. by destruct ((vault w !! path file ≫= JSON_parse) ≫= _). }
    split_and!.
    + congruence.
    + rewrite Hw', Hrun. cbn.
      destruct ((vault w !! path file ≫= JSON_parse) ≫= _); [done|]. cbn.
      unfold writes. rewrite omap_app. cbn. apply app_nil_r.
    + intros k. rewrite Hk', Hv. rewrite fmap_cons.
      destruct (decide (k ∈ path <$> files)) as [Hin|Hout].
      * by rewrite decide_True by by apply list_elem_of_further.
      * destruct (decide (k = path file)) as [->|Hne].
        -- rewrite decide_True by apply list_elem_of_here.
           rewrite Hrun. cbn [snd].
           destruct ((vault w !! path file ≫= JSON_parse) ≫= _); cbn.
           ++ apply lookup_insert_eq.
           ++ apply lookup_delete_eq.
        -- rewrite decide_False by (intros [?|?]%elem_of_cons; done).
           rewrite Hrun. cbn [snd].
           destruct ((vault w !! path file ≫= JSON_parse) ≫= _); cbn.
           ++ by apply lookup_insert_ne.
           ++ by apply lookup_delete_ne.
Qed.

(** X22: [buildCanvasIndex] is fulfilled and writes no file; afterwards
    every file of the vault with the extension [canvas] has the entry its
    text in the vault gives (none when it cannot be read or parsed, or holds
    [null]), and
    the entries of all other paths are the ones the index held before.
    The batches of five cover every canvas. *)
Theorem buildCanvasIndex_covers getFiles w :
  (buildCanvasIndex getFiles w).1 = Fulfilled ()
  /\ vault (buildCanvasIndex getFiles w).2 = vault w
  /\ writes (trace (buildCanvasIndex getFiles w).2) = writes (trace w)
  /\ (forall f, f ∈ getFiles -> extension f = "canvas" ->
        canvasIndex (buildCanvasIndex getFiles w).2 !! path f
        = (vault w !! path f ≫= JSON_parse) ≫= entryAt (path f))
  /\ (forall k, (forall f, f ∈ getFiles -> extension f = "canvas" -> path f <> k) ->
        canvasIndex (buildCanvasIndex getFiles w).2 !! k = canvasIndex w !! k).
Proof.
  unfold Maintenance.buildCanvasIndex. rewrite indexFrom_run. cbn [fst snd skipn].
  set (canvasFiles := List.filter _ getFiles).
  assert (forall f, f ∈ canvasFiles <-> f ∈ getFiles /\ extension f = "canvas")
    as Hfiles.
  { intros f. subst canvasFiles. rewrite !list_elem_of_In, filter_In.
    by rewrite bool_decide_eq_true. }
  destruct (indexAll_spec canvasFiles w) as (Hv & Hw & Hk).
  split_and!; [done|done|done|..].
  - intros f Hf Hext. rewrite Hk, decide_True; [done|].
    apply list_elem_of_fmap. exists f. split; [done|]. by apply Hfiles.
  - intros k Hno. rewrite Hk, decide_False; [done|].
    intros (f & -> & [? ?]%Hfiles)%list_elem_of_fmap. by eapply Hno.
Qed.

End WithHost.

Section WithHost.
Variable getFields : TFile -> option NoteFields.
Variable getFirstLinkpathDest : string -> string -> option TFile.
Variable JSON_parse : string -> option JsValue.
Variable JSON_stringify : JsValue -> string.
Variable getAbstractFileByPath : string -> option TFile.
Variable entries : gmap string (gset string) -> list (string * gset string).
Variable groupIdFor : string -> string.

Local Notation getFrontmatter := (Navigation.getFrontmatter getFields).
Local Notation syncNodeInCanvas :=
  (Engine.syncNodeInCanvas getFrontmatter JSON_parse JSON_stringify).
Local Notation indexSingleCanvas :=
  (Engine.indexSingleCanvas getFirstLinkpathDest JSON_parse).
Local Notation referencedPaths :=
  (Engine.referencedPaths getFirstLinkpathDest).
Local Notation syncRelated :=
  (Maintenance.syncRelated getFields JSON_parse JSON_stringify
                           getAbstractFileByPath groupIdFor).
Local Notation autoSyncToCanvases :=
  (Maintenance.autoSyncToCanvases getFields JSON_parse JSON_stringify
                                  getAbstractFileByPath entries groupIdFor).
Local Notation onModify :=
  (Maintenance.onModify getFields getFirstLinkpathDest JSON_parse JSON_stringify
                        getAbstractFileByPath entries groupIdFor).
Local Notation onDelete := Maintenance.onDelete.
Local Notation onRename :=
  (Maintenance.onRename getFirstLinkpathDest JSON_parse).

(** The entry a parsed value gives the canvas at a path: none for [null],
    the empty set for any other value that is no object. *)
Local Notation entryAt canvasPath :=
  (fun v : JsValue =>
     match v with
     | VNull => @None (gset string)
     | VObj data => Some (referencedPaths canvasPath data)
     | _ => Some (∅ : gset string)
     end).

(** What a call of [syncNodeInCanvas] can leave: a rejection before
    anything was done, the world as it was, or one write to the canvas. *)
Lemma syncNodeInCanvas_steps cf nf gid w :
  syncNodeInCanvas cf nf gid w = (Rejected, w)
  \/ (exists r, syncNodeInCanvas cf nf gid w = (Fulfilled r, w))
  \/ (exists r c, syncNodeInCanvas cf nf gid w = (Fulfilled r, modified cf c w)).
Proof.
  unfold Engine.syncNodeInCanvas.
  unfold try_catch, readCanvas, vault_read, vault_modify, reject,
    mbind, mret, async_bind, async_ret.
  destruct (vault w !! path cf) as [content|]; [|right; left; by eexists].
  destruct (JSON_parse content) as [[| | | | |data]|];
    try (right; left; by eexists); try (by left).
  destruct (nodes data) as [ns|]; [|right; left; by eexists].
  destruct (extractNodeText getFrontmatter nf w) as [[text|] w0] eqn:Htext;
    apply extractNodeText_inv in Htext as [-> _]; [|by left].
  destruct (syncNodes nf text gid ns) as [[ns' upd] tid].
  destruct upd; cbn; right; [right|left]; by repeat eexists.
Qed.

Lemma syncRelated_steps file canvasPath w :
  syncRelated file canvasPath w = (Fulfilled (), w)
  \/ syncRelated file canvasPath w
     = (Fulfilled (),
        logged (ConsoleError ("[BreadcrumbPlugin] Failed to auto-sync to canvas: "
                              +:+ canvasPath)) w)
  \/ (exists cf c, getAbstractFileByPath canvasPath = Some cf
                   /\ syncRelated file canvasPath w = (Fulfilled (), modified cf c w)).
Proof.
  unfold Maintenance.syncRelated, try_catch.
  destruct (getAbstractFileByPath canvasPath) as [cf|]; [|by left].
  unfold mbind, mret, async_bind, async_ret.
  destruct (syncNodeInCanvas_steps cf file (groupIdFor canvasPath) w)
    as [->|[[r ->]|(r & c & ->)]].
  - right. by left.
  - by left.
  - right. right. by exists cf, c.
Qed.

(** The loop of [autoSyncToCanvases] over the related canvases. *)
Lemma syncRelated_loop file paths w :
  let run := foldr (fun canvasPath rest => syncRelated file canvasPath;; rest)
                   (mret ()) paths w in
  run.1 = Fulfilled ()
  /\ canvasIndex run.2 = canvasIndex w
  /\ (exists new,
        trace run.2 = trace w ++ new
        /\ forall f c, Modified f c ∈ new ->
             exists p cf, p ∈ paths /\ getAbstractFileByPath p = Some cf
                          /\ f = path cf)
  /\ (forall k,
        (forall p cf, p ∈ paths -> getAbstractFileByPath p = Some cf -> path cf <> k) ->
        vault run.2 !! k = vault w !! k).
Proof.
  revert w. induction paths as [|p paths IH]; intros w; cbn zeta.
  - cbn. split_and!; try done. exists []. rewrite app_nil_r. split; [done|].
    by intros ? ? []%elem_of_nil.
  - cbn [foldr]. unfold mbind at 1, async_bind at 1.
    assert (forall w1 (mine : list Event),
               syncRelated file p w = (Fulfilled (), w1) ->
               canvasIndex w1 = canvasIndex w ->
               trace w1 = trace w ++ mine ->
               (forall f c, Modified f c ∈ mine ->
                  exists cf, getAbstractFileByPath p = Some cf /\ f = path cf) ->
               (forall k, (forall cf, getAbstractFileByPath p = Some cf -> path cf <> k) ->
                          vault w1 !! k = vault w !! k) ->
               let run := match syncRelated file p w with
                          | (Fulfilled a, w') =>
                              foldr (fun canvasPath rest => syncRelated file canvasPath;; rest)
                                    (mret ()) paths w'
                          | (Rejected, w') => (Rejected, w')
                          end in
               run.1 = Fulfilled ()
               /\ canvasIndex run.2 = canvasIndex w
               /\ (exists new,
                     trace run.2 = trace w ++ new
                     /\ forall f c, Modified f c ∈ new ->
                          exists q cf, q ∈ p :: paths
                                       /\ getAbstractFileByPath q = Some cf
                                       /\ f = path cf)
               /\ (forall k,
                     (forall q cf, q ∈ p :: paths ->
                                   getAbstractFileByPath q = Some cf -> path cf <> k) ->
                     vault run.2 !! k = vault w !! k)) as Hstep.
    { intros w1 mine -> Hidx Htrace Hmine Hvault. cbn zeta.
      destruct (IH w1) as (Hr & Hi & (new & Hnew & Hfrom) & Hv).
      split_and!; [done|congruence| |].
      - exists (mine ++ new). rewrite Hnew, Htrace, <- app_assoc. split; [done|].
        intros f c [Hin|Hin]%elem_of_app.
        + destruct (Hmine f c Hin) as (cf & ? & ?). exists p, cf.
          split; [apply list_elem_of_here|done].
        + destruct (Hfrom f c Hin) as (q & cf & ? & ? & ?). exists q, cf.
          split; [by apply list_elem_of_further|done].
      - intros k Hk. rewrite Hv, Hvault; [done| |].
        + intros cf Hcf. apply (Hk p cf); [apply list_elem_of_here|done].
        + intros q cf Hq Hcf. apply (Hk q cf); [by apply list_elem_of_further|done]. }
    destruct (syncRelated_steps file p w) as [Hs|[Hs|(cf & c & Hcf & Hs)]].
    + apply (Hstep w []); [done|done|by rewrite app_nil_r| |done].
      by intros ? ? []%elem_of_nil.
    + eapply (Hstep _ [_]); [done|done|done| |done].
      by intros ? ? [[=]|[]%elem_of_nil]%elem_of_cons.
    + eapply (Hstep _ [_]); [done|done|done| |].
      * intros f c' [[= -> ->]|[]%elem_of_nil]%elem_of_cons. by exists cf.
      * intros k Hk. cbn. apply lookup_insert_ne. by apply Hk.
Qed.

Lemma related_paths file w :
  (forall m, entries m ≡ₚ map_to_list m) ->
  forall p,
    p ∈ (List.filter (fun e : string * gset string => bool_decide (path file ∈ e.2))
                     (entries (canvasIndex w))).*1
    <-> exists refs, canvasIndex w !! p = Some refs /\ path file ∈ refs.
Proof.
  intros Hentries p. rewrite list_elem_of_fmap. split.
  - intros ([q refs] & -> & Hin). apply list_elem_of_In, filter_In in Hin as [Hin Hp].
    apply list_elem_of_In in Hin. rewrite Hentries in Hin.
    apply elem_of_map_to_list in Hin. apply bool_decide_eq_true in Hp.
    by exists refs.
  - intros (refs & Hp & Hin). exists (p, refs). split; [done|].
    apply list_elem_of_In, filter_In. split.
    + apply list_elem_of_In. rewrite Hentries. by apply elem_of_map_to_list.
    + by apply bool_decide_eq_true.
Qed.

(** X23: [autoSyncToCanvases] never rejects and leaves the index alone; it
    writes only canvases whose index set holds the note, and every other
    file of the vault keeps its text; when no canvas refers to the note,
    nothing happens at all. The host is assumed to return, for a path, the
    file at that path. *)
Theorem autoSyncToCanvases_related file w
  (Hentries : forall m, entries m ≡ₚ map_to_list m)
  (Hhost : forall p f, getAbstractFileByPath p = Some f -> path f = p) :
  let related := fun k =>
    exists refs, canvasIndex w !! k = Some refs /\ path file ∈ refs in
  (autoSyncToCanvases file w).1 = Fulfilled ()
  /\ canvasIndex (autoSyncToCanvases file w).2 = canvasIndex w
  /\ (exists new,
        trace (autoSyncToCanvases file w).2 = trace w ++ new
        /\ forall f c, Modified f c ∈ new -> related f)
  /\ (forall k, ~ related k ->
        vault (autoSyncToCanvases file w).2 !! k = vault w !! k)
  /\ ((forall k, ~ related k) -> (autoSyncToCanvases file w).2 = w).
Proof.
  intros related. unfold Maintenance.autoSyncToCanvases.
  set (paths := (List.filter _ (entries (canvasIndex w))).*1).
  pose proof (related_paths file w Hentries) as Hpaths. fold paths in Hpaths.
  fold related in Hpaths.
  destruct (syncRelated_loop file paths w) as (Hr & Hi & (new & Hnew & Hfrom) & Hv).
  split_and!; [done|done| | |].
  - exists new. split; [done|]. intros f c Hin.
    destruct (Hfrom f c Hin) as (p & cf & Hp & Hcf & ->).
    rewrite (Hhost p cf Hcf). by apply Hpaths.
  - intros k Hk. apply Hv. intros p cf Hp Hcf <-.
    rewrite (Hhost p cf Hcf) in Hk. by apply Hk, Hpaths.
  - intros Hnone. destruct paths as [|p rest]; [done|].
    destruct (Hnone p). apply Hpaths, list_elem_of_here.
Qed.

(** X24: the listeners never reject. A modified canvas is indexed anew
    and no file is written; a modified note changes no index entry; a
    modified file of any other kind, and a deleted or renamed file that is
    no canvas, change nothing. A deleted canvas loses its entry; a renamed
    canvas loses the entry under its old path and gets the one its text
    gives under the new path. *)
Theorem listeners_by_kind file oldPath w :
  let fresh := (vault w !! path file ≫= JSON_parse) ≫= entryAt (path file) in
  ((onModify file w).1 = Fulfilled ()
   /\ (onDelete file w).1 = Fulfilled ()
   /\ (onRename file oldPath w).1 = Fulfilled ())
  /\ (extension file = "canvas" ->
      vault (onModify file w).2 = vault w
      /\ writes (trace (onModify file w).2) = writes (trace w)
      /\ canvasIndex (onModify file w).2 !! path file = fresh
      /\ (onDelete file w).2
         = mkWorld (vault w) (delete (path file) (canvasIndex w)) (trace w)
      /\ vault (onRename file oldPath w).2 = vault w
      /\ canvasIndex (onRename file oldPath w).2 !! path file = fresh
      /\ (oldPath <> path file ->
          canvasIndex (onRename file oldPath w).2 !! oldPath = None)
      /\ (forall k, k <> oldPath -> k <> path file ->
            canvasIndex (onRename file oldPath w).2 !! k = canvasIndex w !! k))
  /\ (extension file <> "canvas" ->
      canvasIndex (onModify file w).2 = canvasIndex w
      /\ (extension file <> "md" -> (onModify file w).2 = w)
      /\ (onDelete file w).2 = w
      /\ (onRename file oldPath w).2 = w).
Proof.
  intros fresh. unfold Maintenance.onModify, Maintenance.onDelete,
    Maintenance.onRename.
  assert ((autoSyncToCanvases file w).1 = Fulfilled ()
          /\ canvasIndex (autoSyncToCanvases file w).2 = canvasIndex w)
    as [Hauto Hidx].
  { unfold Maintenance.autoSyncToCanvases.
    by destruct (syncRelated_loop file
                   (List.filter (fun e : string * gset string =>
                                   bool_decide (path file ∈ e.2))
                                (entries (canvasIndex w))).*1 w)
      as (? & ? & _). }
  case_bool_decide as Hcanvas.
  - unfold mbind, async_bind, index_delete.
    rewrite !indexSingleCanvas_run. cbn [fst snd vault canvasIndex trace].
    split_and!; [done|done|done| |done]. intros _.
    subst fresh. destruct ((vault w !! path file ≫= JSON_parse) ≫= _) as [data|];
      cbn [fst snd vault canvasIndex trace fmap option_fmap option_map].
    + split_and!; try done.
      * apply lookup_insert_eq.
      * apply lookup_insert_eq.
      * intros Hne. rewrite lookup_insert_ne by done. apply lookup_delete_eq.
      * intros k Hk1 Hk2. rewrite lookup_insert_ne by done.
        by apply lookup_delete_ne.
    + split_and!; try done.
      * unfold writes. rewrite omap_app. cbn. apply app_nil_r.
      * apply lookup_delete_eq.
      * apply lookup_delete_eq.
      * intros Hne. rewrite lookup_delete_ne by done. apply lookup_delete_eq.
      * intros k Hk1 Hk2. rewrite lookup_delete_ne by done.
        by apply lookup_delete_ne.
  - case_bool_decide as Hmd.
    + split_and!; [done|done|done|done|]. intros _. by split_and!.
    + split_and!; [done|done|done|done|]. intros _. by split_and!.
Qed.

Local Notation existingResults :=
  (Maintenance.existingResults getAbstractFileByPath entries).
Local Notation scanCanvasFiles :=
  (Maintenance.scanCanvasFiles getFields getFirstLinkpathDest
                               getAbstractFileByPath entries).
Local Notation findPotentialCanvases :=
  (Navigation.findPotentialCanvases getFields getFirstLinkpathDest).

Lemma mapSet_fresh {V} key (value : V) m :
  key ∉ m.*1 -> mapSet key value m = m ++ [(key, value)].
Proof.
  induction m as [|[k v] m IH]; [done|]. cbn. intros Hout.
  rewrite decide_False by (intros ->; apply Hout, list_elem_of_here).
  rewrite IH; [done|]. intros ?. by apply Hout, list_elem_of_further.
Qed.

(** The first loop of [scanCanvasFiles] over entries with different keys:
    every entry that holds the note and whose file exists adds one
    result. *)
Lemma existing_loop target (es : list (string * gset string)) acc :
  NoDup (acc.*1 ++ es.*1) ->
  foldl (fun resultMap (e : string * gset string) =>
           if bool_decide (path target ∈ e.2)
           then match getAbstractFileByPath e.1 with
                | Some canvasFile => mapSet e.1 (canvasFile, existing) resultMap
                | None => resultMap
                end
           else resultMap) acc es
  = acc ++ omap (fun e : string * gset string =>
                   if bool_decide (path target ∈ e.2)
                   then (fun cf => (e.1, (cf, existing))) <$> getAbstractFileByPath e.1
                   else None) es.
Proof.
  revert acc. induction es as [|e es IH]; intros acc Hnd; cbn.
  { by rewrite app_nil_r. }
  assert (NoDup (acc.*1 ++ es.*1) /\ (e.1 ∉ acc.*1) /\ (e.1 ∉ es.*1))
    as (Hrest & Hacc & Hes).
  { cbn in Hnd. apply NoDup_app in Hnd as (Ha & Hdisj & He).
    apply NoDup_cons in He as [? ?]. split_and!; [| |done].
    - apply NoDup_app. split_and!; [done| |done].
      intros x Hx Hx'. apply (Hdisj x Hx). by apply list_elem_of_further.
    - intros Hx. apply (Hdisj _ Hx), list_elem_of_here. }
  destruct (bool_decide (path target ∈ e.2)); [|by apply IH].
  destruct (getAbstractFileByPath e.1) as [cf|]; [|by apply IH]. cbn.
  rewrite mapSet_fresh by done. rewrite IH.
  - by rewrite <- app_assoc.
  - rewrite fmap_app. cbn. rewrite <- app_assoc. cbn.
    apply NoDup_app in Hrest as (Ha & Hdisj & He).
    apply NoDup_app. split_and!; [done| |by apply NoDup_cons].
    intros x Hx [->|Hx']%elem_of_cons; [done|]. by apply (Hdisj x).
Qed.

(** The second loop: the map grows at its end, by potential canvases
    under paths it did not hold. *)
Lemma addPotentials_spec potentials (acc : list (string * (TFile * RefType))) :
  NoDup acc.*1 ->
  exists added,
    addPotentials potentials acc = acc ++ added
    /\ NoDup (acc ++ added).*1
    /\ (forall k v, (k, v) ∈ added ->
          exists c, c ∈ potentials /\ k = path c /\ v = (c, potential))
    /\ (forall c, c ∈ potentials -> path c ∈ (acc ++ added).*1).
Proof.
  unfold addPotentials. revert acc.
  induction potentials as [|c potentials IH]; intros acc Hnd.
  - exists []. rewrite app_nil_r. split_and!; try done.
    + by intros ? ? []%elem_of_nil.
    + by intros ? []%elem_of_nil.
  - cbn [foldl]. case_bool_decide as Hin.
    + destruct (IH acc Hnd) as (added & -> & Hnd' & Hfrom & Hall).
      exists added. split_and!; [done|done| |].
      * intros k v (c' & ? & ?)%Hfrom. exists c'.
        split; [by apply list_elem_of_further|done].
      * intros c' [->|?]%elem_of_cons; [|by apply Hall].
        rewrite fmap_app. apply elem_of_app. by left.
    + rewrite mapSet_fresh by done.
      destruct (IH (acc ++ [(path c, (c, potential))])) as (added & -> & Hnd' & Hfrom & Hall).
      { rewrite fmap_app. apply NoDup_app. split_and!; [done| |apply NoDup_singleton].
        by intros x Hx ->%list_elem_of_singleton. }
      exists ((path c, (c, potential)) :: added).
      rewrite <- app_assoc in *. cbn in *. split_and!; [done|done| |].
      * intros k v [[= -> ->]|(c' & ? & ?)%Hfrom]%elem_of_cons.
        -- exists c. split; [apply list_elem_of_here|done].
        -- exists c'. split; [by apply list_elem_of_further|done].
      * intros c' [->|?]%elem_of_cons; [|by apply Hall].
        rewrite fmap_app. apply elem_of_app. right. apply list_elem_of_here.
Qed.


End WithHost.

End MaintenanceFacts.

(** ** The maintenance of a vault with one canvas *)

Module MaintenanceExamples.
Import Canvas Host CardText Engine Navigation Maintenance.

Lemma autoSyncToCanvases_related_witness :
  let autoSync :=
    autoSyncToCanvases DemoNav.fields (Demo.parseKnown [("c", Demo.staleCanvas)])
                       Demo.printNodes DemoNav.fileAt map_to_list (fun _ => "gid")
                       Demo.noteA in
  let w := DemoNav.indexed in
  let related := fun k =>
    exists refs, canvasIndex w !! k = Some refs /\ path Demo.noteA ∈ refs in
  (autoSync w).1 = Fulfilled ()
  /\ canvasIndex (autoSync w).2 = canvasIndex w
  /\ (exists new,
        trace (autoSync w).2 = trace w ++ new
        /\ forall f c, Modified f c ∈ new -> related f)
  /\ (forall k, ~ related k -> vault (autoSync w).2 !! k = vault w !! k)
  /\ ((forall k, ~ related k) -> (autoSync w).2 = w).
Proof.
  apply (MaintenanceFacts.autoSyncToCanvases_related DemoNav.fields
           (Demo.parseKnown [("c", Demo.staleCanvas)]) Demo.printNodes
           DemoNav.fileAt map_to_list (fun _ => "gid") Demo.noteA
           DemoNav.indexed).
  - done.
  - intros p f. unfold DemoNav.fileAt. case_bool_decide; [|done].
    by intros [= <-].
Defined.


(** The canvas that the index has for A.md is offered as existing, not as
    potential, although A.md names it under [canvas] too; a note the
    index does not know gets it as potential from its parent A.md. *)
Example scanCanvasFiles_of_A_and_B :
  scanCanvasFiles DemoNav.fields DemoNav.resolve DemoNav.fileAt map_to_list
                  4 Demo.noteA DemoNav.indexed
  = Some ([(Demo.board, existing)], DemoNav.indexed)
  /\ scanCanvasFiles DemoNav.fields DemoNav.resolve DemoNav.fileAt map_to_list
                     4 Demo.noteB DemoNav.indexed
     = Some ([(Demo.board, potential)], DemoNav.indexed).
Proof. split; vm_compute; reflexivity. Qed.

End MaintenanceExamples.

(** ** Measuring a card *)

Module MeasureFacts.
Import Measure.
Local Open Scope Z_scope.

Section WithLayout.
Variable titleRect : string -> option Z.
Variable rectAt : string -> Z -> Z * Z.
Variable text : string.

Local Notation probe := (Measure.probe rectAt text).
Local Notation minW := (Measure.minWidthOf titleRect text).
Local Notation maxW := (Measure.maxWidthOf titleRect text).
Local Notation bisect := (Measure.bisect titleRect rectAt text).
Local Notation heightAt w := (rectAt text w).2.
(** How far the content is from a square when laid out [w] wide. *)
Local Notation offSquare w := (Z.abs (w - heightAt w)).

Lemma minWidthOf_least : CARD_MIN_WIDTH <= minW <= maxW.
Proof.
  unfold Measure.maxWidthOf, Measure.minWidthOf, CARD_MIN_WIDTH, CARD_MAX_WIDTH.
  lia.
Qed.

(** The bounds the loop keeps. *)
Lemma probe_bounds s :
  minW <= low s <= maxW + 1 -> minW - 2 <= high s <= maxW ->
  low s - 2 <= high s -> minW - 1 <= bestWidth s <= maxW ->
  (minW <= low (probe s) <= maxW + 1)
  /\ (minW - 2 <= high (probe s) <= maxW)
  /\ low (probe s) - 2 <= high (probe s)
  /\ (minW - 1 <= bestWidth (probe s) <= maxW).
Proof.
  intros Hlow Hhigh Hwin Hbest. unfold Measure.probe. cbn.
  pose proof (Z.div_mod (low s + high s) 2 ltac:(lia)) as Hdiv.
  pose proof (Z.mod_pos_bound (low s + high s) 2 ltac:(lia)) as Hmod.
  set (mid := (low s + high s) / 2) in *.
  destruct (mid <? heightAt mid); destruct (bestDiff s) as [d|];
    try destruct (_ <? d); cbn; lia.
Qed.

Lemma bisect_bounds n s :
  minW <= low s <= maxW + 1 -> minW - 2 <= high s <= maxW ->
  low s - 2 <= high s -> minW - 1 <= bestWidth s <= maxW ->
  minW - 1 <= bestWidth (Nat.iter n probe s) <= maxW.
Proof.
  intros Hlow Hhigh Hwin Hbest.
  assert ((minW <= low (Nat.iter n probe s) <= maxW + 1)
          /\ (minW - 2 <= high (Nat.iter n probe s) <= maxW)
          /\ low (Nat.iter n probe s) - 2 <= high (Nat.iter n probe s)
          /\ (minW - 1 <= bestWidth (Nat.iter n probe s) <= maxW)) as (_ & _ & _ & ?);
    [|done].
  induction n as [|n (? & ? & ? & ?)]; [done|]. cbn [Nat.iter].
  by apply probe_bounds.
Qed.

(** The window halves with every round, and stays empty once it is. *)
Lemma probe_window s :
  (0 < high s - low s + 1 ->
   2 * (high (probe s) - low (probe s) + 1) <= high s - low s + 1)
  /\ (high s - low s + 1 <= 0 -> high (probe s) - low (probe s) + 1 <= 0).
Proof.
  unfold Measure.probe. cbn.
  pose proof (Z.div_mod (low s + high s) 2 ltac:(lia)) as Hdiv.
  pose proof (Z.mod_pos_bound (low s + high s) 2 ltac:(lia)) as Hmod.
  set (mid := (low s + high s) / 2) in *.
  destruct (mid <? heightAt mid); cbn; lia.
Qed.

Lemma bisect_window n s :
  high s - low s + 1 < 2 ^ Z.of_nat n ->
  high (Nat.iter n probe s) - low (Nat.iter n probe s) + 1 <= 0.
Proof.
  revert s. induction n as [|n IH]; intros s Hsize.
  - cbn in *. lia.
  - rewrite Nat.iter_succ_r. apply IH.
    rewrite Nat2Z.inj_succ, Z.pow_succ_r in Hsize by lia.
    destruct (probe_window s) as [Hhalf Hempty].
    pose proof (Z.pow_pos_nonneg 2 (Z.of_nat n) ltac:(lia) ltac:(lia)).
    destruct (decide (0 < high s - low s + 1)); [specialize (Hhalf ltac:(done))|
      specialize (Hempty ltac:(lia))]; lia.
Qed.

(** Every width of the range is still in the window, or no nearer to a
    square than the best width so far. *)
Local Notation settled s :=
  ((forall d, bestDiff s = Some d -> d = offSquare (bestWidth s))
   /\ forall w, minW <= w <= maxW ->
        low s <= w <= high s
        \/ exists d, bestDiff s = Some d /\ d <= offSquare w).

Lemma probe_settled s :
  (forall a b, minW - 1 <= a -> a <= b -> b <= maxW -> heightAt b <= heightAt a) ->
  minW <= low s <= maxW + 1 -> minW - 2 <= high s <= maxW ->
  low s - 2 <= high s ->
  settled s -> settled (probe s).
Proof.
  intros Hmono Hlow Hhigh Hwin [Hbest Hdom]. unfold Measure.probe. cbn.
  pose proof (Z.div_mod (low s + high s) 2 ltac:(lia)) as Hdiv.
  pose proof (Z.mod_pos_bound (low s + high s) 2 ltac:(lia)) as Hmod.
  set (mid := (low s + high s) / 2) in *.
  set (better := match bestDiff s with
                 | Some d => Z.abs (mid - heightAt mid) <? d
                 | None => true
                 end).
  assert (exists d', (if better then Some (offSquare mid) else bestDiff s) = Some d'
                     /\ d' <= offSquare mid
                     /\ (forall d, bestDiff s = Some d -> d' <= d)
                     /\ d' = offSquare (if better then mid else bestWidth s))
    as (d' & Hd' & Hmid & Hold & Hat).
  { subst better. destruct (bestDiff s) as [d|] eqn:Hd.
    - destruct (Z.ltb_spec (offSquare mid) d).
      + exists (offSquare mid). split_and!; try done. intros ? [= <-]. lia.
      + exists d. split_and!; try done; [by intros ? [= <-]|by apply Hbest].
    - exists (offSquare mid). by split_and!. }
  split.
  - intros d Hd. rewrite Hd' in Hd. injection Hd as <-. done.
  - intros w Hw. rewrite Hd'.
    destruct (Hdom w Hw) as [Hin|(d & Hd & Hle)].
    + destruct (Z.ltb_spec mid (heightAt mid)) as [Hlt|Hge].
      * destruct (decide (mid + 1 <= w)); [left; lia|right].
        exists d'. split; [done|].
        pose proof (Hmono w mid ltac:(lia) ltac:(lia) ltac:(lia)). lia.
      * destruct (decide (w <= mid - 1)); [left; lia|right].
        exists d'. split; [done|].
        pose proof (Hmono mid w ltac:(lia) ltac:(lia) ltac:(lia)). lia.
    + right. exists d'. split; [done|]. specialize (Hold d Hd). lia.
Qed.

(** X26: the measured card is a square whose side holds the final
    rectangle with its margins of 40 and 50; the width it was laid out
    with is one the bisection probed, between the least width less one and
    the greatest width, the least being at least [CARD_MIN_WIDTH]. *)
Theorem measureTextPrecisely_square :
  let size := Measure.measureTextPrecisely titleRect rectAt text in
  let final := rectAt text (bestWidth bisect) in
  size.1 = size.2
  /\ size.1 = Z.max (final.1 + 40) (final.2 + 50)
  /\ CARD_MIN_WIDTH <= minW <= maxW
  /\ minW - 1 <= bestWidth bisect <= maxW.
Proof.
  intros size final. pose proof minWidthOf_least as Hleast.
  assert (minW - 1 <= bestWidth bisect <= maxW) as Hbest.
  { unfold Measure.bisect. apply bisect_bounds; cbn [low high bestWidth]; lia. }
  subst size final. unfold Measure.measureTextPrecisely.
  generalize dependent (bestWidth bisect). intros best Hbest. cbn [fst snd].
  split; [reflexivity|]. split; [reflexivity|]. by split.
Qed.

(** X27: where the content gets no higher when it is laid out wider (over
    the widths from the least less one to the greatest), and the least
    width is at most 1022 (a title of at most 942 pixels), the ten rounds
    of the bisection find the width that is nearest to a square: no width
    of the range has its height nearer to it. *)
Theorem bisect_nearest_square
  (Hmono : forall a b, minW - 1 <= a -> a <= b -> b <= maxW ->
                       heightAt b <= heightAt a)
  (Htitle : minW <= 1022) :
  forall w, minW <= w <= maxW ->
    offSquare (bestWidth bisect) <= offSquare w.
Proof.
  pose proof minWidthOf_least as Hleast.
  unfold Measure.bisect.
  set (start := mkSearch minW maxW minW None).
  assert (forall n,
            ((minW <= low (Nat.iter n probe start) <= maxW + 1)
             /\ (minW - 2 <= high (Nat.iter n probe start) <= maxW)
             /\ low (Nat.iter n probe start) - 2 <= high (Nat.iter n probe start)
             /\ (minW - 1 <= bestWidth (Nat.iter n probe start) <= maxW))
            /\ settled (Nat.iter n probe start)) as Hsettled.
  { induction n as [|n [(? & ? & ? & ?) IH]].
    - split; [cbn; lia|]. split; [done|]. intros w Hw. by left.
    - cbn [Nat.iter]. split; [by apply probe_bounds|by apply probe_settled]. }
  pose proof (Hsettled 10%nat) as [_ [Hbest Hdom]].
  pose proof (bisect_window 10 start) as Hempty.
  generalize dependent (Nat.iter 10 probe start). intros final Hbest Hdom Hempty.
  assert (high final - low final + 1 <= 0) as Hwindow.
  { apply Hempty. subst start. cbn [low high].
    change (2 ^ Z.of_nat 10) with 1024.
    unfold Measure.maxWidthOf, CARD_MAX_WIDTH, CARD_MIN_WIDTH in *. lia. }
  intros w Hw. destruct (Hdom w Hw) as [Hin|(d & Hd & Hle)]; [lia|].
  by rewrite <- (Hbest d Hd).
Qed.

End WithLayout.

Lemma bisect_nearest_square_witness :
  let rectAt := fun (_ : string) w => (w, 2000 - w) in
  bestWidth (Measure.bisect (fun _ => None) rectAt "t") = 1000
  /\ forall w,
      Measure.minWidthOf (fun _ => None) "t" <= w
      <= Measure.maxWidthOf (fun _ => None) "t" ->
      Z.abs (bestWidth (Measure.bisect (fun _ => None) rectAt "t")
             - (rectAt "t" (bestWidth (Measure.bisect (fun _ => None) rectAt "t"))).2)
      <= Z.abs (w - (rectAt "t" w).2).
Proof.
  intros rectAt. split; [by vm_compute|].
  apply (bisect_nearest_square (fun _ => None) rectAt "t").
  - intros a b _ Hab _. cbn. lia.
  - by cbv.
Defined.

(** A content that is 259 high at every width: the tenth round probes
    259, one below the least width, and that is the width kept. *)
Example bisect_below_least_width :
  let rectAt := fun (_ : string) w => (w, 259) in
  Measure.minWidthOf (fun _ => None) "t" = 260
  /\ bestWidth (Measure.bisect (fun _ => None) rectAt "t") = 259
  /\ Measure.measureTextPrecisely (fun _ => None) rectAt "t" = (309, 309).
Proof. split_and!; by vm_compute. Qed.

End MeasureFacts.

(** ** Finding the card in an opened canvas *)

Module ZoomFacts.
Import JsString Canvas Zoom.

Section WithView.
Variable target : Target.
Variable view : nat -> option (list (string * ViewNode)).

Local Notation poll := (Zoom.poll target view).
Local Notation tryZoomToNode := (Zoom.tryZoomToNode target view).

(** A round that neither finds the node nor gives up. *)
Local Notation waits i :=
  (view i = None
   \/ exists nodes, view i = Some nodes /\ findNode target nodes = None
                    /\ i + 1 < 30).

Lemma pollTick_cases now :
  (pollTick target now (view now) = (S now, Wait) /\ waits now)
  \/ (exists nodes node,
        view now = Some nodes /\ findNode target nodes = Some node
        /\ pollTick target now (view now) = (S now, Zoom node))
  \/ (exists nodes,
        view now = Some nodes /\ findNode target nodes = None /\ 30 <= now + 1
        /\ pollTick target now (view now) = (S now, GiveUp)).
Proof.
  unfold pollTick. destruct (view now) as [nodes|]; [|left; by split; [|left]].
  destruct (findNode target nodes) as [node|] eqn:Hfind.
  - right. left. by exists nodes, node.
  - destruct (Nat.leb_spec 30 (S now)).
    + right. right. exists nodes. split_and!; try done. lia.
    + left. split; [done|]. right. exists nodes. split_and!; try done. lia.
Qed.

Lemma poll_stops fuel now t outcome :
  poll fuel now now = Some (t, outcome) ->
  now <= t < now + fuel
  /\ (forall i, now <= i < t -> waits i)
  /\ match outcome with
     | Zoom node =>
         exists nodes, view t = Some nodes /\ findNode target nodes = Some node
     | GiveUp =>
         exists nodes, view t = Some nodes /\ findNode target nodes = None
                       /\ 30 <= t + 1
     | Wait => False
     end.
Proof.
  revert now. induction fuel as [|fuel IH]; intros now; [done|]. cbn [Zoom.poll].
  destruct (pollTick_cases now)
    as [[-> Hwait]|[(nodes & node & Hview & Hfind & ->)
                   |(nodes & Hview & Hfind & Hmax & ->)]].
  - intros (Ht & Hbefore & Hout)%IH. split_and!; [lia|lia| |done].
    intros i Hi. destruct (decide (i = now)) as [->|]; [done|].
    apply Hbefore. lia.
  - intros [= <- <-]. split_and!; [lia|lia|intros; lia|by exists nodes].
  - intros [= <- <-]. split_and!; [lia|lia|intros; lia|by exists nodes].
Qed.

Lemma poll_absent fuel now :
  (forall i, view i = None) -> poll fuel now now = None.
Proof.
  intros Habsent. revert now. induction fuel as [|fuel IH]; intros now; [done|].
  cbn [Zoom.poll]. unfold pollTick. by rewrite Habsent.
Qed.

Lemma poll_present since distance now :
  (forall i, since <= i -> is_Some (view i)) ->
  now + distance = Nat.max since 29 ->
  exists t outcome,
    t <= Nat.max since 29
    /\ forall fuel, distance < fuel -> poll fuel now now = Some (t, outcome).
Proof.
  intros Hpresent. revert now. induction distance as [|distance IH]; intros now Hnow.
  - destruct (pollTick_cases now)
      as [[Htick Hwait]|[(nodes & node & _ & _ & Htick)|(nodes & _ & _ & _ & Htick)]].
    + destruct (Hpresent now ltac:(lia)) as [nodes Hview].
      destruct Hwait as [?|(? & _ & _ & ?)]; [congruence|lia].
    + exists now, (Zoom node). split; [lia|]. intros [|fuel] ?; [lia|].
      cbn [Zoom.poll]. by rewrite Htick.
    + exists now, GiveUp. split; [lia|]. intros [|fuel] ?; [lia|].
      cbn [Zoom.poll]. by rewrite Htick.
  - destruct (pollTick_cases now)
      as [[Htick Hwait]|[(nodes & node & _ & _ & Htick)|(nodes & _ & _ & _ & Htick)]].
    + destruct (IH (S now) ltac:(lia)) as (t & outcome & Ht & Hrun).
      exists t, outcome. split; [done|]. intros [|fuel] ?; [lia|].
      cbn [Zoom.poll]. rewrite Htick. apply Hrun. lia.
    + exists now, (Zoom node). split; [lia|]. intros [|fuel] ?; [lia|].
      cbn [Zoom.poll]. by rewrite Htick.
    + exists now, GiveUp. split; [lia|]. intros [|fuel] ?; [lia|].
      cbn [Zoom.poll]. by rewrite Htick.
Qed.

(** X28: the polling of [tryZoomToNode]. When it stops, it stops at the
    first round that finds the node, which it then selects, or at the
    first round from the thirtieth on at which the canvas is there without
    the node; at all rounds before, the canvas was missing or the node
    was, with fewer than thirty rounds done. A canvas that is there from
    some round on makes it stop by that round or the thirtieth, whichever
    is later; a canvas that never appears is polled for ever. *)
Theorem tryZoomToNode_rounds :
  (forall fuel t outcome,
      tryZoomToNode fuel = Some (t, outcome) ->
      t < fuel
      /\ (forall i, i < t -> waits i)
      /\ match outcome with
         | Zoom node =>
             exists nodes, view t = Some nodes /\ findNode target nodes = Some node
         | GiveUp =>
             exists nodes, view t = Some nodes /\ findNode target nodes = None
                           /\ 30 <= t + 1
         | Wait => False
         end)
  /\ (forall since,
        (forall i, since <= i -> is_Some (view i)) ->
        exists t outcome,
          t <= Nat.max since 29
          /\ forall fuel, Nat.max since 29 < fuel ->
               tryZoomToNode fuel = Some (t, outcome))
  /\ ((forall i, view i = None) -> forall fuel, tryZoomToNode fuel = None).
Proof.
  split_and!.
  - intros fuel t outcome (Ht & Hbefore & Hout)%poll_stops.
    split_and!; [lia| |done]. intros i Hi. apply Hbefore. lia.
  - intros since Hpresent.
    by apply (poll_present since (Nat.max since 29) 0).
  - intros Habsent fuel. by apply poll_absent.
Qed.

End WithView.

(** What the node found is: the one stored under the identifier, or the
    first whose file path is the note's or whose text holds the note's
    name. *)
Lemma findNode_found target nodes node :
  findNode target nodes = Some node ->
  match target with
  | ById id => (id, node) ∈ nodes
  | ByFile file => node ∈ nodes.*2 /\ matchesFile file node = true
  end.
Proof.
  unfold findNode. destruct target as [id|file].
  - destruct (List.find _ nodes) as [[k v]|] eqn:Hfind; [|done].
    intros [= <-]. apply find_some in Hfind as [Hin Hk].
    apply bool_decide_eq_true in Hk. cbn in Hk. subst k.
    by apply list_elem_of_In.
  - intros [Hin Hm]%find_some. split; [by apply list_elem_of_In|done].
Qed.

(** A text node that merely mentions the name of the note is taken for
    its card when the search goes by file. *)
Example findNode_by_name :
  findNode (ByFile Demo.note)
           [("n1", mkViewNode None (Some "see my notes"))]
  = Some (mkViewNode None (Some "see my notes")).
Proof. reflexivity. Qed.

End ZoomFacts.

(** ** The frame of a new card under the adjustment *)

Module FrameFacts.
Import JsString LinkExtractor Canvas Host CardText Engine LinkExtractorFacts
  CreateFacts AdjustFacts.

Lemma aliasedCard_has_alias f d :
  includes (aliasedCard f d) ("[[" +:+ basename f +:+ "|") = true.
Proof.
  unfold aliasedCard.
  change (includes ("# " +:+ "[[" +:+ basename f +:+ "|" +:+ cleanName (basename f)
                         +:+ "]]" +:+ LF +:+ LF +:+ d)
                   ("[[" +:+ basename f +:+ "|") = true).
  apply includes_app_r.
  replace ("[[" +:+ basename f +:+ "|" +:+ cleanName (basename f)
                +:+ "]]" +:+ LF +:+ LF +:+ d)
    with (("[[" +:+ basename f +:+ "|") +:+ cleanName (basename f)
                +:+ "]]" +:+ LF +:+ LF +:+ d).
  - apply includes_here, startsWith_app.
  - by rewrite !string_app_assoc.
Qed.

Lemma find_none_app {A} (f : A -> bool) l tail :
  (forall x, x ∈ l -> f x = false) -> List.find f (l ++ tail) = List.find f tail.
Proof.
  induction l as [|a l IH]; intros Hl; [done|]. cbn.
  rewrite (Hl a) by apply list_elem_of_here.
  apply IH. intros x Hx. by apply Hl, list_elem_of_further.
Qed.

Section WithHost.
Variable measureTextPrecisely : string -> Q * Q.
Local Notation newCard := (Engine.newCard measureTextPrecisely).

(** X29: the frame [addToCanvas] creates with a card is in place for
    [adjustGroupsInCanvas]: on a canvas none of whose nodes answers to the
    name of the note, the adjustment leaves the new frame and the new card
    as they are. *)
Theorem new_frame_adjusted nf id gid d ns
  (Hfree : forall n, n ∈ ns -> matchesLabel (basename nf) n = false) :
  let card := newCard id (aliasedCard nf d) ns in
  let frame := frameOf gid (basename nf) card in
  adjusted (ns ++ [frame; card]) frame = frame
  /\ adjusts (ns ++ [frame; card]) frame = false
  /\ adjusted (ns ++ [frame; card]) card = card.
Proof.
  intros card frame.
  destruct (newCard_fields measureTextPrecisely id (aliasedCard nf d) ns)
    as (_ & Htype & Htext & _).
  fold card in Htype, Htext.
  assert (matchesLabel (basename nf) card = true) as Hcard.
  { unfold matchesLabel, hasType. rewrite Htype, Htext.
    rewrite (bool_decide_eq_false_2 ("text" = "file")) by done.
    rewrite (bool_decide_eq_true_2 ("text" = "text")) by done.
    cbv beta iota. by rewrite aliasedCard_has_alias, orb_true_r. }
  assert (forall nonGroups, adjustGroup (ns ++ [frame; card]) nonGroups frame = None)
    as Hnone.
  { intros nonGroups. unfold adjustGroup.
    destruct (1 <? _)%nat; [done|]. cbn [node_label frame frameOf groupFrame].
    case_bool_decide; [done|].
    rewrite find_none_app by done. cbn [List.find].
    change (matchesLabel (basename nf) frame) with false. rewrite Hcard.
    assert (geometryDiffers frame card = false) as ->; [|done].
    unfold geometryDiffers, Qneb. cbn. by rewrite !Qeq_bool_refl. }
  unfold adjusted, adjusts. rewrite !Hnone.
  split_and!; [done|by rewrite andb_false_r|].
  unfold hasType. by rewrite Htype.
Qed.

End WithHost.

Lemma new_frame_adjusted_witness :
  let card := newCard Demo.measure "id" (aliasedCard Demo.note "d")
                      [Demo.textNode "n1" "elsewhere"] in
  let frame := frameOf "gid" (basename Demo.note) card in
  adjusted ([Demo.textNode "n1" "elsewhere"] ++ [frame; card]) frame = frame
  /\ adjusts ([Demo.textNode "n1" "elsewhere"] ++ [frame; card]) frame = false
  /\ adjusted ([Demo.textNode "n1" "elsewhere"] ++ [frame; card]) card = card.
Proof.
  apply (new_frame_adjusted Demo.measure Demo.note "id" "gid" "d"
           [Demo.textNode "n1" "elsewhere"]).
  intros n ->%list_elem_of_singleton. reflexivity.
Defined.

(** A file card of a note of the same name in another folder answers to
    the name as well: it is no card of note.md for [addToCanvas], which
    creates one, but the adjustment then moves the new frame onto it. *)
Example new_frame_moved_away :
  let other := Demo.fileNode "n1" "archive/note.md" in
  let card := newCard Demo.measure "id" (aliasedCard Demo.note "d") [other] in
  let frame := frameOf "gid" (basename Demo.note) card in
  lookupCard (path Demo.note) (linkPrefix Demo.note) [other] = None
  /\ sameGeometry frame card
  /\ sameGeometry (adjusted ([other] ++ [frame; card]) frame) other
  /\ adjusts ([other] ++ [frame; card]) frame = true.
Proof. by vm_compute. Qed.

End FrameFacts.

(** ** The size-syncing synchronisation, run twice *)

Module SizedFacts.
Import JsString Canvas Host CardText Engine CreateFacts SyncFacts IdempotenceFacts.

Lemma syncTextsAndSizes_again link t w h ns st st' :
  includes t link = true ->
  snd st' = snd st ->
  syncTextsAndSizes link t w h (syncTextsAndSizes link t w h ns st).1 st'
  = ((syncTextsAndSizes link t w h ns st).1,
     (fst st', snd (syncTextsAndSizes link t w h ns st).2)).
Proof.
  intros Hinc. revert st st'. induction ns as [|n ns IH]; intros st st' Hst.
  { cbn. destruct st'. cbn in *. by subst. }
  cbn. destruct (isTextCardFor link n) eqn:Hc.
  - set (changed := bool_decide (node_text n <> Some t) || isSizeDiff n w h).
    set (n' := if changed then set_size w h (set_text t n) else n).
    assert (isTextCardFor link n' = true /\ node_text n' = Some t
            /\ isSizeDiff n' w h = false /\ node_id n' = node_id n)
      as (Hc' & Ht' & Hs' & Hi').
    { subst n' changed.
      destruct (bool_decide (node_text n <> Some t) || isSizeDiff n w h) eqn:Hd.
      - split_and!; try done.
        + unfold isTextCardFor, hasType in *. cbn.
          apply andb_true_iff in Hc as [-> _]. done.
        + apply (isSizeDiff_same (set_size w h (set_text t n))).
      - apply orb_false_iff in Hd as [Hd ?]. split_and!; try done.
        apply bool_decide_eq_false in Hd. by apply dec_stable in Hd. }
    specialize (IH (fst st || changed, Some (node_id n))
                   (fst st', Some (node_id n')) ltac:(by rewrite Hi')).
    destruct (syncTextsAndSizes link t w h ns _) as [ns' st1]. cbn [fst snd] in *.
    cbn [syncTextsAndSizes]. rewrite Hc', Ht', Hs'.
    rewrite bool_decide_eq_false_2 by (by intros []). cbn [orb].
    rewrite orb_false_r. by rewrite IH.
  - specialize (IH st st' Hst).
    destruct (syncTextsAndSizes link t w h ns st) as [ns' st1]. cbn [fst snd] in *.
    cbn [syncTextsAndSizes]. by rewrite Hc, IH.
Qed.

(** A second pass with the same text and size changes nothing and finds
    the same target. *)
Lemma syncNodes_sized_again nf t w h ns :
  includes t (linkPrefix nf) = true ->
  syncNodes_sized nf t w h (syncNodes_sized nf t w h ns).1.1
  = ((syncNodes_sized nf t w h ns).1.1, false, (syncNodes_sized nf t w h ns).2).
Proof.
  intros Hinc.
  pose proof (syncTextsAndSizes_again (linkPrefix nf) t w h ns (false, None)
                (false, None) Hinc eq_refl) as Hagain.
  unfold syncNodes_sized at 2 3 4.
  destruct (syncTextsAndSizes (linkPrefix nf) t w h ns (false, None))
    as [ns1 [upd tid]]. cbn [fst snd] in *.
  unfold syncNodes_sized. by rewrite Hagain.
Qed.

Section WithHost.
Variable getFrontmatter : TFile -> option Frontmatter.
Variable JSON_parse : string -> option JsValue.
Variable JSON_stringify : JsValue -> string.
Variable measureTextPrecisely : string -> Q * Q.

Local Notation syncNodeInCanvas_sized :=
  (Engine.syncNodeInCanvas_sized getFrontmatter JSON_parse JSON_stringify
                                 measureTextPrecisely).
Local Notation extractNodeText_plain :=
  (CardText.extractNodeText_plain getFrontmatter).

(** X30: the size-syncing [syncNodeInCanvas] of main.ts is idempotent: a
    second call right after the first returns the same identifier and
    leaves the world as the first call left it. What the first call stored
    is assumed to be read back as the document it was serialized from. *)
Theorem syncNodeInCanvas_sized_idempotent cf nf w content data ns text
  (Hpaths : path nf <> path cf)
  (Hread : vault w !! path cf = Some content)
  (Hparse : JSON_parse content = Some (VObj data))
  (Hnodes : nodes data = Some ns)
  (Htext : extractNodeText_plain nf w = (Fulfilled text, w))
  (Hcodec :
     let size := measureTextPrecisely text in
     let synced := set_nodes (syncNodes_sized nf text size.1 size.2 ns).1.1 data in
     JSON_parse (JSON_stringify synced) = Some (VObj synced)) :
  syncNodeInCanvas_sized cf nf (syncNodeInCanvas_sized cf nf w).2
  = syncNodeInCanvas_sized cf nf w.
Proof.
  assert (includes text (linkPrefix nf) = true) as Hinc.
  { apply extractNodeText_plain_inv in Htext as (_ & d & _ & ->).
    apply plainCard_has_prefix. }
  pose proof (syncNodeInCanvas_sized_run getFrontmatter JSON_parse JSON_stringify
                measureTextPrecisely cf nf w content data ns text
                Hread Hparse Hnodes Htext) as Hfirst.
  cbn zeta in Hfirst, Hcodec. rewrite Hfirst. cbn [snd].
  destruct ((syncNodes_sized nf text (measureTextPrecisely text).1
                             (measureTextPrecisely text).2 ns).1.2) eqn:Hupd.
  - pose proof (syncNodeInCanvas_sized_run getFrontmatter JSON_parse JSON_stringify
                  measureTextPrecisely cf nf _ _ _ _ text
                  (lookup_insert_eq _ _ _) Hcodec eq_refl
                  (extractNodeText_plain_modified _ _ _ _ _ _ Hpaths Htext))
      as Hsecond.
    cbn zeta in Hsecond. rewrite Hsecond.
    by rewrite (syncNodes_sized_again nf text _ _ ns Hinc).
  - by rewrite Hfirst.
Qed.

End WithHost.

Lemma syncNodeInCanvas_sized_idempotent_witness :
  let w := Demo.worldOf [("board.canvas", "c")] in
  let size := Demo.measure Demo.cardText_plain in
  let synced :=
    set_nodes (syncNodes_sized Demo.note Demo.cardText_plain size.1 size.2
                               [Demo.textNode "n1" "# [[note|note]] old"]).1.1
              Demo.staleCanvas in
  let parse := Demo.parseKnown [("c", Demo.staleCanvas);
                                (Demo.printNodes synced, synced)] in
  syncNodeInCanvas_sized Demo.frontmatter parse Demo.printNodes Demo.measure
    Demo.board Demo.note
    (syncNodeInCanvas_sized Demo.frontmatter parse Demo.printNodes Demo.measure
                            Demo.board Demo.note w).2
  = syncNodeInCanvas_sized Demo.frontmatter parse Demo.printNodes Demo.measure
                           Demo.board Demo.note w.
Proof.
  intros w size synced parse.
  apply (syncNodeInCanvas_sized_idempotent Demo.frontmatter parse Demo.printNodes
           Demo.measure Demo.board Demo.note w "c" Demo.staleCanvas
           [Demo.textNode "n1" "# [[note|note]] old"] Demo.cardText_plain);
    [done|reflexivity..].
Defined.

End SizedFacts.

(** ** The create-or-sync flow, called twice *)

Module FlowFacts.
Import JsString Canvas Host CardText Engine StringFacts CreateFacts SyncFacts
  IdempotenceFacts SyncMoreFacts.

Local Notation retext link t :=
  (fun n => if isTextCardFor link n then set_text t n else n).

Lemma set_text_fixed t n : set_text t n = n -> node_text n = Some t.
Proof. intros <-. by destruct n. Qed.

(** The first loop of the sync changes the array exactly when a text card
    of the note shows another text. *)
Lemma retext_changes link t (ns : list CanvasNode) :
  retext link t <$> ns <> ns
  <-> exists n, n ∈ ns /\ isTextCardFor link n = true /\ node_text n <> Some t.
Proof.
  induction ns as [|n ns IH]; cbn.
  - split; [done|]. by intros (? & ?%elem_of_nil & _).
  - split.
    + intros Hne.
      destruct (decide (isTextCardFor link n = true /\ node_text n <> Some t))
        as [[? ?]|Hn].
      { exists n. split; [apply list_elem_of_here|done]. }
      destruct (proj1 IH) as (m & ? & ? & ?).
      * intros Heq. apply Hne. rewrite Heq. f_equal.
        destruct (isTextCardFor link n); [|done].
        apply set_text_same. destruct (decide (node_text n = Some t)); [done|].
        by destruct Hn.
      * exists m. split; [by apply list_elem_of_further|done].
    + intros (m & [->|Hin]%elem_of_cons & Hc & Ht).
      * rewrite Hc. intros [= H _]. by apply set_text_fixed in H.
      * intros [= _ H]. apply IH; [|done]. by exists m.
Qed.

(** The sync of a canvas that holds a card of the note: it has a target,
    and it changes the array exactly when a text card of the note shows
    another text or the note has no frame. *)
Lemma syncNodes_found nf t gid ns found :
  lookupCard (path nf) (linkPrefix nf) ns = Some found ->
  is_Some (syncNodes nf t gid ns).2
  /\ ((syncNodes nf t gid ns).1.2 = true
      <-> (exists n, n ∈ ns /\ isTextCardFor (linkPrefix nf) n = true
                     /\ node_text n <> Some t)
          \/ (forall n, n ∈ ns -> isGroupOf (basename nf) n = false)).
Proof.
  intros Hfound.
  pose proof (syncNodes_cases nf t gid ns) as Hcases. cbn zeta in Hcases.
  destruct Hcases
    as (st2 & -> & Hupd & [(Hnone & _)|(n & Hn & Hc & Hid & Hnode)]);
    [congruence|].
  unfold repairGroup. rewrite Hnode, existsb_retext, Hid.
  rewrite retext_changes in Hupd.
  destruct (existsb (isGroupOf (basename nf)) ns) eqn:Hg; cbn.
  - split; [done|]. rewrite Hupd. split; [by left|]. intros [H|H]; [done|].
    apply existsb_exists in Hg as (g & Hg1%list_elem_of_In & Hg2).
    by rewrite H in Hg2.
  - split; [done|]. split; [|done]. intros _. right. by apply existsb_false.
Qed.

Local Notation offSize link t w h :=
  (fun n => isTextCardFor link n
            && (bool_decide (node_text n <> Some t) || isSizeDiff n w h)).

Lemma syncTextsAndSizes_state link t w h ns st :
  fst (syncTextsAndSizes link t w h ns st).2
  = fst st || existsb (offSize link t w h) ns
  /\ (is_Some (snd st) \/ existsb (isTextCardFor link) ns = true ->
      is_Some (snd (syncTextsAndSizes link t w h ns st).2))
  /\ (existsb (isTextCardFor link) ns = false ->
      (syncTextsAndSizes link t w h ns st).1 = ns
      /\ snd (syncTextsAndSizes link t w h ns st).2 = snd st).
Proof.
  revert st. induction ns as [|n ns IH]; intros st; cbn.
  - split_and!; [by rewrite orb_false_r|by intros [?|?]|done].
  - destruct (isTextCardFor link n) eqn:Hc; cbn.
    + set (d := bool_decide (node_text n <> Some t) || isSizeDiff n w h).
      specialize (IH (fst st || d, Some (node_id n))).
      destruct (syncTextsAndSizes link t w h ns _) as [ns' st']. cbn in *.
      destruct IH as (Hflag & Hid & _). split_and!.
      * by rewrite Hflag, orb_assoc.
      * intros _. apply Hid. by left.
      * done.
    + specialize (IH st).
      destruct (syncTextsAndSizes link t w h ns st) as [ns' st']. cbn in *.
      destruct IH as (Hflag & Hid & Hsame). split_and!; [done|done|].
      intros Hno. destruct (Hsame Hno) as [-> ->]. done.
Qed.

Lemma lookupCard_file_card p l ns found :
  lookupCard p l ns = Some found ->
  existsb (isTextCardFor l) ns = false ->
  is_Some (List.find (isFileCardFor p) ns).
Proof.
  induction ns as [|n ns IH]; [done|]. cbn.
  destruct (isFileCardFor p n); [done|].
  destruct (isTextCardFor l n); [done|]. apply IH.
Qed.

(** The same for the size-syncing variant, which repairs no frame. *)
Lemma syncNodes_sized_found nf t w h ns found :
  lookupCard (path nf) (linkPrefix nf) ns = Some found ->
  is_Some (syncNodes_sized nf t w h ns).2
  /\ ((syncNodes_sized nf t w h ns).1.2 = true
      <-> exists n, n ∈ ns /\ isTextCardFor (linkPrefix nf) n = true
                    /\ (node_text n <> Some t \/ isSizeDiff n w h = true)).
Proof.
  intros Hfound. unfold syncNodes_sized.
  pose proof (syncTextsAndSizes_state (linkPrefix nf) t w h ns (false, None))
    as (Hflag & Hid & Hsame).
  destruct (syncTextsAndSizes _ _ _ _ ns _) as [ns1 [upd tid]]. cbn in *.
  split.
  - destruct (existsb (isTextCardFor (linkPrefix nf)) ns) eqn:Hcards.
    + destruct Hid as [i ->]; [by right|].
      destruct (truthyId (Some i)); [done|]. by destruct (List.find _ ns1).
    + destruct (Hsame eq_refl) as [-> ->]. cbn.
      by destruct (lookupCard_file_card _ _ _ _ Hfound Hcards) as [f ->].
  - rewrite Hflag. split.
    + intros (n & Hn%list_elem_of_In & [Hc Hd]%andb_true_iff)%existsb_exists.
      exists n. split_and!; [done|done|].
      apply orb_true_iff in Hd as [Hd%bool_decide_eq_true|Hd]; [by left|by right].
    + intros (n & Hn%list_elem_of_In & Hc & Hd). apply existsb_exists.
      exists n. split; [done|]. rewrite Hc. cbn. apply orb_true_iff.
      destruct Hd as [Hd|Hd]; [left; by apply bool_decide_eq_true|by right].
Qed.

Lemma modified_changes cf c w : modified cf c w <> w.
Proof.
  intros H. apply (f_equal (fun x => length (trace x))) in H. cbn in H.
  rewrite List.length_app in H. cbn in H. lia.
Qed.

Section WithHost.
Variable getFrontmatter : TFile -> option Frontmatter.
Variable JSON_parse : string -> option JsValue.
Variable JSON_stringify : JsValue -> string.
Variable measureTextPrecisely : string -> Q * Q.

Local Notation addToCanvas :=
  (Engine.addToCanvas getFrontmatter JSON_parse JSON_stringify measureTextPrecisely).
Local Notation addToCanvas_plain :=
  (Engine.addToCanvas_plain getFrontmatter JSON_parse JSON_stringify
                            measureTextPrecisely).
Local Notation syncNodeInCanvas :=
  (Engine.syncNodeInCanvas getFrontmatter JSON_parse JSON_stringify).
Local Notation syncNodeInCanvas_sized :=
  (Engine.syncNodeInCanvas_sized getFrontmatter JSON_parse JSON_stringify
                                 measureTextPrecisely).
Local Notation newCard := (Engine.newCard measureTextPrecisely).
Local Notation withNewCard := (Engine.withNewCard measureTextPrecisely).
Local Notation withNewCard_plain := (Engine.withNewCard_plain measureTextPrecisely).
Local Notation extractNodeText := (CardText.extractNodeText getFrontmatter).
Local Notation extractNodeText_plain :=
  (CardText.extractNodeText_plain getFrontmatter).
Local Notation foundAtLookup := (Engine.foundAtLookup JSON_parse).

(** C1: on a canvas file that holds a JSON object, after a call of
    [addToCanvas] that returned an identifier, a second call for the same
    canvas and note finds the card at the lookup, returns the same
    identifier and leaves the world, the canvas file included, as it is.
    The create-or-sync flow calls [syncNodeInCanvas] on a canvas known to
    hold the note: after a first call that created the card, the sync
    returns the same identifier and leaves the world as it is; after a
    first call that found the card, the sync has a target and writes the
    canvas exactly when a text card of the note shows another text than
    the regenerated one or the note has no frame (in the variant of
    main.ts: when a text card of the note shows another text or another
    size). What the first call stored is assumed to be read back as the
    document it was serialized from. *)
Theorem addToCanvas_idempotent cf nf id gid id' gid' w content data
  (Hpaths : path nf <> path cf)
  (Hread : vault w !! path cf = Some content)
  (Hparse : JSON_parse content = Some (VObj data))
  (Hcodec : forall text,
      extractNodeText nf w = (Fulfilled text, w) ->
      JSON_parse (JSON_stringify (withNewCard nf id gid text data))
      = Some (VObj (withNewCard nf id gid text data)))
  (Hcodec' : forall text,
      extractNodeText_plain nf w = (Fulfilled text, w) ->
      JSON_parse (JSON_stringify (withNewCard_plain id text data))
      = Some (VObj (withNewCard_plain id text data))) :
  (forall found w1,
      addToCanvas cf nf id gid w = (Fulfilled (Some found), w1) ->
      addToCanvas cf nf id' gid' w1 = (Fulfilled (Some found), w1)
      /\ foundAtLookup cf nf found w1
      /\ ((w1 <> w
           /\ syncNodeInCanvas cf nf gid' w1 = (Fulfilled (Some found), w1))
          \/ (w1 = w
              /\ exists ns,
                  nodes data = Some ns
                  /\ lookupCard (path nf) (linkPrefix nf) ns = Some found
                  /\ forall text,
                      extractNodeText nf w = (Fulfilled text, w) ->
                      let r := syncNodes nf text gid' ns in
                      syncNodeInCanvas cf nf gid' w
                      = (Fulfilled r.2,
                         if r.1.2
                         then modified cf (JSON_stringify (set_nodes r.1.1 data)) w
                         else w)
                      /\ is_Some r.2
                      /\ (r.1.2 = true
                          <-> (exists n, n ∈ ns
                                 /\ isTextCardFor (linkPrefix nf) n = true
                                 /\ node_text n <> Some text)
                              \/ (forall n, n ∈ ns ->
                                    isGroupOf (basename nf) n = false)))))
  /\ (forall found w1,
        addToCanvas_plain cf nf id w = (Fulfilled (Some found), w1) ->
        addToCanvas_plain cf nf id' w1 = (Fulfilled (Some found), w1)
        /\ foundAtLookup cf nf found w1
        /\ ((w1 <> w
             /\ syncNodeInCanvas_sized cf nf w1 = (Fulfilled (Some found), w1))
            \/ (w1 = w
                /\ exists ns,
                    nodes data = Some ns
                    /\ lookupCard (path nf) (linkPrefix nf) ns = Some found
                    /\ forall text,
                        extractNodeText_plain nf w = (Fulfilled text, w) ->
                        let size := measureTextPrecisely text in
                        let r := syncNodes_sized nf text size.1 size.2 ns in
                        syncNodeInCanvas_sized cf nf w
                        = (Fulfilled r.2,
                           if r.1.2
                           then modified cf (JSON_stringify (set_nodes r.1.1 data)) w
                           else w)
                        /\ is_Some r.2
                        /\ (r.1.2 = true
                            <-> exists n, n ∈ ns
                                  /\ isTextCardFor (linkPrefix nf) n = true
                                  /\ (node_text n <> Some text
                                      \/ isSizeDiff n size.1 size.2 = true))))).
Proof.
  split.
  - intros found w1 Hadd.
    destruct (addToCanvas_inv getFrontmatter JSON_parse JSON_stringify
                measureTextPrecisely cf nf id gid w content data found w1
                Hread Hparse Hadd)
      as [[Hfound ->]|(Hnone & text & Htext & -> & ->)].
    { split_and!; [by eapply addToCanvas_found|by exists content, data|].
      right. split; [done|].
      destruct (nodes data) as [ns|] eqn:Hnodes; [|done]. cbn in Hfound.
      exists ns. split_and!; [done|done|].
      intros text Htext r. subst r. split.
      - by apply (syncNodeInCanvas_run getFrontmatter JSON_parse JSON_stringify
                    cf nf gid' w content data).
      - by apply (syncNodes_found nf text gid' ns found). }
    specialize (Hcodec text Htext).
    set (d' := withNewCard nf id gid text data) in *.
    set (w1 := modified cf (JSON_stringify d') w).
    assert (vault w1 !! path cf = Some (JSON_stringify d')) as Hread1
        by apply lookup_insert_eq.
    pose proof Htext as (_ & d & _ & Hd)%extractNodeText_inv.
    pose proof (syncNodes_after_create measureTextPrecisely nf id gid gid' d _ Hnone)
      as Hsync.
    cbn zeta in Hsync. rewrite <- Hd in Hsync.
    assert (lookupCard (path nf) (linkPrefix nf) (default [] (nodes d')) = Some id)
      as Hlookup.
    { cbn. rewrite lookupCard_app, Hnone.
      cbn. unfold isFileCardFor, isTextCardFor, hasType.
      destruct (newCard_fields measureTextPrecisely id text
                  (default [] (nodes data))) as (Hid & Htype & Htxt & _).
      unfold Engine.newCard in *. rewrite Htype, Htxt, Hid. cbn.
      by rewrite Hd, aliasedCard_has_prefix. }
    split_and!.
    + by eapply addToCanvas_found.
    + by exists (JSON_stringify d'), d'.
    + left. split; [apply modified_changes|].
      rewrite (syncNodeInCanvas_run getFrontmatter JSON_parse JSON_stringify
                 cf nf gid' w1 (JSON_stringify d') d'
                 _ text Hread1 Hcodec eq_refl
                 (extractNodeText_modified _ _ _ _ _ _ Hpaths Htext)).
      unfold Engine.newCard in *. by rewrite Hsync.
  - intros found w1 Hadd.
    destruct (addToCanvas_plain_inv getFrontmatter JSON_parse JSON_stringify
                measureTextPrecisely cf nf id w content data found w1
                Hread Hparse Hadd)
      as [[Hfound ->]|(Hnone & text & Htext & -> & ->)].
    { split_and!; [by eapply addToCanvas_plain_found|by exists content, data|].
      right. split; [done|].
      destruct (nodes data) as [ns|] eqn:Hnodes; [|done]. cbn in Hfound.
      exists ns. split_and!; [done|done|].
      intros text Htext size r. subst r size. split.
      - by apply (syncNodeInCanvas_sized_run getFrontmatter JSON_parse
                    JSON_stringify measureTextPrecisely cf nf w content data).
      - by apply (syncNodes_sized_found nf text _ _ ns found). }
    specialize (Hcodec' text Htext).
    set (d' := withNewCard_plain id text data) in *.
    set (w1 := modified cf (JSON_stringify d') w).
    assert (vault w1 !! path cf = Some (JSON_stringify d')) as Hread1
        by apply lookup_insert_eq.
    pose proof Htext as (_ & d & _ & Hd)%extractNodeText_plain_inv.
    pose proof (syncNodes_sized_after_create measureTextPrecisely nf id d _ Hnone)
      as Hsync.
    cbn zeta in Hsync. rewrite <- Hd in Hsync.
    assert (lookupCard (path nf) (linkPrefix nf) (default [] (nodes d')) = Some id)
      as Hlookup.
    { cbn. rewrite lookupCard_app, Hnone.
      cbn. unfold isFileCardFor, isTextCardFor, hasType.
      destruct (newCard_fields measureTextPrecisely id text
                  (default [] (nodes data))) as (Hid & Htype & Htxt & _).
      unfold Engine.newCard in *. rewrite Htype, Htxt, Hid. cbn.
      by rewrite Hd, plainCard_has_prefix. }
    split_and!.
    + by eapply addToCanvas_plain_found.
    + by exists (JSON_stringify d'), d'.
    + left. split; [apply modified_changes|].
      pose proof (syncNodeInCanvas_sized_run getFrontmatter JSON_parse
                    JSON_stringify measureTextPrecisely
                    cf nf w1 (JSON_stringify d') d' _ text Hread1 Hcodec' eq_refl
                    (extractNodeText_plain_modified _ _ _ _ _ _ Hpaths Htext))
        as Hrun.
      cbn zeta in Hrun. rewrite Hrun.
      unfold Engine.newCard in *. by rewrite Hsync.
Qed.

End WithHost.

Lemma addToCanvas_idempotent_witness :
  let w := Demo.worldOf [("board.canvas", "c")] in
  (forall found w1,
      addToCanvas Demo.frontmatter Demo.parseCarded Demo.printNodes Demo.measure
                  Demo.board Demo.note "id" "gid" w = (Fulfilled (Some found), w1) ->
      addToCanvas Demo.frontmatter Demo.parseCarded Demo.printNodes Demo.measure
                  Demo.board Demo.note "id2" "gid2" w1 = (Fulfilled (Some found), w1)
      /\ foundAtLookup Demo.parseCarded Demo.board Demo.note found w1
      /\ ((w1 <> w
           /\ syncNodeInCanvas Demo.frontmatter Demo.parseCarded Demo.printNodes
                               Demo.board Demo.note "gid2" w1
              = (Fulfilled (Some found), w1))
          \/ (w1 = w
              /\ exists ns,
                  nodes Demo.emptyCanvas = Some ns
                  /\ lookupCard "note.md" (linkPrefix Demo.note) ns = Some found
                  /\ forall text,
                      extractNodeText Demo.frontmatter Demo.note w
                      = (Fulfilled text, w) ->
                      let r := syncNodes Demo.note text "gid2" ns in
                      syncNodeInCanvas Demo.frontmatter Demo.parseCarded
                                       Demo.printNodes Demo.board Demo.note "gid2" w
                      = (Fulfilled r.2,
                         if r.1.2
                         then modified Demo.board
                                (Demo.printNodes (set_nodes r.1.1 Demo.emptyCanvas)) w
                         else w)
                      /\ is_Some r.2
                      /\ (r.1.2 = true
                          <-> (exists n, n ∈ ns
                                 /\ isTextCardFor (linkPrefix Demo.note) n = true
                                 /\ node_text n <> Some text)
                              \/ (forall n, n ∈ ns -> isGroupOf "note" n = false)))))
  /\ (forall found w1,
        addToCanvas_plain Demo.frontmatter Demo.parseCarded Demo.printNodes
                          Demo.measure Demo.board Demo.note "id" w
        = (Fulfilled (Some found), w1) ->
        addToCanvas_plain Demo.frontmatter Demo.parseCarded Demo.printNodes
                          Demo.measure Demo.board Demo.note "id2" w1
        = (Fulfilled (Some found), w1)
        /\ foundAtLookup Demo.parseCarded Demo.board Demo.note found w1
        /\ ((w1 <> w
             /\ syncNodeInCanvas_sized Demo.frontmatter Demo.parseCarded
                                       Demo.printNodes Demo.measure
                                       Demo.board Demo.note w1
                = (Fulfilled (Some found), w1))
            \/ (w1 = w
                /\ exists ns,
                    nodes Demo.emptyCanvas = Some ns
                    /\ lookupCard "note.md" (linkPrefix Demo.note) ns = Some found
                    /\ forall text,
                        extractNodeText_plain Demo.frontmatter Demo.note w
                        = (Fulfilled text, w) ->
                        let size := Demo.measure text in
                        let r := syncNodes_sized Demo.note text size.1 size.2 ns in
                        syncNodeInCanvas_sized Demo.frontmatter Demo.parseCarded
                                               Demo.printNodes Demo.measure
                                               Demo.board Demo.note w
                        = (Fulfilled r.2,
                           if r.1.2
                           then modified Demo.board
                                  (Demo.printNodes (set_nodes r.1.1 Demo.emptyCanvas)) w
                           else w)
                        /\ is_Some r.2
                        /\ (r.1.2 = true
                            <-> exists n, n ∈ ns
                                  /\ isTextCardFor (linkPrefix Demo.note) n = true
                                  /\ (node_text n <> Some text
                                      \/ isSizeDiff n size.1 size.2 = true))))).
Proof.
  apply (addToCanvas_idempotent Demo.frontmatter Demo.parseCarded Demo.printNodes
           Demo.measure Demo.board Demo.note "id" "gid" "id2" "gid2"
           (Demo.worldOf [("board.canvas", "c")]) "c" Demo.emptyCanvas).
  - done.
  - reflexivity.
  - reflexivity.
  - intros text [= <-]. reflexivity.
  - intros text [= <-]. reflexivity.
Defined.

(** Where the claim fails. A canvas holds a card of note.md with an
    outdated text: [addToCanvas] finds it and writes nothing, and the sync
    the flow runs next finds it too, but brings the text up to date, puts a
    frame in front and writes the canvas. And on a canvas file that holds a
    JSON array nothing is ever found: every call of [addToCanvas] returns
    the fresh identifier it was given and writes the file. *)
Lemma addToCanvas_idempotent_counterexample :
  let w := Demo.worldOf [("board.canvas", "c")] in
  (let parse := Demo.parseKnown [("c", Demo.staleCanvas)] in
   let flow :=
     syncNodeInCanvas Demo.frontmatter parse Demo.printNodes Demo.board Demo.note
                      "gid2" w in
   addToCanvas Demo.frontmatter parse Demo.printNodes Demo.measure
               Demo.board Demo.note "id" "gid" w = (Fulfilled (Some "n1"), w)
   /\ flow.1 = Fulfilled (Some "n1")
   /\ writes (trace flow.2) = ["board.canvas"]
   /\ vault flow.2 !! "board.canvas"
      = Some (Demo.printNodes
                (Demo.canvasOf [groupFrame "gid2" "note" 0 0 100 100;
                                Demo.textNode "n1" Demo.cardText]))
   /\ vault flow.2 !! "board.canvas" <> vault w !! "board.canvas")
  /\ (let parse := fun _ : string => Some (VArr []) in
      let w1 := modified Demo.board (Demo.printNodes (VArr [])) w in
      let w2 := modified Demo.board (Demo.printNodes (VArr [])) w1 in
      addToCanvas Demo.frontmatter parse Demo.printNodes Demo.measure
                  Demo.board Demo.note "id" "gid" w = (Fulfilled (Some "id"), w1)
      /\ addToCanvas Demo.frontmatter parse Demo.printNodes Demo.measure
                     Demo.board Demo.note "id2" "gid2" w1
         = (Fulfilled (Some "id2"), w2)
      /\ writes (trace w2) = ["board.canvas"; "board.canvas"]).
Proof. split; split_and!; try reflexivity. by vm_compute. Qed.

(** On a canvas file that holds [null] the calls reject: the read of
    [nodes] throws behind the [try], and nothing is shown or written. *)
Example addToCanvas_null :
  let w := Demo.worldOf [("board.canvas", "null")] in
  let parse := fun _ : string => Some VNull in
  addToCanvas Demo.frontmatter parse Demo.printNodes Demo.measure
              Demo.board Demo.note "id" "gid" w = (Rejected, w)
  /\ syncNodeInCanvas Demo.frontmatter parse Demo.printNodes
                      Demo.board Demo.note "gid" w = (Rejected, w)
  /\ (adjustGroupsInCanvas parse Demo.printNodes Demo.board w).1 = Fulfilled ().
Proof. split_and!; reflexivity. Qed.

End FlowFacts.
